(** * py4cl.py: the Python side of the py4cl bridge

    A shallow embedding of [py4cl.py]: the marshaller ([lispify]), the
    handle table ([lispify_handle]), the framing of the return channel
    ([send_value], [return_value], [return_error]), the callback proxy
    ([LispCallbackObject.__call__]) and [message_dispatch_loop].

    Python state (the module globals and the two streams) is threaded
    explicitly through a state-and-exception monad [M]. *)

From Stdlib Require Import ZArith NArith List Sorted Ascii String.
From Stdlib Require Import Decimal DecimalString DecimalPos DecimalZ.
From stdpp Require Import base gmap list.
Import ListNotations.

Local Open Scope Z_scope.
Set Warnings "-register-all".

(** ** Python strings

    A Python 3 [str] is a sequence of Unicode code points; [len] counts
    code points.  Source-text literals are written with [lit]. *)

Definition pystr : Type := list N.

Definition lit (s : string) : pystr := map N_of_ascii (list_ascii_of_string s).

(** The double quote and the backslash, the two characters the string
    lispifier escapes. *)
Definition dquote : N := 34%N.
Definition backslash : N := 92%N.
Definition newline : N := 10%N.

(** [len(s)] *)
Definition len (s : pystr) : Z := Z.of_nat (length s).

(** The decimal numeral of an integer, with a leading minus sign for
    negative numbers: what [str(n)] returns when it returns (see
    [py_str_int] for the limit on the number of digits). *)
Definition str_int (z : Z) : pystr := lit (NilZero.string_of_int (Z.to_int z)).

(** Lower-case hexadecimal with a fixed number of digits, as the formats
    [%02x], [%04x] and [%08x] print it. *)
Definition hex_digit (d : N) : N := if (d <? 10)%N then (48 + d)%N else (87 + d)%N.

Fixpoint hex_fixed (width : nat) (n : N) : pystr :=
  match width with
  | O => []
  | S w => hex_fixed w (n / 16)%N ++ [hex_digit (n mod 16)%N]
  end.

(** [sep.join(parts)] *)
Fixpoint join (sep : pystr) (parts : list pystr) : pystr :=
  match parts with
  | [] => []
  | [p] => p
  | p :: rest => p ++ sep ++ join sep rest
  end.

(** [s.replace(old, new)] where [old] is a single character. *)
Definition replace_char (old : N) (new : pystr) (s : pystr) : pystr :=
  flat_map (fun c => if (c =? old)%N then new else [c]) s.

(** Number of bytes of the UTF-8 encoding of one code point and of a
    string (a lone surrogate, U+D800 to U+DFFF, has no UTF-8 encoding;
    see [encodable]). *)
Definition utf8_width (c : N) : Z :=
  if (c <? 128)%N then 1
  else if (c <? 2048)%N then 2
  else if (c <? 65536)%N then 3
  else 4.

Definition utf8_length (s : pystr) : Z :=
  fold_right (fun c acc => utf8_width c + acc) 0 s.

(** ** Python values *)

(** Exception classes, as far as the code tells them apart
    ([except KeyError] in [lispify]). *)
Inductive ExcClass : Type :=
| KeyError
| TypeError
| ValueError
| OtherException (name : pystr).

Definition exc_class_name (c : ExcClass) : pystr :=
  match c with
  | KeyError => lit "KeyError"
  | TypeError => lit "TypeError"
  | ValueError => lit "ValueError"
  | OtherException name => name
  end.

(** An instance of [Exception]: its class and the text [str(e)]. *)
Record PyExc : Type := mkExc { exc_class : ExcClass; exc_text : pystr }.

Definition is_KeyError (e : PyExc) : bool :=
  match exc_class e with KeyError => true | _ => false end.

(** Classes as values (what [type(x)] returns): the keys of
    [python_to_lisp_type], every other class whose own type is [type]
    by its qualified name, and a class with another metaclass by its
    name and the name of the metaclass. *)
Inductive PyType : Type :=
| T_bool | T_NoneType | T_int | T_float | T_complex | T_list | T_dict | T_str
| T_inspect_empty
| T_class (qualname : pystr)
| T_meta (qualname metaclass : pystr).

(** Runtime values.  A float is represented by the text [str] gives for
    it (Python's shortest round-tripping repr); an object of a class
    without its own constructor here is [PObject]: the class name,
    whether it is an instance of [numbers.Number], and its [str] text. *)
Inductive PyVal : Type :=
| PNone
| PBool (b : bool)
| PInt (z : Z)
| PFloat (repr : pystr)
| PComplex (real imag : pystr)
| PStr (s : pystr)
| PList (elts : list PyVal)
| PTuple (elts : list PyVal)
| PDict (items : list (PyVal * PyVal))
| PTypeObj (t : PyType)
| PSymbol (name : PyVal)
| PUnknownLispObject (lisptype : pystr) (handle : Z)
| PFraction (num den : Z)
| PException (e : PyExc)
| PObject (cls : pystr) (numeric : bool) (text : pystr).

(** [isinstance(obj, Exception)] *)
Definition isinstance_Exception (obj : PyVal) : bool :=
  match obj with PException _ => true | _ => false end.

(** [isinstance(obj, numeric_base_classes)], i.e. [numbers.Number]
    (NumPy is taken as not installed: its import is optional). *)
Definition isinstance_Number (obj : PyVal) : bool :=
  match obj with
  | PBool _ | PInt _ | PFloat _ | PComplex _ _ | PFraction _ _ => true
  | PObject _ numeric _ => numeric
  | _ => false
  end.

(** The qualified class name that [str(type(obj))] shows. *)
Definition type_qualname (obj : PyVal) : pystr :=
  match obj with
  | PNone => lit "NoneType"
  | PBool _ => lit "bool"
  | PInt _ => lit "int"
  | PFloat _ => lit "float"
  | PComplex _ _ => lit "complex"
  | PStr _ => lit "str"
  | PList _ => lit "list"
  | PTuple _ => lit "tuple"
  | PDict _ => lit "dict"
  | PTypeObj (T_meta _ metaclass) => metaclass
  | PTypeObj _ => lit "type"
  | PSymbol _ => lit "__main__.Symbol"
  | PUnknownLispObject _ _ => lit "__main__.UnknownLispObject"
  | PFraction _ _ => lit "fractions.Fraction"
  | PException e => exc_class_name (exc_class e)
  | PObject cls _ _ => cls
  end.

(** [str(type(obj))] *)
Definition str_type (obj : PyVal) : pystr :=
  lit "<class '" ++ type_qualname obj ++ lit "'>".

(** [str(t)] for a class [t]. *)
Definition type_obj_qualname (t : PyType) : pystr :=
  match t with
  | T_bool => lit "bool" | T_NoneType => lit "NoneType" | T_int => lit "int"
  | T_float => lit "float" | T_complex => lit "complex" | T_list => lit "list"
  | T_dict => lit "dict" | T_str => lit "str"
  | T_inspect_empty => lit "inspect._empty"
  | T_class q => q
  | T_meta q _ => q
  end.

(** [type(obj).__name__]: the last dotted component of the class name. *)
Fixpoint last_component (acc s : pystr) : pystr :=
  match s with
  | [] => acc
  | c :: rest => if (c =? 46)%N then last_component [] rest
                 else last_component (acc ++ [c]) rest
  end.

Definition type_name (obj : PyVal) : pystr := last_component [] (type_qualname obj).

(** [str(x)] for a complex number: Python prints the parts without a
    trailing [.0], omits a real part that is positive zero, and
    parenthesises otherwise. *)
Definition strip_dot0 (r : pystr) : pystr :=
  match rev r with
  | 48%N :: 46%N :: front => rev front
  | _ => r
  end.

Definition str_complex (real imag : pystr) : pystr :=
  if bool_decide (real = lit "0.0") then strip_dot0 imag ++ lit "j"
  else lit "(" ++ strip_dot0 real
       ++ (match imag with 45%N :: _ => [] | _ => lit "+" end)
       ++ strip_dot0 imag ++ lit "j)".

(** ** Interpreter state

    The module globals the code reads and writes, and the two streams.
    [return_stream] records what has been written to the original
    [sys.stdout], one event per [write] or [flush] call. *)

Inductive OutEvent : Type :=
| Write (s : pystr)
| Flush.

(** The return stream is [sys.stdout] as Python opened it: its encoding
    is UTF-8, and its error handler is [strict] under a UTF-8 locale
    and [surrogateescape] under the C locale. *)
Inductive ErrorHandler : Type :=
| strict
| surrogateescape.

Record State : Type := mkState {
  return_values : Z;                 (* the global [return_values] *)
  python_handle : N;                 (* next value of [itertools.count(0)] *)
  python_objects : gmap N PyVal;     (* the dict [python_objects] *)
  stdin : pystr;                     (* characters of [sys.stdin] not yet read *)
  return_stream : list OutEvent;     (* writes and flushes so far, oldest first *)
  return_stream_closed : bool;       (* a closed file raises ValueError on use *)
  eval_globals : gmap pystr PyVal;
  eval_locals : gmap pystr PyVal;
  return_stream_errors : ErrorHandler (* [return_stream.errors] *)
}.

Definition set_return_values (v : Z) (st : State) : State :=
  mkState v (python_handle st) (python_objects st) (stdin st) (return_stream st)
          (return_stream_closed st) (eval_globals st) (eval_locals st)
          (return_stream_errors st).

Definition set_python_handle (n : N) (st : State) : State :=
  mkState (return_values st) n (python_objects st) (stdin st) (return_stream st)
          (return_stream_closed st) (eval_globals st) (eval_locals st)
          (return_stream_errors st).

Definition set_python_objects (objs : gmap N PyVal) (st : State) : State :=
  mkState (return_values st) (python_handle st) objs (stdin st) (return_stream st)
          (return_stream_closed st) (eval_globals st) (eval_locals st)
          (return_stream_errors st).

Definition set_stdin (s : pystr) (st : State) : State :=
  mkState (return_values st) (python_handle st) (python_objects st) s (return_stream st)
          (return_stream_closed st) (eval_globals st) (eval_locals st)
          (return_stream_errors st).

Definition set_return_stream (out : list OutEvent) (st : State) : State :=
  mkState (return_values st) (python_handle st) (python_objects st) (stdin st) out
          (return_stream_closed st) (eval_globals st) (eval_locals st)
          (return_stream_errors st).

Definition set_return_stream_errors (h : ErrorHandler) (st : State) : State :=
  mkState (return_values st) (python_handle st) (python_objects st) (stdin st)
          (return_stream st) (return_stream_closed st) (eval_globals st) (eval_locals st) h.

(** ** Control flow

    How a Python call can end: with a value, with a raised instance of
    [Exception], with [KeyboardInterrupt] or [SystemExit] (both are
    [BaseException] but not [Exception]), or, for the fuel-bounded loop,
    by running out of fuel. *)
Inductive Outcome (A : Type) : Type :=
| Done (a : A)
| Raised (e : PyExc)
| KeyboardInterrupt
| SystemExit (code : Z)
| OutOfFuel.

Arguments Done {A} a.
Arguments Raised {A} e.
Arguments KeyboardInterrupt {A}.
Arguments SystemExit {A} code.
Arguments OutOfFuel {A}.

Definition M (A : Type) : Type := State -> Outcome A * State.

Definition ret {A : Type} (a : A) : M A := fun st => (Done a, st).

Definition raise {A : Type} (e : PyExc) : M A := fun st => (Raised e, st).

Definition bind {A B : Type} (m : M A) (f : A -> M B) : M B := fun st =>
  match m st with
  | (Done a, st') => f a st'
  | (Raised e, st') => (Raised e, st')
  | (KeyboardInterrupt, st') => (KeyboardInterrupt, st')
  | (SystemExit c, st') => (SystemExit c, st')
  | (OutOfFuel, st') => (OutOfFuel, st')
  end.

Notation "x <- m ;; k" := (bind m (fun x => k))
  (at level 100, m at next level, right associativity).
Notation "m ;;; k" := (bind m (fun _ => k))
  (at level 100, right associativity).

(** [try: body  except KeyError: handler] *)
Definition try_except_KeyError {A : Type} (body handler : M A) : M A := fun st =>
  match body st with
  | (Raised e, st') => if is_KeyError e then handler st' else (Raised e, st')
  | other => other
  end.

(** [try: body  except Exception as e: handler(e)] *)
Definition try_except {A : Type} (body : M A) (handler : PyExc -> M A) : M A := fun st =>
  match body st with
  | (Raised e, st') => handler e st'
  | other => other
  end.

(** [try: body  finally: cleanup], with a cleanup that cannot raise. *)
Definition try_finally {A : Type} (body : M A) (cleanup : State -> State) : M A :=
  fun st => let '(r, st') := body st in (r, cleanup st').

(** ** Integers as text

    [str(n)], and [format(n)] with an empty format, refuse an [int] of
    more than [sys.int_max_str_digits] decimal digits: they raise
    [ValueError].  The limit is CPython's default, 4300. *)
Definition int_max_str_digits : Z := 4300.

(** The number of decimal digits of [z], without the sign. *)
Definition decimal_digits (z : Z) : Z := len (str_int (Z.abs z)).

Definition int_fits (z : Z) : bool := decimal_digits z <=? int_max_str_digits.

Definition int_str_limit_error : PyExc :=
  mkExc ValueError
    (lit "Exceeds the limit (4300 digits) for integer string conversion; use sys.set_int_max_str_digits() to increase the limit").

(** [str(z)] for an [int]. *)
Definition py_str_int (z : Z) : M pystr :=
  if int_fits z then ret (str_int z) else raise int_str_limit_error.

(** [str(x)] for a [fractions.Fraction]: the numerator alone when the
    denominator is 1, else ['%s/%s' % (numerator, denominator)]. *)
Definition str_Fraction (num den : Z) : M pystr :=
  if den =? 1 then py_str_int num
  else n <- py_str_int num ;; d <- py_str_int den ;; ret (n ++ lit "/" ++ d).

(** [str(obj)] for an instance of [numbers.Number]. *)
Definition str_Number (obj : PyVal) : M pystr :=
  match obj with
  | PBool b => ret (if b then lit "True" else lit "False")
  | PInt z => py_str_int z
  | PFloat r => ret r
  | PComplex re im => ret (str_complex re im)
  | PFraction n d => str_Fraction n d
  | PObject _ _ text => ret text
  | _ => ret []
  end.

(** ** The return stream *)

Definition closed_file_error : PyExc :=
  mkExc ValueError (lit "I/O operation on closed file.").

(** A lone surrogate has no UTF-8 encoding.  The handler [strict]
    refuses every surrogate; [surrogateescape] writes U+DC80 to U+DCFF
    as the single bytes 0x80 to 0xFF and refuses the others. *)
Definition surrogate (c : N) : bool := ((55296 <=? c) && (c <=? 57343))%N.

Definition escaped_byte (c : N) : bool := ((56448 <=? c) && (c <=? 56575))%N.

Definition unencodable (h : ErrorHandler) (c : N) : bool :=
  surrogate c &&
  match h with
  | strict => true
  | surrogateescape => negb (escaped_byte c)
  end.

(** Text the stream can encode. *)
Definition encodable (h : ErrorHandler) (s : pystr) : bool :=
  forallb (fun c => negb (unencodable h c)) s.

(** The [UnicodeEncodeError] of the UTF-8 encoder: it names the first
    character it refuses and its position, or, when surrogates follow
    that character directly, the positions of the whole run. *)
Fixpoint surrogate_run (s : pystr) : nat :=
  match s with
  | c :: rest => if surrogate c then S (surrogate_run rest) else O
  | [] => O
  end.

Definition unicode_encode_error (c : N) (start : Z) (more : nat) : PyExc :=
  mkExc (OtherException (lit "UnicodeEncodeError"))
    (match more with
     | O => lit "'utf-8' codec can't encode character '" ++ [backslash] ++ lit "u"
            ++ hex_fixed 4 c ++ lit "' in position " ++ str_int start
            ++ lit ": surrogates not allowed"
     | S _ => lit "'utf-8' codec can't encode characters in position " ++ str_int start
              ++ lit "-" ++ str_int (start + Z.of_nat more)
              ++ lit ": surrogates not allowed"
     end).

Fixpoint encode_error_at (h : ErrorHandler) (pos : Z) (s : pystr) : option PyExc :=
  match s with
  | [] => None
  | c :: rest =>
      if unencodable h c then Some (unicode_encode_error c pos (surrogate_run rest))
      else encode_error_at h (pos + 1) rest
  end.

Definition encode_error (h : ErrorHandler) (s : pystr) : option PyExc :=
  encode_error_at h 0 s.

(** [return_stream.write(s)]: a closed file raises [ValueError]; the
    text is encoded as a whole before any of it is written, and text
    that cannot be encoded raises [UnicodeEncodeError]. *)
Definition stream_write (s : pystr) : M unit := fun st =>
  if return_stream_closed st then (Raised closed_file_error, st)
  else
    match encode_error (return_stream_errors st) s with
    | Some e => (Raised e, st)
    | None => (Done tt, set_return_stream (return_stream st ++ [Write s]) st)
    end.

(** [return_stream.flush()] *)
Definition stream_flush : M unit := fun st =>
  if return_stream_closed st then (Raised closed_file_error, st)
  else (Done tt, set_return_stream (return_stream st ++ [Flush]) st).

(** [print(n, file = return_stream, flush=True)] for the length [n] of
    a string: the builtin writes [str(n)], then the line end, then
    flushes.  (A length has fewer than 20 digits, so [str] returns its
    numeral.) *)
Definition print_flush (n : Z) : M unit :=
  stream_write (str_int n) ;;; stream_write [newline] ;;; stream_flush.

(** ** The marshaller *)

(** The table [python_to_lisp_type] (with the [inspect._empty] entry). *)
Definition python_to_lisp_type (t : PyType) : option pystr :=
  match t with
  | T_bool => Some (lit "BOOLEAN")
  | T_NoneType => Some (lit "NULL")
  | T_int => Some (lit "INTEGER")
  | T_float => Some (lit "FLOAT")
  | T_complex => Some (lit "COMPLEX")
  | T_list => Some (lit "VECTOR")
  | T_dict => Some (lit "HASH-TABLE")
  | T_str => Some (lit "STRING")
  | T_inspect_empty => Some (lit "NIL")
  | T_class _ => None
  | T_meta _ _ => None
  end.

(** The text of a handle reference.  (The handle is a value of
    [itertools.count(0)], one more per call of [lispify_handle], so
    [str] returns its numeral.) *)
Definition handle_text (obj : PyVal) (handle : N) : pystr :=
  lit "#.(py4cl2::make-python-object-finalize :type " ++ [dquote] ++ str_type obj
  ++ [dquote] ++ lit " :handle " ++ str_int (Z.of_N handle) ++ lit ")".

(** [lispify_handle(obj)]: take the next number of the counter, store
    the object under it, return the reference text. *)
Definition lispify_handle (obj : PyVal) : M pystr := fun st =>
  let handle := python_handle st in
  let st1 := set_python_handle (handle + 1)%N st in
  let st2 := set_python_objects (<[handle := obj]> (python_objects st1)) st1 in
  (Done (handle_text obj handle), st2).

(** [str(x)] for a [Symbol]: [__str__] returns [self._name], and [str]
    raises [TypeError] when that is not a string. *)
Definition str_Symbol (name : PyVal) : M pystr :=
  match name with
  | PStr s => ret s
  | other => raise (mkExc TypeError
               (lit "__str__ returned non-string (type " ++ type_name other ++ lit ")"))
  end.

(** The lispifier of [str]. *)
Definition lispify_str (x : pystr) : pystr :=
  [dquote]
  ++ replace_char dquote [backslash; dquote]
       (replace_char backslash [backslash; backslash] x)
  ++ [dquote].

(** [lispify] applied to a float, as the lispifier of [complex] does
    with [x.real] and [x.imag] (see [lispify_PFloat] below). *)
Definition lispify_float (r : pystr) : M pystr := fun st =>
  if 0 <? return_values st then lispify_handle (PFloat r) st
  else try_except_KeyError (ret r) (ret r) st.

(** The handler of [except KeyError] in [lispify]. *)
Definition lispify_fallback (obj : PyVal) : M pystr :=
  if isinstance_Number obj then str_Number obj else lispify_handle obj.

(** The generator [lispify(elt) for elt in x], consumed by [join]: the
    elements are encoded from left to right. *)
Definition lispify_each (lispify : PyVal -> M pystr) : list PyVal -> M (list pystr) :=
  fix each (l : list PyVal) : M (list pystr) :=
    match l with
    | [] => ret []
    | elt :: rest => p <- lispify elt ;; ps <- each rest ;; ret (p :: ps)
    end.

(** The generator over [x.items()] of the lispifier of [dict]. *)
Definition lispify_items (lispify : PyVal -> M pystr)
  : list (PyVal * PyVal) -> M (list pystr) :=
  fix each (l : list (PyVal * PyVal)) : M (list pystr) :=
    match l with
    | [] => ret []
    | (key, value) :: rest =>
        k <- lispify key ;;
        v <- lispify value ;;
        ps <- each rest ;;
        ret ((lit "(setf (gethash " ++ k ++ lit " table) " ++ v ++ lit ")") :: ps)
    end.

(** [lispify(obj)].  Each branch of the inner [match] is the entry of
    the table [lispifiers] for [type(obj)]; a type without an entry is
    the [KeyError] of the table lookup.  A class whose metaclass is not
    [type] has no entry; for the other classes the entry of [type]
    looks the class up in [python_to_lisp_type]. *)
Fixpoint lispify (obj : PyVal) {struct obj} : M pystr := fun st =>
  if 0 <? return_values st then
    match obj with
    | PException e => (Done (exc_text e), st)
    | _ => lispify_handle obj st
    end
  else
    try_except_KeyError
      (match obj with
       | PException e => ret (exc_text e)
       | PBool x => ret (if x then lit "T" else lit "NIL")
       | PNone => ret ([dquote] ++ lit "None" ++ [dquote])
       | PInt z => py_str_int z
       | PFloat r => ret r
       | PComplex re im =>
           a <- lispify_float re ;;
           b <- lispify_float im ;;
           ret (lit "#C(" ++ a ++ lit " " ++ b ++ lit ")")
       | PList elts =>
           parts <- lispify_each lispify elts ;;
           ret (lit "#(" ++ join (lit " ") parts ++ lit ")")
       | PTuple elts =>
           match elts with
           | [] => ret ([dquote] ++ lit "()" ++ [dquote])
           | _ =>
               parts <- lispify_each lispify elts ;;
               ret (lit "(" ++ join (lit " ") parts ++ lit ")")
           end
       | PDict items =>
           parts <- lispify_items lispify items ;;
           ret (lit "#.(let ((table (make-hash-table :test (quote equal)))) "
                ++ join (lit " ") parts ++ lit " table)")
       | PStr x => ret (lispify_str x)
       | PTypeObj (T_meta _ _) => raise (mkExc KeyError (str_type obj))
       | PTypeObj t =>
           match python_to_lisp_type t with
           | Some name => ret name
           | None => raise (mkExc KeyError
                              (lit "<class '" ++ type_obj_qualname t ++ lit "'>"))
           end
       | PSymbol name => str_Symbol name
       | PUnknownLispObject _ handle =>
           h <- py_str_int handle ;;
           ret (lit "#.(py4cl2::lisp-object " ++ h ++ lit ")")
       | PFraction n d => str_Fraction n d
       | PObject _ _ _ => raise (mkExc KeyError (str_type obj))
       end)
      (lispify_fallback obj) st.

(** ** The channel *)

(** [send_value(value)]: the text is [lispify(value)], or the literal
    error text when [lispify] raises an [Exception]; then the length
    line, the text and a flush, which are outside the [try]. *)
Definition send_value (value : PyVal) : M unit :=
  value_str <- try_except (lispify value)
                 (fun e => ret (lit "Lispify error: " ++ exc_text e)) ;;
  print_flush (len value_str) ;;;
  stream_write value_str ;;;
  stream_flush.

(** [return_error(error)] *)
Definition return_error (error : PyVal) : M unit :=
  stream_write (lit "e") ;;;
  send_value error.

(** [return_value(value)] *)
Definition return_value (value : PyVal) : M unit :=
  if isinstance_Exception value then return_error value
  else
    stream_write (lit "r") ;;;
    stream_flush ;;;
    send_value value.

(** [sys.stdin.read(n)]: up to [n] characters, everything left when [n]
    is negative, the empty string at end of input.  The input is the
    text of [sys.stdin] as its decoder delivers it. *)
Definition stdin_read (n : Z) : M pystr := fun st =>
  if n <? 0 then (Done (stdin st), set_stdin [] st)
  else (Done (take (Z.to_nat n) (stdin st)), set_stdin (drop (Z.to_nat n) (stdin st)) st).

(** [sys.stdin.readline()]: up to and including the next line end, or
    up to the end of input. *)
Fixpoint split_line (s : pystr) : pystr * pystr :=
  match s with
  | [] => ([], [])
  | c :: rest =>
      if (c =? newline)%N then ([c], rest)
      else let '(line, tail) := split_line rest in (c :: line, tail)
  end.

Definition stdin_readline : M pystr := fun st =>
  let '(line, tail) := split_line (stdin st) in (Done line, set_stdin tail st).

(** ** [int(s)] on a string

    Python first turns every white-space character from U+007F on into
    a space and every Unicode decimal digit from U+007F on into its
    ASCII digit (characters below U+007F stay as they are, any other
    character becomes [?], which no numeral contains).  Then it skips
    ASCII white space at both ends and expects an optional sign and
    decimal digits, with single underscores allowed between digits.
    The tables are those of Unicode 14.0. *)

(** ASCII white space: space, tab, line feed, vertical tab, form feed,
    carriage return. *)
Definition is_space (c : N) : bool :=
  ((c =? 32) || ((9 <=? c) && (c <=? 13)))%N.

(** White space from U+007F on. *)
Definition unicode_space (c : N) : bool :=
  existsb (N.eqb c) [133; 160; 5760; 8232; 8233; 8239; 8287; 12288]%N
  || ((8192 <=? c) && (c <=? 8202))%N.

(** The code points of the digit zero of every script with decimal
    digits; the nine that follow each are its digits 1 to 9. *)
Definition decimal_zeros : list N :=
  [48; 1632; 1776; 1984; 2406; 2534; 2662; 2790; 2918; 3046; 3174; 3302; 3430;
   3558; 3664; 3792; 3872; 4160; 4240; 6112; 6160; 6470; 6608; 6784; 6800; 6992;
   7088; 7232; 7248; 42528; 43216; 43264; 43472; 43504; 43600; 44016; 65296;
   66720; 68912; 69734; 69872; 69942; 70096; 70384; 70736; 70864; 71248; 71360;
   71472; 71904; 72016; 72784; 73040; 73120; 92768; 92864; 93008; 120782;
   120792; 120802; 120812; 120822; 123200; 123632; 125264; 130032]%N.

Definition unicode_decimal (c : N) : option N :=
  (fun zero => c - zero)%N
    <$> List.find (fun zero => (zero <=? c) && (c <? zero + 10))%N decimal_zeros.

Definition int_transform_char (c : N) : N :=
  if (c <? 127)%N then c
  else if unicode_space c then 32%N
  else match unicode_decimal c with
       | Some d => (48 + d)%N
       | None => 63%N
       end.

Fixpoint lstrip (s : pystr) : pystr :=
  match s with
  | c :: rest => if is_space c then lstrip rest else s
  | [] => []
  end.

Definition strip (s : pystr) : pystr := rev (lstrip (rev (lstrip s))).

Definition is_digit (c : N) : bool := ((48 <=? c) && (c <=? 57))%N.

(** Digits, with single underscores between them. *)
Fixpoint digits_value (acc : Z) (s : pystr) : option Z :=
  match s with
  | [] => Some acc
  | c :: rest =>
      if is_digit c then digits_value (10 * acc + Z.of_N (c - 48)) rest
      else if (c =? 95)%N then
        match rest with
        | d :: _ => if is_digit d then digits_value acc rest else None
        | [] => None
        end
      else None
  end.

(** A numeral starts with a digit. *)
Definition parse_digits (s : pystr) : option Z :=
  match s with
  | c :: _ => if is_digit c then digits_value 0 s else None
  | [] => None
  end.

(** The integer [int(s)] returns, [None] when [int(s)] raises for a
    malformed string.  ([int] also refuses a string of more than 4300
    digits; a length line is far shorter.) *)
Definition parse_int (s : pystr) : option Z :=
  match strip (map int_transform_char s) with
  | 45%N :: ds => Z.opp <$> parse_digits ds
  | 43%N :: ds => parse_digits ds
  | ds => parse_digits ds
  end.

(** [repr(s)] of a string: quoted with ['], or with the double quote
    when the string has a ['] and no double quote; backslash, the
    chosen quote, tab and line ends are escaped, and every character
    that is not printable is written in hexadecimal. *)
(** The code points that are not printable ([str.isprintable]). *)
Definition nonprintable_ranges : list (N * N) :=
  [
   (0, 31); (127, 160); (173, 173); (888, 889); (896, 899); (907, 907); (909, 909);
   (930, 930); (1328, 1328); (1367, 1368); (1419, 1420); (1424, 1424); (1480, 1487);
   (1515, 1518); (1525, 1541); (1564, 1564); (1757, 1757); (1806, 1807); (1867, 1868);
   (1970, 1983); (2043, 2044); (2094, 2095); (2111, 2111); (2140, 2141); (2143, 2143);
   (2155, 2159); (2191, 2199); (2274, 2274); (2436, 2436); (2445, 2446); (2449, 2450);
   (2473, 2473); (2481, 2481); (2483, 2485); (2490, 2491); (2501, 2502); (2505, 2506);
   (2511, 2518); (2520, 2523); (2526, 2526); (2532, 2533); (2559, 2560); (2564, 2564);
   (2571, 2574); (2577, 2578); (2601, 2601); (2609, 2609); (2612, 2612); (2615, 2615);
   (2618, 2619); (2621, 2621); (2627, 2630); (2633, 2634); (2638, 2640); (2642, 2648);
   (2653, 2653); (2655, 2661); (2679, 2688); (2692, 2692); (2702, 2702); (2706, 2706);
   (2729, 2729); (2737, 2737); (2740, 2740); (2746, 2747); (2758, 2758); (2762, 2762);
   (2766, 2767); (2769, 2783); (2788, 2789); (2802, 2808); (2816, 2816); (2820, 2820);
   (2829, 2830); (2833, 2834); (2857, 2857); (2865, 2865); (2868, 2868); (2874, 2875);
   (2885, 2886); (2889, 2890); (2894, 2900); (2904, 2907); (2910, 2910); (2916, 2917);
   (2936, 2945); (2948, 2948); (2955, 2957); (2961, 2961); (2966, 2968); (2971, 2971);
   (2973, 2973); (2976, 2978); (2981, 2983); (2987, 2989); (3002, 3005); (3011, 3013);
   (3017, 3017); (3022, 3023); (3025, 3030); (3032, 3045); (3067, 3071); (3085, 3085);
   (3089, 3089); (3113, 3113); (3130, 3131); (3141, 3141); (3145, 3145); (3150, 3156);
   (3159, 3159); (3163, 3164); (3166, 3167); (3172, 3173); (3184, 3190); (3213, 3213);
   (3217, 3217); (3241, 3241); (3252, 3252); (3258, 3259); (3269, 3269); (3273, 3273);
   (3278, 3284); (3287, 3292); (3295, 3295); (3300, 3301); (3312, 3312); (3315, 3327);
   (3341, 3341); (3345, 3345); (3397, 3397); (3401, 3401); (3408, 3411); (3428, 3429);
   (3456, 3456); (3460, 3460); (3479, 3481); (3506, 3506); (3516, 3516); (3518, 3519);
   (3527, 3529); (3531, 3534); (3541, 3541); (3543, 3543); (3552, 3557); (3568, 3569);
   (3573, 3584); (3643, 3646); (3676, 3712); (3715, 3715); (3717, 3717); (3723, 3723);
   (3748, 3748); (3750, 3750); (3774, 3775); (3781, 3781); (3783, 3783); (3790, 3791);
   (3802, 3803); (3808, 3839); (3912, 3912); (3949, 3952); (3992, 3992); (4029, 4029);
   (4045, 4045); (4059, 4095); (4294, 4294); (4296, 4300); (4302, 4303); (4681, 4681);
   (4686, 4687); (4695, 4695); (4697, 4697); (4702, 4703); (4745, 4745); (4750, 4751);
   (4785, 4785); (4790, 4791); (4799, 4799); (4801, 4801); (4806, 4807); (4823, 4823);
   (4881, 4881); (4886, 4887); (4955, 4956); (4989, 4991); (5018, 5023); (5110, 5111);
   (5118, 5119); (5760, 5760); (5789, 5791); (5881, 5887); (5910, 5918); (5943, 5951);
   (5972, 5983); (5997, 5997); (6001, 6001); (6004, 6015); (6110, 6111); (6122, 6127);
   (6138, 6143); (6158, 6158); (6170, 6175); (6265, 6271); (6315, 6319); (6390, 6399);
   (6431, 6431); (6444, 6447); (6460, 6463); (6465, 6467); (6510, 6511); (6517, 6527);
   (6572, 6575); (6602, 6607); (6619, 6621); (6684, 6685); (6751, 6751); (6781, 6782);
   (6794, 6799); (6810, 6815); (6830, 6831); (6863, 6911); (6989, 6991); (7039, 7039);
   (7156, 7163); (7224, 7226); (7242, 7244); (7305, 7311); (7355, 7356); (7368, 7375);
   (7419, 7423); (7958, 7959); (7966, 7967); (8006, 8007); (8014, 8015); (8024, 8024);
   (8026, 8026); (8028, 8028); (8030, 8030); (8062, 8063); (8117, 8117); (8133, 8133);
   (8148, 8149); (8156, 8156); (8176, 8177); (8181, 8181); (8191, 8207); (8232, 8239);
   (8287, 8303); (8306, 8307); (8335, 8335); (8349, 8351); (8385, 8399); (8433, 8447);
   (8588, 8591); (9255, 9279); (9291, 9311); (11124, 11125); (11158, 11158);
   (11508, 11512); (11558, 11558); (11560, 11564); (11566, 11567); (11624, 11630);
   (11633, 11646); (11671, 11679); (11687, 11687); (11695, 11695); (11703, 11703);
   (11711, 11711); (11719, 11719); (11727, 11727); (11735, 11735); (11743, 11743);
   (11870, 11903); (11930, 11930); (12020, 12031); (12246, 12271); (12284, 12288);
   (12352, 12352); (12439, 12440); (12544, 12548); (12592, 12592); (12687, 12687);
   (12772, 12783); (12831, 12831); (42125, 42127); (42183, 42191); (42540, 42559);
   (42744, 42751); (42955, 42959); (42962, 42962); (42964, 42964); (42970, 42993);
   (43053, 43055); (43066, 43071); (43128, 43135); (43206, 43213); (43226, 43231);
   (43348, 43358); (43389, 43391); (43470, 43470); (43482, 43485); (43519, 43519);
   (43575, 43583); (43598, 43599); (43610, 43611); (43715, 43738); (43767, 43776);
   (43783, 43784); (43791, 43792); (43799, 43807); (43815, 43815); (43823, 43823);
   (43884, 43887); (44014, 44015); (44026, 44031); (55204, 55215); (55239, 55242);
   (55292, 63743); (64110, 64111); (64218, 64255); (64263, 64274); (64280, 64284);
   (64311, 64311); (64317, 64317); (64319, 64319); (64322, 64322); (64325, 64325);
   (64451, 64466); (64912, 64913); (64968, 64974); (64976, 65007); (65050, 65055);
   (65107, 65107); (65127, 65127); (65132, 65135); (65141, 65141); (65277, 65280);
   (65471, 65473); (65480, 65481); (65488, 65489); (65496, 65497); (65501, 65503);
   (65511, 65511); (65519, 65531); (65534, 65535); (65548, 65548); (65575, 65575);
   (65595, 65595); (65598, 65598); (65614, 65615); (65630, 65663); (65787, 65791);
   (65795, 65798); (65844, 65846); (65935, 65935); (65949, 65951); (65953, 65999);
   (66046, 66175); (66205, 66207); (66257, 66271); (66300, 66303); (66340, 66348);
   (66379, 66383); (66427, 66431); (66462, 66462); (66500, 66503); (66518, 66559);
   (66718, 66719); (66730, 66735); (66772, 66775); (66812, 66815); (66856, 66863);
   (66916, 66926); (66939, 66939); (66955, 66955); (66963, 66963); (66966, 66966);
   (66978, 66978); (66994, 66994); (67002, 67002); (67005, 67071); (67383, 67391);
   (67414, 67423); (67432, 67455); (67462, 67462); (67505, 67505); (67515, 67583);
   (67590, 67591); (67593, 67593); (67638, 67638); (67641, 67643); (67645, 67646);
   (67670, 67670); (67743, 67750); (67760, 67807); (67827, 67827); (67830, 67834);
   (67868, 67870); (67898, 67902); (67904, 67967); (68024, 68027); (68048, 68049);
   (68100, 68100); (68103, 68107); (68116, 68116); (68120, 68120); (68150, 68151);
   (68155, 68158); (68169, 68175); (68185, 68191); (68256, 68287); (68327, 68330);
   (68343, 68351); (68406, 68408); (68438, 68439); (68467, 68471); (68498, 68504);
   (68509, 68520); (68528, 68607); (68681, 68735); (68787, 68799); (68851, 68857);
   (68904, 68911); (68922, 69215); (69247, 69247); (69290, 69290); (69294, 69295);
   (69298, 69375); (69416, 69423); (69466, 69487); (69514, 69551); (69580, 69599);
   (69623, 69631); (69710, 69713); (69750, 69758); (69821, 69821); (69827, 69839);
   (69865, 69871); (69882, 69887); (69941, 69941); (69960, 69967); (70007, 70015);
   (70112, 70112); (70133, 70143); (70162, 70162); (70207, 70271); (70279, 70279);
   (70281, 70281); (70286, 70286); (70302, 70302); (70314, 70319); (70379, 70383);
   (70394, 70399); (70404, 70404); (70413, 70414); (70417, 70418); (70441, 70441);
   (70449, 70449); (70452, 70452); (70458, 70458); (70469, 70470); (70473, 70474);
   (70478, 70479); (70481, 70486); (70488, 70492); (70500, 70501); (70509, 70511);
   (70517, 70655); (70748, 70748); (70754, 70783); (70856, 70863); (70874, 71039);
   (71094, 71095); (71134, 71167); (71237, 71247); (71258, 71263); (71277, 71295);
   (71354, 71359); (71370, 71423); (71451, 71452); (71468, 71471); (71495, 71679);
   (71740, 71839); (71923, 71934); (71943, 71944); (71946, 71947); (71956, 71956);
   (71959, 71959); (71990, 71990); (71993, 71994); (72007, 72015); (72026, 72095);
   (72104, 72105); (72152, 72153); (72165, 72191); (72264, 72271); (72355, 72367);
   (72441, 72703); (72713, 72713); (72759, 72759); (72774, 72783); (72813, 72815);
   (72848, 72849); (72872, 72872); (72887, 72959); (72967, 72967); (72970, 72970);
   (73015, 73017); (73019, 73019); (73022, 73022); (73032, 73039); (73050, 73055);
   (73062, 73062); (73065, 73065); (73103, 73103); (73106, 73106); (73113, 73119);
   (73130, 73439); (73465, 73647); (73649, 73663); (73714, 73726); (74650, 74751);
   (74863, 74863); (74869, 74879); (75076, 77711); (77811, 77823); (78895, 82943);
   (83527, 92159); (92729, 92735); (92767, 92767); (92778, 92781); (92863, 92863);
   (92874, 92879); (92910, 92911); (92918, 92927); (92998, 93007); (93018, 93018);
   (93026, 93026); (93048, 93052); (93072, 93759); (93851, 93951); (94027, 94030);
   (94088, 94094); (94112, 94175); (94181, 94191); (94194, 94207); (100344, 100351);
   (101590, 101631); (101641, 110575); (110580, 110580); (110588, 110588);
   (110591, 110591); (110883, 110927); (110931, 110947); (110952, 110959);
   (111356, 113663); (113771, 113775); (113789, 113791); (113801, 113807);
   (113818, 113819); (113824, 118527); (118574, 118575); (118599, 118607);
   (118724, 118783); (119030, 119039); (119079, 119080); (119155, 119162);
   (119275, 119295); (119366, 119519); (119540, 119551); (119639, 119647);
   (119673, 119807); (119893, 119893); (119965, 119965); (119968, 119969);
   (119971, 119972); (119975, 119976); (119981, 119981); (119994, 119994);
   (119996, 119996); (120004, 120004); (120070, 120070); (120075, 120076);
   (120085, 120085); (120093, 120093); (120122, 120122); (120127, 120127);
   (120133, 120133); (120135, 120137); (120145, 120145); (120486, 120487);
   (120780, 120781); (121484, 121498); (121504, 121504); (121520, 122623);
   (122655, 122879); (122887, 122887); (122905, 122906); (122914, 122914);
   (122917, 122917); (122923, 123135); (123181, 123183); (123198, 123199);
   (123210, 123213); (123216, 123535); (123567, 123583); (123642, 123646);
   (123648, 124895); (124903, 124903); (124908, 124908); (124911, 124911);
   (124927, 124927); (125125, 125126); (125143, 125183); (125260, 125263);
   (125274, 125277); (125280, 126064); (126133, 126208); (126270, 126463);
   (126468, 126468); (126496, 126496); (126499, 126499); (126501, 126502);
   (126504, 126504); (126515, 126515); (126520, 126520); (126522, 126522);
   (126524, 126529); (126531, 126534); (126536, 126536); (126538, 126538);
   (126540, 126540); (126544, 126544); (126547, 126547); (126549, 126550);
   (126552, 126552); (126554, 126554); (126556, 126556); (126558, 126558);
   (126560, 126560); (126563, 126563); (126565, 126566); (126571, 126571);
   (126579, 126579); (126584, 126584); (126589, 126589); (126591, 126591);
   (126602, 126602); (126620, 126624); (126628, 126628); (126634, 126634);
   (126652, 126703); (126706, 126975); (127020, 127023); (127124, 127135);
   (127151, 127152); (127168, 127168); (127184, 127184); (127222, 127231);
   (127406, 127461); (127491, 127503); (127548, 127551); (127561, 127567);
   (127570, 127583); (127590, 127743); (128728, 128732); (128749, 128751);
   (128765, 128767); (128884, 128895); (128985, 128991); (129004, 129007);
   (129009, 129023); (129036, 129039); (129096, 129103); (129114, 129119);
   (129160, 129167); (129198, 129199); (129202, 129279); (129620, 129631);
   (129646, 129647); (129653, 129655); (129661, 129663); (129671, 129679);
   (129709, 129711); (129723, 129727); (129734, 129743); (129754, 129759);
   (129768, 129775); (129783, 129791); (129939, 129939); (129995, 130031);
   (130042, 131071); (173792, 173823); (177977, 177983); (178206, 178207);
   (183970, 183983); (191457, 194559); (195102, 196607); (201547, 917759);
   (918000, 1114111)
  ]%N.

Definition isprintable (c : N) : bool :=
  negb (existsb (fun r => (fst r <=? c) && (c <=? snd r))%N nonprintable_ranges).

Definition repr_char (q c : N) : pystr :=
  if ((c =? backslash) || (c =? q))%N then [backslash; c]
  else if (c =? 9)%N then [backslash; 116%N]
  else if (c =? newline)%N then [backslash; 110%N]
  else if (c =? 13)%N then [backslash; 114%N]
  else if isprintable c then [c]
  else if (c <=? 255)%N then [backslash; 120%N] ++ hex_fixed 2 c
  else if (c <=? 65535)%N then [backslash; 117%N] ++ hex_fixed 4 c
  else [backslash; 85%N] ++ hex_fixed 8 c.

Definition repr_str (s : pystr) : pystr :=
  let q := if bool_decide (39%N ∈ s) && negb (bool_decide (dquote ∈ s))
           then dquote else 39%N in
  [q] ++ flat_map (repr_char q) s ++ [q].

(** [int(s)]; the message shows at most 200 characters of [repr(s)]. *)
Definition py_int (s : pystr) : M Z :=
  match parse_int s with
  | Some z => ret z
  | None => raise (mkExc ValueError
              (lit "invalid literal for int() with base 10: " ++ take 200 (repr_str s)))
  end.

(** [recv_string()] *)
Definition recv_string : M pystr :=
  line <- stdin_readline ;;
  length <- py_int line ;;
  stdin_read length.

(** ** Guest code

    [eval] and [exec] run arbitrary Python.  What such a run can do to
    this module is described by a tree: finish with a value, raise,
    be interrupted, exit the process, change the interpreter state, call
    a [LispCallbackObject] or read an attribute of an
    [UnknownLispObject] (both block in a nested dispatch loop and go on
    with its result). *)
Inductive Guest : Type :=
| GReturn (v : PyVal)
| GRaise (e : PyExc)
| GKeyboardInterrupt
| GSystemExit (code : Z)
| GModify (f : State -> State) (k : Guest)
| GCallback (handle : PyVal) (args : list PyVal) (kwargs : list (pystr * PyVal))
            (k : PyVal -> Guest)
| GGetattr (handle : PyVal) (attr : pystr) (k : PyVal -> Guest).

(** What one pass through the body of [while True] decides. *)
Inductive LoopCtl : Type :=
| Continue
| Return (v : PyVal).

(** [return_values = v] *)
Definition assign_return_values (v : Z) : M unit := fun st =>
  (Done tt, set_return_values v st).

Section Interpreter.

(** The builtins [eval(source, eval_globals, eval_locals)] and
    [exec(source, eval_globals, eval_locals)]: the namespaces are part
    of the state. *)
Variable py_eval : pystr -> State -> Guest.
Variable py_exec : pystr -> State -> Guest.

(** The positional arguments followed by a [Symbol(":" + key)] and the
    value for each keyword argument. *)
Definition callback_allargs (args : list PyVal) (kwargs : list (pystr * PyVal))
  : list PyVal :=
  args ++ flat_map (fun kv => [PSymbol (PStr (lit ":" ++ fst kv)); snd kv]) kwargs.

(** The [try ... finally] statement of [LispCallbackObject.__call__]. *)
Definition callback_request (handle : PyVal) (allargs : list PyVal) : M unit :=
  fun st =>
    let old_return_values := return_values st in
    try_finally
      (assign_return_values 0 ;;;
       stream_write (lit "c") ;;;
       send_value (PTuple [handle; PTuple allargs]))
      (set_return_values old_return_values) st.

(** [LispCallbackObject.__call__(self, *args, **kwargs)]; [loop] is
    [message_dispatch_loop]. *)
Definition LispCallbackObject_call (loop : M PyVal) (handle : PyVal)
    (args : list PyVal) (kwargs : list (pystr * PyVal)) : M PyVal :=
  callback_request handle (callback_allargs args kwargs) ;;;
  loop.

(** [UnknownLispObject.__getattr__(self, attr)] *)
Definition UnknownLispObject_getattr (loop : M PyVal) (handle : PyVal)
    (attr : pystr) : M PyVal :=
  stream_write (lit "s") ;;;
  send_value (PTuple [handle; PStr attr]) ;;;
  loop.

(** Running guest code. *)
Fixpoint run_guest (loop : M PyVal) (g : Guest) {struct g} : M PyVal :=
  match g with
  | GReturn v => ret v
  | GRaise e => raise e
  | GKeyboardInterrupt => fun st => (KeyboardInterrupt, st)
  | GSystemExit code => fun st => (SystemExit code, st)
  | GModify f k => fun st => run_guest loop k (f st)
  | GCallback handle args kwargs k =>
      v <- LispCallbackObject_call loop handle args kwargs ;; run_guest loop (k v)
  | GGetattr handle attr k =>
      v <- UnknownLispObject_getattr loop handle attr ;; run_guest loop (k v)
  end.

Definition eval (loop : M PyVal) (source : pystr) : M PyVal :=
  fun st => run_guest loop (py_eval source st) st.

Definition exec (loop : M PyVal) (source : pystr) : M PyVal :=
  fun st => run_guest loop (py_exec source st) st.

(** [recv_value()] *)
Definition recv_value (loop : M PyVal) : M PyVal :=
  s <- recv_string ;; eval loop s.

(** The body of the [try] statement of [message_dispatch_loop]. *)
Definition dispatch_body (loop : M PyVal) : M LoopCtl :=
  cmd_type <- stdin_read 1 ;;
  if bool_decide (cmd_type = lit "e") then
    expr <- recv_string ;;
    result <- eval loop expr ;;
    return_value result ;;;
    ret Continue
  else if bool_decide (cmd_type = lit "x") then
    source <- recv_string ;;
    exec loop source ;;;
    return_value PNone ;;;
    ret Continue
  else if bool_decide (cmd_type = lit "q") then
    (fun st => (SystemExit 0, st))
  else if bool_decide (cmd_type = lit "r") then
    v <- recv_value loop ;; ret (Return v)
  else if bool_decide (cmd_type = lit "O") then
    (fun st => (Done Continue, set_return_values (return_values st + 1) st))
  else if bool_decide (cmd_type = lit "o") then
    (fun st => (Done Continue, set_return_values (return_values st - 1) st))
  else
    return_error (PStr (lit "Unknown message type " ++ [dquote] ++ cmd_type ++ [dquote])) ;;;
    ret Continue.

(** One pass through [while True]: the [try] statement with its two
    handlers. *)
Definition dispatch_iteration (loop : M PyVal) : M LoopCtl := fun st =>
  match dispatch_body loop st with
  | (KeyboardInterrupt, st') => (return_value PNone ;;; ret Continue) st'
  | (Raised e, st') => (return_error (PException e) ;;; ret Continue) st'
  | other => other
  end.

(** [message_dispatch_loop()].  The fuel bounds the number of passes
    through the loop and the depth of nested loops; a run that needs
    more ends in [OutOfFuel]. *)
Fixpoint message_dispatch_loop (fuel : nat) : M PyVal :=
  match fuel with
  | O => fun st => (OutOfFuel, st)
  | S n => fun st =>
      match dispatch_iteration (message_dispatch_loop n) st with
      | (Done Continue, st') => message_dispatch_loop n st'
      | (Done (Return v), st') => (Done v, st')
      | (Raised e, st') => (Raised e, st')
      | (KeyboardInterrupt, st') => (KeyboardInterrupt, st')
      | (SystemExit c, st') => (SystemExit c, st')
      | (OutOfFuel, st') => (OutOfFuel, st')
      end
  end.

(** What the branches for [e] and [x] compute before they call
    [return_value]: the value of the expression, or [None] once the
    statement has run. *)
Definition command_work (loop : M PyVal) (cmd_type : pystr) : M PyVal :=
  if bool_decide (cmd_type = lit "e") then
    expr <- recv_string ;; eval loop expr
  else
    source <- recv_string ;; exec loop source ;;; ret PNone.

End Interpreter.

(** The module right after import: counter at 0, no handles, an open
    return stream with the error handler of a UTF-8 locale; [globals]
    is what the module has put in [eval_globals], [input] what the host
    will send. *)
Definition initial_state (globals : gmap pystr PyVal) (input : pystr) : State :=
  mkState 0 0 ∅ input [] false globals ∅ strict.

(** Guest code for the examples: what [eval] and [exec] do with a few
    source texts.  The callback proxy [f] has the handle 7. *)
Definition example_eval (source : pystr) (st : State) : Guest :=
  if bool_decide (source = lit "1+1") then GReturn (PInt 2)
  else if bool_decide (source = lit "5") then GReturn (PInt 5)
  else if bool_decide (source = lit "ValueError('bad')") then
    GReturn (PException (mkExc ValueError (lit "bad")))
  else if bool_decide (source = lit "f()") then
    GCallback (PInt 7) [] [] (fun v => GReturn v)
  else if bool_decide (source = lit "1/0") then
    GRaise (mkExc (OtherException (lit "ZeroDivisionError")) (lit "division by zero"))
  else GRaise (mkExc (OtherException (lit "SyntaxError")) (lit "invalid syntax")).

Definition example_exec (source : pystr) (st : State) : Guest :=
  if bool_decide (source = lit "pass") then GReturn PNone
  else if bool_decide (source = lit "raise KeyboardInterrupt") then GKeyboardInterrupt
  else if bool_decide (source = lit "1/0") then
    GRaise (mkExc (OtherException (lit "ZeroDivisionError")) (lit "division by zero"))
  else GRaise (mkExc (OtherException (lit "SyntaxError")) (lit "invalid syntax")).

(** More guest code for the examples: a string and an exception whose
    text is the lone surrogate U+D800, and statements that raise such
    an exception or [SystemExit]. *)
Definition lone_surrogate : pystr := [55296%N].

Definition surrogate_eval (source : pystr) (st : State) : Guest :=
  if bool_decide (source = lit "chr(0xd800)") then GReturn (PStr lone_surrogate)
  else if bool_decide (source = lit "ValueError(chr(0xd800))") then
    GReturn (PException (mkExc ValueError lone_surrogate))
  else GRaise (mkExc (OtherException (lit "SyntaxError")) (lit "invalid syntax")).

Definition leaving_exec (source : pystr) (st : State) : Guest :=
  if bool_decide (source = lit "raise SystemExit(3)") then GSystemExit 3
  else if bool_decide (source = lit "raise ValueError(chr(0xd800))") then
    GRaise (mkExc ValueError lone_surrogate)
  else GRaise (mkExc (OtherException (lit "SyntaxError")) (lit "invalid syntax")).

(** ** Vocabulary of the properties *)

(** The events of one frame that declares length [n] for [text], and of
    the frame [send_value] writes. *)
Definition frame_declaring (n : Z) (text : pystr) : list OutEvent :=
  [Write (str_int n); Write [newline]; Flush; Write text; Flush].

Definition frame (text : pystr) : list OutEvent := frame_declaring (len text) text.

(** The length line of the frame of [text], without the text. *)
Definition length_line (text : pystr) : list OutEvent :=
  [Write (str_int (len text)); Write [newline]; Flush].

(** A response: the tag [r] (flushed) or [e], then one frame. *)
Definition return_frame (text : pystr) : list OutEvent :=
  [Write (lit "r"); Flush] ++ frame text.

Definition error_frame (text : pystr) : list OutEvent :=
  [Write (lit "e")] ++ frame text.


(** Outcomes after which the caller is still running Python code. *)
Definition settled {A : Type} (r : Outcome A) : Prop :=
  match r with
  | Done _ | Raised _ | KeyboardInterrupt => True
  | SystemExit _ | OutOfFuel => False
  end.

(** The primitive types of the wire format. *)
Definition primitive (v : PyVal) : Prop :=
  match v with
  | PNone | PBool _ | PInt _ | PFloat _ | PComplex _ _ | PStr _ => True
  | _ => False
  end.

(** The shape of the text [str] gives for a float: [inf], [-inf],
    [nan], or digits with a sign, a decimal point or an exponent. *)
Definition float_char (c : N) : bool :=
  is_digit c || existsb (N.eqb c) [43; 45; 46; 101]%N.

Definition float_repr (r : pystr) : bool :=
  bool_decide (r = lit "inf") || bool_decide (r = lit "-inf") || bool_decide (r = lit "nan")
  || (forallb float_char r && existsb (fun c => (c =? 46) || (c =? 101))%N r).

(** Booleans, integers that [str] agrees to print, floats, complex
    numbers and strings: the primitive values other than [None]. *)
Definition readable (v : PyVal) : Prop :=
  match v with
  | PBool _ | PStr _ => True
  | PInt z => int_fits z = true
  | PFloat r => float_repr r = true
  | PComplex re im => float_repr re = true /\ float_repr im = true
  | _ => False
  end.

(** Python's [==] on two floats given by their texts: NaN is equal to
    nothing, the two zeros are equal, and otherwise different floats
    have different texts. *)
Definition float_eq (a b : pystr) : bool :=
  negb (bool_decide (a = lit "nan")) && negb (bool_decide (b = lit "nan")) &&
  (bool_decide (a = b)
   || (bool_decide (a ∈ [lit "0.0"; lit "-0.0"]) && bool_decide (b ∈ [lit "0.0"; lit "-0.0"]))).

(** Python's [==] between two primitive values of the same type.
    (Numbers of different types can be equal too, as [1 == 1.0]; the
    properties below only compare a value with what is read back for
    it, which has its type.) *)
Definition py_eq_same_type (a b : PyVal) : bool :=
  match a, b with
  | PNone, PNone => true
  | PBool x, PBool y => Bool.eqb x y
  | PInt x, PInt y => x =? y
  | PFloat x, PFloat y => float_eq x y
  | PComplex r1 i1, PComplex r2 i2 => float_eq r1 r2 && float_eq i1 i2
  | PStr x, PStr y => bool_decide (x = y)
  | _, _ => false
  end.

(** Whether a value is free of NaN. *)
Definition nan_free (v : PyVal) : bool :=
  match v with
  | PFloat r => negb (bool_decide (r = lit "nan"))
  | PComplex re im =>
      negb (bool_decide (re = lit "nan")) && negb (bool_decide (im = lit "nan"))
  | _ => true
  end.

(** Modelled from the spec: the reader of the host for the wire syntax,
    which is not part of [py4cl.py].  It reads the forms the marshaller
    writes for booleans, integers, floats, complex numbers and strings:
    the symbols [T] and [NIL], a decimal numeral with an optional minus
    sign, the text of a float, [#C(] real part, space, imaginary part
    [)], and a string literal in double quotes in which a backslash
    quotes the next character. *)
Fixpoint read_string_body (s : pystr) : option pystr :=
  match s with
  | [] => None
  | c :: rest =>
      if (c =? dquote)%N then
        match rest with [] => Some [] | _ => None end
      else if (c =? backslash)%N then
        match rest with
        | [] => None
        | d :: rest' => cons d <$> read_string_body rest'
        end
      else cons c <$> read_string_body rest
  end.

Definition read_integer (s : pystr) : option Z :=
  if forallb (fun c => (c <? 128)%N) s then
    Z.of_int <$> NilZero.int_of_string (string_of_list_ascii (map ascii_of_N s))
  else None.

(** The text before the first space, and the text after it. *)
Fixpoint split_space (s : pystr) : pystr * pystr :=
  match s with
  | [] => ([], [])
  | c :: rest =>
      if (c =? 32)%N then ([], rest)
      else let '(a, b) := split_space rest in (c :: a, b)
  end.

(** What follows [#C(]: two floats and the closing parenthesis. *)
Definition read_complex (body : pystr) : option PyVal :=
  let '(re, rest) := split_space body in
  match rev rest with
  | 41%N :: rev_im =>
      if float_repr re && float_repr (rev rev_im) then Some (PComplex re (rev rev_im))
      else None
  | _ => None
  end.

Definition wire_read (s : pystr) : option PyVal :=
  match s with
  | [] => None
  | c :: body =>
      if (c =? dquote)%N then PStr <$> read_string_body body
      else if bool_decide (s = lit "T") then Some (PBool true)
      else if bool_decide (s = lit "NIL") then Some (PBool false)
      else if bool_decide (take 3 s = lit "#C(") then read_complex (drop 3 s)
      else if float_repr s then Some (PFloat s)
      else PInt <$> read_integer s
  end.

(** ** The handle table *)

(** Whether [lispify(obj)] goes to [lispify_handle(obj)] itself: forced
    by the counter, or as the fallback of a type without lispifier. *)
Definition takes_handle_path (st : State) (obj : PyVal) : bool :=
  if 0 <? return_values st then negb (isinstance_Exception obj)
  else
    match obj with
    | PObject _ numeric _ => negb numeric
    | PTypeObj t => match python_to_lisp_type t with None => true | Some _ => false end
    | _ => false
    end.

(** Every handle in the table was taken from the counter. *)
Definition handles_below_counter (st : State) : Prop :=
  forall h, is_Some (python_objects st !! h) -> (h < python_handle st)%N.

(** The [n] numbers the counter gives from [c] on. *)
Fixpoint handles_from (c : N) (n : nat) : list N :=
  match n with
  | O => []
  | S n' => c :: handles_from (c + 1)%N n'
  end.

(** Handle [h] was given out and its entry is gone. *)
Definition retired (h : N) (st : State) : Prop :=
  python_objects st !! h = None /\ (h < python_handle st)%N.

(** Modelled from the spec: the release of a handle (section 4.3:
    removes the entry, reports an error when it is absent).  The host
    does it by executing a statement that deletes the entry of
    [_py4cl_objects], which is the dict [python_objects]. *)
Definition release (handle : N) : M unit := fun st =>
  match python_objects st !! handle with
  | Some _ => (Done tt, set_python_objects (delete handle (python_objects st)) st)
  | None => (Raised (mkExc KeyError (str_int (Z.of_N handle))), st)
  end.

(** A history of the handle table: calls of [lispify], releases, and
    changes of the counter [return_values] (the commands [O] and [o],
    the callback proxy). *)
Inductive HandleOp : Type :=
| OpEncode (obj : PyVal)
| OpRelease (handle : N)
| OpReturnValues (v : Z).

Fixpoint run_handle_ops (ops : list HandleOp) (st : State) : State :=
  match ops with
  | [] => st
  | OpEncode obj :: rest => run_handle_ops rest (snd (lispify obj st))
  | OpRelease h :: rest => run_handle_ops rest (snd (release h st))
  | OpReturnValues v :: rest => run_handle_ops rest (set_return_values v st)
  end.

(** The text [send_value(value)] puts in its frame. *)
Definition wire_text (value : PyVal) (st : State) : pystr :=
  match fst (lispify value st) with
  | Done text => text
  | Raised e => lit "Lispify error: " ++ exc_text e
  | _ => []
  end.

(** What a run of the marshaller may do to the state: take numbers from
    the counter and store objects under them, nothing else. *)
Record marshal_step (st st' : State) : Prop := mk_marshal_step {
  ms_return_values : return_values st' = return_values st;
  ms_stdin : stdin st' = stdin st;
  ms_return_stream : return_stream st' = return_stream st;
  ms_closed : return_stream_closed st' = return_stream_closed st;
  ms_errors : return_stream_errors st' = return_stream_errors st;
  ms_globals : eval_globals st' = eval_globals st;
  ms_locals : eval_locals st' = eval_locals st;
  ms_handle : (python_handle st <= python_handle st')%N;
  ms_old : forall h, (h < python_handle st \/ python_handle st' <= h)%N ->
                     python_objects st' !! h = python_objects st !! h;
  ms_new : forall h, (python_handle st <= h < python_handle st')%N ->
                     is_Some (python_objects st' !! h)
}.

(** A computation that ends with a value or an [Exception], only makes
    a [marshal_step], and does not look at the return stream. *)
Definition marshals {A : Type} (m : M A) : Prop :=
  forall st, exists r st',
    m st = (r, st') /\ marshal_step st st' /\
    match r with Done _ | Raised _ => True | _ => False end /\
    forall out, m (set_return_stream out st) = (r, set_return_stream out st').

(** ** The loop, pass by pass *)

(** What the loop does with the result of a pass: after [Continue] it
    runs on, the value of an [r] command makes it return, anything
    else ends it. *)
Definition after_pass (loop : M PyVal) (pass : Outcome LoopCtl * State)
  : Outcome PyVal * State :=
  match pass with
  | (Done Continue, st') => loop st'
  | (Done (Return v), st') => (Done v, st')
  | (Raised e, st') => (Raised e, st')
  | (KeyboardInterrupt, st') => (KeyboardInterrupt, st')
  | (SystemExit c, st') => (SystemExit c, st')
  | (OutOfFuel, st') => (OutOfFuel, st')
  end.

(** The rest of a pass once the work of an [e] or [x] command has
    ended with the outcome [o]: [return_value] for a value, then the
    two handlers of the [try] statement. *)
Definition answer (o : Outcome PyVal) : M LoopCtl := fun st =>
  match (match o with
         | Done v => (return_value v ;;; ret Continue) st
         | Raised e => (Raised e, st)
         | KeyboardInterrupt => (KeyboardInterrupt, st)
         | SystemExit c => (SystemExit c, st)
         | OutOfFuel => (OutOfFuel, st)
         end) with
  | (KeyboardInterrupt, st') => (return_value PNone ;;; ret Continue) st'
  | (Raised e, st') => (return_error (PException e) ;;; ret Continue) st'
  | other => other
  end.


(** ** The rest of the module *)

(** The text that reached the return stream: the writes, concatenated. *)
Fixpoint written (out : list OutEvent) : pystr :=
  match out with
  | [] => []
  | Write s :: rest => s ++ written rest
  | Flush :: rest => written rest
  end.


(** The text [send_value] frames in place of a number that [str]
    refuses to print. *)
Definition int_limit_text : pystr := lit "Lispify error: " ++ exc_text int_str_limit_error.

(** [pythonize(value)] for a [Symbol] with the given [_name]:
    [str(value)[1:].replace("-", "_")]. *)
Definition pythonize (name : PyVal) : M pystr :=
  s <- str_Symbol name ;;
  ret (replace_char 45%N [95%N] (drop 1 s)).

(** The body of [__del__], the same for [LispCallbackObject] and
    [UnknownLispObject]. *)
Definition proxy_del (handle : PyVal) : M unit :=
  stream_write (lit "d") ;;;
  send_value handle.

(** The results of [n] calls of [function], one after the other. *)
Fixpoint call_times (n : nat) (function : M PyVal) : M (list PyVal) :=
  match n with
  | O => ret []
  | S k => v <- function ;; vs <- call_times k function ;; ret (v :: vs)
  end.

(** [generator(function, stop_value)], run until it is exhausted:
    the list of the values it yields.  [py_eq] is the operator [==] of
    the values; the fuel bounds the number of calls of [function]. *)
Section Generator.

Variable py_eq : PyVal -> PyVal -> bool.

Fixpoint generator (fuel : nat) (function : M PyVal) (stop_value : PyVal)
  : M (list PyVal) :=
  match fuel with
  | O => fun st => (OutOfFuel, st)
  | S n =>
      temp <- function ;;
      if py_eq temp stop_value then ret []
      else rest <- generator n function stop_value ;; ret (temp :: rest)
  end.

End Generator.



(** A computation that runs the same under every counter that is not
    positive. *)
Definition counter_blind {A : Type} (m : M A) : Prop :=
  forall st v, return_values st <= 0 -> v <= 0 ->
    m (set_return_values v st) = (fst (m st), set_return_values v (snd (m st))).

(** For the examples: [==] on strings, and a function that reads one
    character of the input per call. *)
Definition example_eq (a b : PyVal) : bool :=
  match a, b with
  | PStr x, PStr y => bool_decide (x = y)
  | _, _ => false
  end.

Definition read_char : M PyVal := c <- stdin_read 1 ;; ret (PStr c).

(** * Properties *)

(** ** Induction on nested values *)

Definition is_container (v : PyVal) : bool :=
  match v with PList _ | PTuple _ | PDict _ => true | _ => false end.

Section PyVal_nested_induction.

Variable P : PyVal -> Prop.
Hypothesis Hleaf : forall v, is_container v = false -> P v.
Hypothesis Hlist : forall elts, Forall P elts -> P (PList elts).
Hypothesis Htuple : forall elts, Forall P elts -> P (PTuple elts).
Hypothesis Hdict :
  forall items, Forall (fun kv => P (fst kv) /\ P (snd kv)) items -> P (PDict items).

Fixpoint PyVal_nested_ind (v : PyVal) : P v :=
  match v with
  | PList elts =>
      Hlist elts
        ((fix all (l : list PyVal) : Forall P l :=
            match l with
            | [] => @List.Forall_nil _ P
            | x :: r => @List.Forall_cons _ P x r (PyVal_nested_ind x) (all r)
            end) elts)
  | PTuple elts =>
      Htuple elts
        ((fix all (l : list PyVal) : Forall P l :=
            match l with
            | [] => @List.Forall_nil _ P
            | x :: r => @List.Forall_cons _ P x r (PyVal_nested_ind x) (all r)
            end) elts)
  | PDict items =>
      Hdict items
        ((fix all (l : list (PyVal * PyVal))
            : Forall (fun kv => P (fst kv) /\ P (snd kv)) l :=
            match l with
            | [] => @List.Forall_nil _ _
            | (k, x) :: r =>
                @List.Forall_cons _ (fun kv => P (fst kv) /\ P (snd kv)) (k, x) r
                  (conj (PyVal_nested_ind k) (PyVal_nested_ind x)) (all r)
            end) items)
  | other => Hleaf other eq_refl
  end.

End PyVal_nested_induction.

(** Reduce the projections of an updated state, and nothing else. *)
Ltac state_proj :=
  cbn [return_values python_handle python_objects stdin return_stream
       return_stream_closed return_stream_errors eval_globals eval_locals
       set_return_values set_python_handle set_python_objects set_stdin
       set_return_stream set_return_stream_errors fst snd] in *.

(** ** The marshaller only touches the handle table *)

Lemma marshal_step_refl st : marshal_step st st.
Proof. split; auto; intros; lia. Qed.

Lemma marshal_step_trans st1 st2 st3 :
  marshal_step st1 st2 -> marshal_step st2 st3 -> marshal_step st1 st3.
Proof.
  intros [] []. split; try congruence; try lia.
  - intros h Hh. rewrite ms_old1 by lia. apply ms_old0. lia.
  - intros h Hh. destruct (decide (h < python_handle st2)%N) as [Hlt|Hge].
    + rewrite ms_old1 by lia. apply ms_new0. lia.
    + apply ms_new1. lia.
Qed.

Lemma marshals_ret {A : Type} (a : A) : marshals (ret a).
Proof. intros st. exists (Done a), st. auto 6 using marshal_step_refl. Qed.

Lemma marshals_raise {A : Type} (e : PyExc) : marshals (@raise A e).
Proof. intros st. exists (Raised e), st. auto 6 using marshal_step_refl. Qed.

Lemma marshals_bind {A B : Type} (m : M A) (f : A -> M B) :
  marshals m -> (forall a, marshals (f a)) -> marshals (bind m f).
Proof.
  intros Hm Hf st. destruct (Hm st) as (r & st1 & E & S1 & Hr & Ho).
  unfold bind. rewrite E. destruct r as [a|e| | |]; try contradiction.
  - destruct (Hf a st1) as (r' & st2 & E' & S2 & Hr' & Ho').
    exists r', st2. repeat (split; eauto using marshal_step_trans).
    intros out. rewrite Ho. apply Ho'.
  - exists (Raised e), st1. repeat (split; auto).
    intros out. rewrite Ho. reflexivity.
Qed.

Lemma marshals_try_except_KeyError {A : Type} (body handler : M A) :
  marshals body -> marshals handler -> marshals (try_except_KeyError body handler).
Proof.
  intros Hb Hh st. destruct (Hb st) as (r & st1 & E & S1 & Hr & Ho).
  unfold try_except_KeyError. rewrite E.
  destruct r as [a|e| | |]; try contradiction.
  - exists (Done a), st1. repeat (split; auto).
    intros out. rewrite Ho. reflexivity.
  - destruct (is_KeyError e) eqn:Hk.
    + destruct (Hh st1) as (r' & st2 & E' & S2 & Hr' & Ho').
      exists r', st2. repeat (split; eauto using marshal_step_trans).
      intros out. rewrite Ho, Hk. apply Ho'.
    + exists (Raised e), st1. repeat (split; auto).
      intros out. rewrite Ho, Hk. reflexivity.
Qed.

Lemma lispify_handle_step obj st :
  marshal_step st (snd (lispify_handle obj st)).
Proof.
  unfold lispify_handle. simpl. split; simpl; auto; try lia.
  - intros h Hh. apply lookup_insert_ne. lia.
  - intros h Hh. assert (h = python_handle st) as -> by lia.
    rewrite lookup_insert_eq. eauto.
Qed.

Lemma marshals_lispify_handle obj : marshals (lispify_handle obj).
Proof.
  intros st. pose proof (lispify_handle_step obj st) as S.
  unfold lispify_handle in *. simpl in *. eexists _, _.
  split; [reflexivity|]. split; [exact S|]. split; [exact I|]. reflexivity.
Qed.

Lemma marshals_if_forced {A : Type} (forced normal : M A) :
  marshals forced -> marshals normal ->
  marshals (fun st => if 0 <? return_values st then forced st else normal st).
Proof.
  intros Hf Hn st. destruct (0 <? return_values st) eqn:Hrv.
  - destruct (Hf st) as (r & st' & E & S & Hr & Ho). exists r, st'.
    repeat (split; auto). intros out. state_proj. rewrite Hrv. apply Ho.
  - destruct (Hn st) as (r & st' & E & S & Hr & Ho). exists r, st'.
    repeat (split; auto). intros out. state_proj. rewrite Hrv. apply Ho.
Qed.

Lemma marshals_lispify_float r : marshals (lispify_float r).
Proof.
  apply (marshals_if_forced (lispify_handle (PFloat r))
           (try_except_KeyError (ret r) (ret r))).
  - apply marshals_lispify_handle.
  - apply marshals_try_except_KeyError; apply marshals_ret.
Qed.

Lemma marshals_py_str_int z : marshals (py_str_int z).
Proof.
  unfold py_str_int. destruct (int_fits z); auto using marshals_ret, marshals_raise.
Qed.

Lemma marshals_str_Fraction n d : marshals (str_Fraction n d).
Proof.
  unfold str_Fraction. destruct (d =? 1); [apply marshals_py_str_int|].
  repeat (apply marshals_bind; [apply marshals_py_str_int|intros ?]).
  apply marshals_ret.
Qed.

Lemma marshals_str_Number obj : marshals (str_Number obj).
Proof.
  destruct obj; simpl;
    auto using marshals_ret, marshals_py_str_int, marshals_str_Fraction.
Qed.

Lemma marshals_lispify_fallback obj : marshals (lispify_fallback obj).
Proof.
  unfold lispify_fallback. destruct (isinstance_Number obj).
  - apply marshals_str_Number.
  - apply marshals_lispify_handle.
Qed.

Lemma marshals_str_Symbol name : marshals (str_Symbol name).
Proof. destruct name; simpl; auto using marshals_ret, marshals_raise. Qed.

Lemma marshals_lispify_each (f : PyVal -> M pystr) elts :
  Forall (fun v => marshals (f v)) elts -> marshals (lispify_each f elts).
Proof.
  induction 1 as [|x l Hx Hl IH]; simpl.
  - apply marshals_ret.
  - apply marshals_bind; [exact Hx|]. intros p.
    apply marshals_bind; [exact IH|]. intros ps. apply marshals_ret.
Qed.

Lemma marshals_lispify_items (f : PyVal -> M pystr) items :
  Forall (fun kv => marshals (f (fst kv)) /\ marshals (f (snd kv))) items ->
  marshals (lispify_items f items).
Proof.
  induction 1 as [|[k v] l [Hk Hv] Hl IH]; simpl in *.
  - apply marshals_ret.
  - apply marshals_bind; [exact Hk|]. intros a.
    apply marshals_bind; [exact Hv|]. intros b.
    apply marshals_bind; [exact IH|]. intros ps. apply marshals_ret.
Qed.

Lemma marshals_lispify obj : marshals (lispify obj).
Proof.
  induction obj as [v Hv|elts IH|elts IH|items IH] using PyVal_nested_ind.
  - destruct v; try discriminate Hv; cbn [lispify];
      (apply marshals_if_forced;
       [ first [apply marshals_lispify_handle | apply marshals_ret]
       | apply marshals_try_except_KeyError;
         [ | apply marshals_lispify_fallback ] ]);
      auto using marshals_ret, marshals_raise, marshals_str_Symbol,
        marshals_py_str_int, marshals_str_Fraction.
    + repeat (apply marshals_bind; [apply marshals_lispify_float|intros ?]).
      apply marshals_ret.
    + destruct t; cbn [python_to_lisp_type]; auto using marshals_ret, marshals_raise.
    + apply marshals_bind; [apply marshals_py_str_int|intros ?]. apply marshals_ret.
  - cbn [lispify]. apply marshals_if_forced; [apply marshals_lispify_handle|].
    apply marshals_try_except_KeyError; [|apply marshals_lispify_fallback].
    apply marshals_bind; [apply marshals_lispify_each; exact IH|].
    intros ?. apply marshals_ret.
  - cbn [lispify]. apply marshals_if_forced; [apply marshals_lispify_handle|].
    apply marshals_try_except_KeyError; [|apply marshals_lispify_fallback].
    destruct elts as [|x l]; [apply marshals_ret|].
    apply marshals_bind; [apply marshals_lispify_each; exact IH|].
    intros ?. apply marshals_ret.
  - cbn [lispify]. apply marshals_if_forced; [apply marshals_lispify_handle|].
    apply marshals_try_except_KeyError; [|apply marshals_lispify_fallback].
    apply marshals_bind; [apply marshals_lispify_items; exact IH|].
    intros ?. apply marshals_ret.
Qed.

(** The lispifier of [complex] encodes its two floats as [lispify] does. *)
Lemma lispify_PFloat r : lispify (PFloat r) = lispify_float r.
Proof. reflexivity. Qed.

Lemma lispify_outcome obj st :
  marshal_step st (snd (lispify obj st)) /\
  ((exists text, fst (lispify obj st) = Done text) \/
   (exists e, fst (lispify obj st) = Raised e)).
Proof.
  destruct (marshals_lispify obj st) as (r & st' & E & S & Hr & _). rewrite E. simpl.
  split; [exact S|]. destruct r; try contradiction; eauto.
Qed.

Lemma lispify_set_return_stream obj out st :
  lispify obj (set_return_stream out st)
  = (fst (lispify obj st), set_return_stream out (snd (lispify obj st))).
Proof.
  destruct (marshals_lispify obj st) as (r & st' & E & _ & _ & Ho).
  rewrite E. apply Ho.
Qed.

Lemma wire_text_set_return_stream value out st :
  wire_text value (set_return_stream out st) = wire_text value st.
Proof. unfold wire_text. rewrite lispify_set_return_stream. reflexivity. Qed.

(** ** What the return stream can encode *)

Lemma encodable_app h a b : encodable h (a ++ b) = encodable h a && encodable h b.
Proof. apply forallb_app. Qed.

Lemma unencodable_below h c : (c < 55296)%N -> unencodable h c = false.
Proof.
  intros Hc. unfold unencodable, surrogate.
  assert ((55296 <=? c)%N = false) as -> by (apply N.leb_gt; exact Hc). reflexivity.
Qed.

Lemma encodable_below h s : Forall (fun c => (c < 55296)%N) s -> encodable h s = true.
Proof.
  unfold encodable. induction 1 as [|c s Hc Hs IH]; [reflexivity|].
  cbn [forallb]. rewrite unencodable_below by exact Hc. exact IH.
Qed.

Lemma lit_below s : Forall (fun c => (c < 55296)%N) (lit s).
Proof.
  unfold lit. induction (list_ascii_of_string s) as [|a l IH]; simpl; constructor; auto.
  pose proof (N_ascii_bounded a). lia.
Qed.

Lemma encodable_lit h s : encodable h (lit s) = true.
Proof. apply encodable_below, lit_below. Qed.

Lemma encodable_str_int h z : encodable h (str_int z) = true.
Proof. apply encodable_lit. Qed.

Lemma hex_fixed_below w n : Forall (fun c => (c < 55296)%N) (hex_fixed w n).
Proof.
  revert n. induction w as [|w IH]; intros n; cbn [hex_fixed]; [constructor|].
  apply Forall_app. split; [apply IH|]. constructor; [|constructor].
  assert (n mod 16 < 16)%N by (apply N.mod_lt; discriminate).
  unfold hex_digit. destruct (n mod 16 <? 10)%N; lia.
Qed.

Lemma encodable_unicode_encode_error h c start more :
  encodable h (exc_text (unicode_encode_error c start more)) = true.
Proof.
  destruct more; cbn [unicode_encode_error exc_text];
    rewrite !encodable_app, ?encodable_lit, ?encodable_str_int;
    rewrite ?(encodable_below h (hex_fixed 4 c)) by apply hex_fixed_below;
    reflexivity.
Qed.

Lemma encode_error_at_encodable h pos s :
  encodable h s = true -> encode_error_at h pos s = None.
Proof.
  unfold encodable. revert pos. induction s as [|c s IH]; intros pos H; [reflexivity|].
  cbn [forallb] in H. apply andb_true_iff in H as [Hc Hs]. apply negb_true_iff in Hc.
  cbn [encode_error_at]. rewrite Hc. apply IH, Hs.
Qed.

Lemma encode_error_at_refused h pos s :
  encodable h s = false -> exists e, encode_error_at h pos s = Some e.
Proof.
  unfold encodable. revert pos. induction s as [|c s IH]; intros pos H; [discriminate H|].
  cbn [forallb] in H. cbn [encode_error_at].
  destruct (unencodable h c); [eauto|]. apply IH. exact H.
Qed.

Lemma encode_error_at_text h h' pos s e :
  encode_error_at h pos s = Some e -> encodable h' (exc_text e) = true.
Proof.
  revert pos. induction s as [|c s IH]; intros pos H; [discriminate H|].
  cbn [encode_error_at] in H. destruct (unencodable h c).
  - injection H as <-. apply encodable_unicode_encode_error.
  - exact (IH _ H).
Qed.

Lemma encode_error_encodable h s : encodable h s = true -> encode_error h s = None.
Proof. apply encode_error_at_encodable. Qed.

Lemma encode_error_refused h s : encodable h s = false -> exists e, encode_error h s = Some e.
Proof. apply encode_error_at_refused. Qed.

Lemma encode_error_unencodable h s e : encode_error h s = Some e -> encodable h s = false.
Proof.
  intros H. destruct (encodable h s) eqn:E; [|reflexivity].
  rewrite (encode_error_encodable h s E) in H. discriminate H.
Qed.

(** The text of an [UnicodeEncodeError] can itself be encoded. *)
Lemma encode_error_text h h' s e :
  encode_error h s = Some e -> encodable h' (exc_text e) = true.
Proof. apply encode_error_at_text. Qed.

(** ** [send_value] *)

Lemma stream_write_open s st :
  return_stream_closed st = false ->
  encodable (return_stream_errors st) s = true ->
  stream_write s st = (Done tt, set_return_stream (return_stream st ++ [Write s]) st).
Proof.
  intros H He. unfold stream_write. rewrite H, (encode_error_encodable _ _ He). reflexivity.
Qed.

Lemma stream_write_refused s e st :
  return_stream_closed st = false ->
  encode_error (return_stream_errors st) s = Some e ->
  stream_write s st = (Raised e, st).
Proof. intros H He. unfold stream_write. rewrite H, He. reflexivity. Qed.

Lemma stream_flush_open st :
  return_stream_closed st = false ->
  stream_flush st = (Done tt, set_return_stream (return_stream st ++ [Flush]) st).
Proof. intros H. unfold stream_flush. rewrite H. reflexivity. Qed.

Lemma stream_write_closed s st :
  return_stream_closed st = true -> stream_write s st = (Raised closed_file_error, st).
Proof. intros H. unfold stream_write. rewrite H. reflexivity. Qed.

(** Side conditions of a write: the stream is open and the text can be
    encoded. *)
Ltac stream_side :=
  state_proj;
  first [ assumption
        | apply encodable_lit
        | apply encodable_str_int
        | reflexivity ].

Lemma print_flush_open n st :
  return_stream_closed st = false ->
  print_flush n st
  = (Done tt, set_return_stream
                (return_stream st ++ [Write (str_int n); Write [newline]; Flush]) st).
Proof.
  intros Hopen. unfold print_flush, bind.
  rewrite stream_write_open by stream_side.
  rewrite stream_write_open by stream_side.
  rewrite stream_flush_open by stream_side.
  state_proj. repeat rewrite <- app_assoc. reflexivity.
Qed.

(** On an open stream that can encode the text [wire_text],
    [send_value] appends one frame with that text to what the
    marshaller left. *)
Lemma send_value_open value st :
  return_stream_closed st = false ->
  encodable (return_stream_errors st) (wire_text value st) = true ->
  send_value value st =
    (Done tt, set_return_stream (return_stream st ++ frame (wire_text value st))
                (snd (lispify value st))).
Proof.
  intros Hopen Henc. destruct (lispify_outcome value st) as [S Hr].
  unfold send_value, wire_text, bind, try_except in *.
  destruct (lispify value st) as [r st1] eqn:E. simpl in S, Hr.
  assert (return_stream_closed st1 = false) as Hopen1
    by (rewrite (ms_closed _ _ S); exact Hopen).
  assert (return_stream st1 = return_stream st) as Hout by apply (ms_return_stream _ _ S).
  rewrite <- (ms_errors _ _ S) in Henc.
  destruct Hr as [[text ->]|[e ->]]; cbn [fst] in Henc; unfold ret;
    rewrite print_flush_open by exact Hopen1;
    rewrite stream_write_open by stream_side;
    rewrite stream_flush_open by stream_side;
    state_proj; rewrite Hout; unfold frame, frame_declaring;
    repeat rewrite <- app_assoc; reflexivity.
Qed.

(** When the stream cannot encode the text, the length line is out
    before the write of the text raises. *)
Lemma send_value_refused value e st :
  return_stream_closed st = false ->
  encode_error (return_stream_errors st) (wire_text value st) = Some e ->
  send_value value st =
    (Raised e, set_return_stream (return_stream st ++ length_line (wire_text value st))
                 (snd (lispify value st))).
Proof.
  intros Hopen Henc. destruct (lispify_outcome value st) as [S Hr].
  unfold send_value, wire_text, bind, try_except in *.
  destruct (lispify value st) as [r st1] eqn:E. simpl in S, Hr.
  assert (return_stream_closed st1 = false) as Hopen1
    by (rewrite (ms_closed _ _ S); exact Hopen).
  assert (return_stream st1 = return_stream st) as Hout by apply (ms_return_stream _ _ S).
  rewrite <- (ms_errors _ _ S) in Henc.
  destruct Hr as [[text ->]|[e' ->]]; cbn [fst] in Henc; unfold ret;
    rewrite print_flush_open by exact Hopen1;
    rewrite (stream_write_refused _ e) by stream_side;
    state_proj; rewrite Hout; reflexivity.
Qed.

Lemma len_le_utf8_length s : len s <= utf8_length s.
Proof.
  unfold len. induction s as [|c s IH]; simpl; [lia|].
  unfold utf8_length in *. simpl.
  assert (1 <= utf8_width c) by (unfold utf8_width; repeat case_match; lia).
  lia.
Qed.

Lemma len_ascii_utf8_length s :
  Forall (fun c => (c < 128)%N) s -> len s = utf8_length s.
Proof.
  unfold len. induction 1 as [|c s Hc Hs IH]; simpl; [reflexivity|].
  unfold utf8_length in *. simpl. unfold utf8_width at 1.
  apply N.ltb_lt in Hc. rewrite Hc. lia.
Qed.

Lemma len_lt_utf8_length s :
  Exists (fun c => (128 <= c)%N) s -> len s < utf8_length s.
Proof.
  unfold len, utf8_length. induction 1 as [c s Hc|c s Hs IH]; cbn [length fold_right].
  - pose proof (len_le_utf8_length s) as Hle. unfold len, utf8_length in Hle.
    assert (2 <= utf8_width c).
    { unfold utf8_width. assert ((c <? 128)%N = false) as -> by (apply N.ltb_ge; exact Hc).
      repeat case_match; lia. }
    lia.
  - assert (1 <= utf8_width c) by (unfold utf8_width; repeat case_match; lia). lia.
Qed.

Lemma len_utf8_length_ascii s :
  len s = utf8_length s <-> Forall (fun c => (c < 128)%N) s.
Proof.
  split; [|apply len_ascii_utf8_length].
  intros Heq.
  destruct (decide (Forall (fun c => (c < 128)%N) s)) as [Hall|Hnot]; [exact Hall|].
  exfalso. assert (len s < utf8_length s); [|lia].
  apply len_lt_utf8_length. apply not_Forall_Exists in Hnot; [|intros c; apply _].
  eapply Exists_impl; [exact Hnot|]. simpl. intros c Hc. lia.
Qed.

(** C3, as stated, fails: the length line does not give the number of
    UTF-8 bytes of the payload.  For the one-character string U+00E9
    the payload is that character between double quotes, which is 4
    bytes in UTF-8, and the length line says 3. *)
Lemma send_value_length_not_utf8 :
  let st := initial_state ∅ [] in
  ~ exists text,
      return_stream (snd (send_value (PStr [233%N]) st))
      = return_stream st ++ frame_declaring (utf8_length text) text.
Proof.
  intros st [text H].
  assert (return_stream (snd (send_value (PStr [233%N]) st))
          = [Write (lit "3"); Write [newline]; Flush; Write [dquote; 233%N; dquote]; Flush])
    as E by (vm_compute; reflexivity).
  rewrite E in H. unfold frame_declaring in H. simpl in H.
  injection H as Hlen Htext. subst text. vm_compute in Hlen. discriminate Hlen.
Qed.

(** C3, amended: on an open return stream [send_value] writes the
    number of characters (code points) of the text as a decimal line,
    then the text, then flushes; when the stream cannot encode the
    text, the length line is all it writes.  For text without a lone
    surrogate, which is the text that has a UTF-8 encoding, the number
    of characters is equal to the number of UTF-8 bytes exactly when
    the text is ASCII, and smaller as soon as one character is not. *)
Theorem send_value_frame_length :
  forall value st,
    return_stream_closed st = false ->
    let text := wire_text value st in
    (encodable (return_stream_errors st) text = true ->
     exists st',
       send_value value st = (Done tt, st') /\
       return_stream st'
       = return_stream st
         ++ [Write (str_int (Z.of_nat (length text))); Write [newline]; Flush;
             Write text; Flush]) /\
    (forall e, encode_error (return_stream_errors st) text = Some e ->
     exists st',
       send_value value st = (Raised e, st') /\
       return_stream st'
       = return_stream st
         ++ [Write (str_int (Z.of_nat (length text))); Write [newline]; Flush]) /\
    (encodable strict text = true ->
     (Z.of_nat (length text) = utf8_length text <-> Forall (fun c => (c < 128)%N) text) /\
     (Exists (fun c => (128 <= c)%N) text -> Z.of_nat (length text) < utf8_length text)).
Proof.
  intros value st Hopen text. split; [|split].
  - intros Henc. eexists. split; [apply send_value_open; assumption|]. reflexivity.
  - intros e He. eexists. split; [apply send_value_refused; assumption|]. reflexivity.
  - intros _. split.
    + apply len_utf8_length_ascii.
    + apply len_lt_utf8_length.
Qed.

Lemma send_value_frame_length_witness :
  (exists st',
     send_value (PStr (lit "hi")) (initial_state ∅ []) = (Done tt, st') /\
     return_stream st'
     = [Write (lit "4"); Write [newline]; Flush;
        Write ([dquote] ++ lit "hi" ++ [dquote]); Flush]) /\
  4 = utf8_length ([dquote] ++ lit "hi" ++ [dquote]).
Proof.
  destruct (send_value_frame_length (PStr (lit "hi")) (initial_state ∅ []) eq_refl)
    as (Hsend & _ & Hlen).
  destruct (Hsend eq_refl) as (st' & E & Hout).
  split.
  - exists st'. split; [exact E|]. rewrite Hout. reflexivity.
  - destruct (Hlen eq_refl) as [Hiff _]. apply Hiff.
    repeat constructor.
Defined.

(** C6, as stated, fails: for the string that is the lone surrogate
    U+D800, under either error handler of the stream, [send_value]
    writes the length line and then raises [UnicodeEncodeError] from
    the write of the text, which is outside its [try]: no frame is
    written. *)
Lemma send_value_lone_surrogate_no_frame :
  let st := initial_state ∅ [] in
  let st_c := set_return_stream_errors surrogateescape st in
  let e := unicode_encode_error 55296 1 0 in
  send_value (PStr lone_surrogate) st
  = (Raised e, set_return_stream [Write (lit "3"); Write [newline]; Flush] st) /\
  send_value (PStr lone_surrogate) st_c
  = (Raised e, set_return_stream [Write (lit "3"); Write [newline]; Flush] st_c) /\
  ~ (exists text st',
       send_value (PStr lone_surrogate) st = (Done tt, st') /\
       return_stream st' = return_stream st ++ frame text).
Proof.
  intros st st_c e.
  assert (send_value (PStr lone_surrogate) st
          = (Raised e, set_return_stream [Write (lit "3"); Write [newline]; Flush] st)) as E
    by (vm_compute; reflexivity).
  split; [exact E|]. split; [vm_compute; reflexivity|].
  intros (text & st' & H & _). rewrite E in H. discriminate H.
Qed.

(** C6, amended: whatever the value, the text [send_value] goes on with
    is the text of [lispify], or, when [lispify] raises an exception
    [e], the literal text ["Lispify error: " + str(e)].  On an open
    return stream that can encode this text, [send_value] writes
    exactly one frame, which holds it, and returns normally.  When the
    stream cannot encode the text, [send_value] writes the length line
    and raises the [UnicodeEncodeError] of the write. *)
Theorem send_value_one_frame_if_encodable :
  forall value st,
    return_stream_closed st = false ->
    exists text,
      (fst (lispify value st) = Done text \/
       exists e, fst (lispify value st) = Raised e /\
                 text = lit "Lispify error: " ++ exc_text e) /\
      (encodable (return_stream_errors st) text = true ->
       exists st',
         send_value value st = (Done tt, st') /\
         return_stream st' = return_stream st ++ frame text) /\
      (forall err, encode_error (return_stream_errors st) text = Some err ->
       exists st',
         send_value value st = (Raised err, st') /\
         return_stream st' = return_stream st ++ length_line text).
Proof.
  intros value st Hopen. exists (wire_text value st). split; [|split].
  - unfold wire_text. destruct (lispify_outcome value st) as [_ [[text E]|[e E]]];
      rewrite E; eauto.
  - intros Henc. eexists. split; [apply send_value_open; assumption|]. reflexivity.
  - intros err He. eexists. split; [apply send_value_refused; assumption|]. reflexivity.
Qed.

Lemma send_value_one_frame_if_encodable_witness :
  exists st',
    send_value (PSymbol (PInt 5)) (initial_state ∅ []) = (Done tt, st') /\
    return_stream st'
    = frame (lit "Lispify error: __str__ returned non-string (type int)").
Proof.
  destruct (send_value_one_frame_if_encodable (PSymbol (PInt 5)) (initial_state ∅ []) eq_refl)
    as (text & [Hd|(e & He & ->)] & Hsend & _).
  - vm_compute in Hd. discriminate Hd.
  - vm_compute in He. injection He as <-.
    destruct (Hsend eq_refl) as (st' & E & Hout).
    exists st'. split; [exact E|]. rewrite Hout. reflexivity.
Defined.

(** ** Reading back what the marshaller writes *)

Lemma read_string_body_escaped x :
  read_string_body
    (replace_char dquote [backslash; dquote]
       (replace_char backslash [backslash; backslash] x) ++ [dquote]) = Some x.
Proof.
  unfold replace_char. induction x as [|c x IH]; [reflexivity|].
  cbn [flat_map]. destruct (c =? backslash)%N eqn:Eb.
  - apply N.eqb_eq in Eb. subst c. simpl. simpl in IH. rewrite IH. reflexivity.
  - destruct (c =? dquote)%N eqn:Eq.
    + apply N.eqb_eq in Eq. subst c. simpl. simpl in IH. rewrite IH. reflexivity.
    + cbn [flat_map app]. rewrite Eq. cbn [app read_string_body].
      rewrite Eq, Eb. simpl in IH. rewrite IH. reflexivity.
Qed.

Lemma unlit_lit s : string_of_list_ascii (map ascii_of_N (lit s)) = s.
Proof.
  unfold lit. rewrite map_map.
  rewrite (map_ext _ id) by (intros a; apply ascii_N_embedding).
  rewrite map_id. apply string_of_list_ascii_of_string.
Qed.

Lemma string_of_uint_chars d :
  Forall (fun c => (48 <= c <= 57)%N) (lit (NilEmpty.string_of_uint d)).
Proof.
  induction d; simpl; try constructor; auto; vm_compute; split; discriminate.
Qed.

(** The numeral of an integer: digits, after a minus sign when negative. *)
Lemma str_int_chars z :
  exists c rest, str_int z = c :: rest /\
    (c = 45%N \/ (48 <= c <= 57)%N) /\ Forall (fun c => (48 <= c <= 57)%N) rest.
Proof.
  unfold str_int.
  assert (forall p, exists c rest,
            lit (NilEmpty.string_of_uint (Pos.to_uint p)) = c :: rest /\
            (48 <= c <= 57)%N /\ Forall (fun c => (48 <= c <= 57)%N) rest) as Hpos.
  { intros p. pose proof (string_of_uint_chars (Pos.to_uint p)) as H.
    pose proof (DecimalPos.Unsigned.to_uint_nonnil p) as Hn.
    destruct (Pos.to_uint p); try congruence; simpl in *;
      inversion H; subst; eauto. }
  destruct z as [|p|p].
  - exists 48%N, []. repeat split; auto; lia.
  - destruct (Hpos p) as (c & rest & E & Hc & Hr). exists c, rest.
    split; [|auto]. simpl. unfold NilZero.string_of_uint.
    pose proof (DecimalPos.Unsigned.to_uint_nonnil p).
    destruct (Pos.to_uint p); try congruence; exact E.
  - destruct (Hpos p) as (c & rest & E & Hc & Hr). exists 45%N, (c :: rest).
    split; [|auto]. simpl. unfold NilZero.string_of_uint.
    pose proof (DecimalPos.Unsigned.to_uint_nonnil p).
    destruct (Pos.to_uint p); try congruence; unfold lit in *; simpl in *;
      rewrite E; reflexivity.
Qed.

Lemma read_integer_str_int z : read_integer (str_int z) = Some z.
Proof.
  unfold read_integer.
  assert (forallb (fun c => (c <? 128)%N) (str_int z) = true) as ->.
  { destruct (str_int_chars z) as (c & rest & -> & Hc & Hr).
    apply forallb_forall. intros x [<-|Hx].
    - apply N.ltb_lt. lia.
    - rewrite Forall_forall in Hr. apply list_elem_of_In in Hx.
      apply Hr in Hx. apply N.ltb_lt. lia. }
  unfold str_int. rewrite unlit_lit.
  assert (Z.to_int z <> Pos Nil /\ Z.to_int z <> Neg Nil) as [Hp Hn].
  { destruct z as [|p|p]; simpl; split; try discriminate;
      intros [= H]; exact (DecimalPos.Unsigned.to_uint_nonnil p H). }
  rewrite NilZero.isi by assumption. simpl.
  rewrite DecimalZ.of_to. reflexivity.
Qed.

(** A text that starts with none of the double quote, [T], [N] and [#]
    is read as a float or as an integer. *)
Lemma wire_read_number c body :
  c <> dquote -> c <> 84%N -> c <> 78%N -> c <> 35%N ->
  wire_read (c :: body)
  = if float_repr (c :: body) then Some (PFloat (c :: body))
    else PInt <$> read_integer (c :: body).
Proof.
  intros Hq HT HN Hh. unfold wire_read.
  assert ((c =? dquote)%N = false) as -> by (apply N.eqb_neq; exact Hq).
  rewrite !bool_decide_eq_false_2 by (intros H; vm_compute in H; congruence).
  reflexivity.
Qed.

Lemma float_char_cases c :
  float_char c = true -> (48 <= c <= 57)%N \/ c = 43%N \/ c = 45%N \/ c = 46%N \/ c = 101%N.
Proof.
  unfold float_char, is_digit. cbn [existsb]. intros H.
  repeat (apply orb_true_iff in H as [H|H]); try discriminate H;
    try (apply N.eqb_eq in H; subst; auto 6).
  apply andb_true_iff in H as [H1 H2]. apply N.leb_le in H1, H2. left. lia.
Qed.

(** The three texts that are no numerals, or else characters of
    numerals with a decimal point or an exponent. *)
Lemma float_repr_cases r :
  float_repr r = true ->
  r = lit "inf" \/ r = lit "-inf" \/ r = lit "nan" \/
  (Forall (fun c => float_char c = true) r /\
   exists c body, r = c :: body).
Proof.
  unfold float_repr. intros H.
  repeat (apply orb_true_iff in H as [H|H]);
    try (apply bool_decide_eq_true_1 in H; auto).
  apply andb_true_iff in H as [Hall Hex]. right. right. right. split.
  - apply Forall_forall. intros c Hc. apply list_elem_of_In in Hc.
    exact (proj1 (forallb_forall _ _) Hall c Hc).
  - destruct r as [|c body]; [discriminate Hex|]. eauto.
Qed.

Lemma wire_read_float r : float_repr r = true -> wire_read r = Some (PFloat r).
Proof.
  intros Hr. destruct (float_repr_cases r Hr) as [->|[->|[->|[Hall (c & body & ->)]]]];
    try reflexivity.
  inversion Hall as [|? ? Hc _]; subst.
  rewrite wire_read_number, Hr; [reflexivity| | | |];
    apply float_char_cases in Hc; unfold dquote; lia.
Qed.

Lemma float_repr_str_int z : float_repr (str_int z) = false.
Proof.
  destruct (str_int_chars z) as (c & rest & E & Hc & Hr). rewrite E.
  unfold float_repr.
  rewrite !bool_decide_eq_false_2
    by (intros H; vm_compute in H; injection H as Hc' Hrest; subst;
        first [lia | inversion Hr; lia]).
  cbn [orb]. apply andb_false_iff. right.
  assert (Forall (fun c => (c = 45 \/ 48 <= c <= 57)%N) (c :: rest)) as Hall.
  { constructor; [exact Hc|]. eapply Forall_impl; [exact Hr|]. simpl. auto. }
  clear -Hall. induction Hall as [|x l Hx Hl IH]; [reflexivity|].
  cbn [existsb]. rewrite IH.
  assert ((x =? 46)%N = false) as -> by (apply N.eqb_neq; lia).
  assert ((x =? 101)%N = false) as -> by (apply N.eqb_neq; lia).
  reflexivity.
Qed.

Lemma wire_read_str_int z : wire_read (str_int z) = Some (PInt z).
Proof.
  pose proof (float_repr_str_int z) as Hf. pose proof (read_integer_str_int z) as Hread.
  destruct (str_int_chars z) as (c & rest & E & Hc & Hr). rewrite E in *.
  rewrite wire_read_number, Hf, Hread; [reflexivity| | | |]; unfold dquote; lia.
Qed.

Lemma float_repr_no_space r : float_repr r = true -> Forall (fun c => c <> 32%N) r.
Proof.
  intros Hr. destruct (float_repr_cases r Hr) as [->|[->|[->|[Hall _]]]];
    try (repeat constructor; discriminate).
  eapply Forall_impl; [exact Hall|]. simpl. intros c Hc.
  apply float_char_cases in Hc. lia.
Qed.

Lemma split_space_app a b :
  Forall (fun c => c <> 32%N) a -> split_space (a ++ 32%N :: b) = (a, b).
Proof.
  induction 1 as [|c a Hc Ha IH]; [reflexivity|].
  cbn [app split_space].
  assert ((c =? 32)%N = false) as -> by (apply N.eqb_neq; exact Hc).
  rewrite IH. reflexivity.
Qed.

Lemma wire_read_complex re im :
  float_repr re = true -> float_repr im = true ->
  wire_read (lit "#C(" ++ re ++ lit " " ++ im ++ lit ")") = Some (PComplex re im).
Proof.
  intros Hre Him.
  change (lit "#C(" ++ re ++ lit " " ++ im ++ lit ")")
    with (35%N :: 67%N :: 40%N :: (re ++ 32%N :: (im ++ [41%N]))).
  unfold wire_read. cbn [take drop N.eqb Pos.eqb dquote].
  rewrite !bool_decide_eq_false_2 by discriminate.
  rewrite bool_decide_eq_true_2 by reflexivity.
  cbv iota. unfold read_complex. rewrite drop_0.
  rewrite split_space_app by (apply float_repr_no_space; exact Hre).
  rewrite rev_app_distr. cbn [rev app]. rewrite rev_involutive, Hre, Him. reflexivity.
Qed.

Lemma float_eq_refl r : r <> lit "nan" -> float_eq r r = true.
Proof.
  intros Hr. unfold float_eq.
  rewrite (bool_decide_eq_false_2 _ Hr), (bool_decide_eq_true_2 (r = r) eq_refl). reflexivity.
Qed.

Lemma float_eq_nan a : float_eq a (lit "nan") = false.
Proof.
  unfold float_eq. rewrite (bool_decide_eq_true_2 (lit "nan" = lit "nan") eq_refl).
  destruct (bool_decide (a = lit "nan")); reflexivity.
Qed.

Lemma float_eq_nan_left b : float_eq (lit "nan") b = false.
Proof.
  unfold float_eq. rewrite (bool_decide_eq_true_2 (lit "nan" = lit "nan") eq_refl).
  reflexivity.
Qed.

Lemma py_eq_same_type_refl v :
  primitive v -> nan_free v = true -> py_eq_same_type v v = true.
Proof.
  destruct v; cbn [nan_free py_eq_same_type primitive]; intros Hp H;
    try contradiction; try reflexivity.
  - apply Bool.eqb_reflx.
  - apply Z.eqb_refl.
  - apply negb_true_iff, bool_decide_eq_false_1 in H. apply float_eq_refl, H.
  - apply andb_true_iff in H as [H1 H2].
    apply negb_true_iff, bool_decide_eq_false_1 in H1.
    apply negb_true_iff, bool_decide_eq_false_1 in H2.
    rewrite !float_eq_refl by assumption. reflexivity.
  - apply bool_decide_eq_true_2. reflexivity.
Qed.

Lemma py_eq_same_type_nan w v : nan_free v = false -> py_eq_same_type w v = false.
Proof.
  destruct v; cbn [nan_free]; intros H; try discriminate H.
  - apply negb_false_iff, bool_decide_eq_true_1 in H. subst.
    destruct w; try reflexivity. apply float_eq_nan.
  - destruct w; try reflexivity. cbn [py_eq_same_type].
    apply andb_false_iff in H as [H|H];
      apply negb_false_iff, bool_decide_eq_true_1 in H; subst;
      rewrite float_eq_nan; [reflexivity|apply andb_false_r].
Qed.

Lemma py_str_int_fits z st : int_fits z = true -> py_str_int z st = (Done (str_int z), st).
Proof. intros H. unfold py_str_int. rewrite H. reflexivity. Qed.

Lemma py_str_int_limit z st :
  int_fits z = false -> py_str_int z st = (Raised int_str_limit_error, st).
Proof. intros H. unfold py_str_int. rewrite H. reflexivity. Qed.

(** C4, as stated, fails for three primitive values.  [None] and the
    string [None] are written as the same text (the string literal), so
    no reader can give back both.  The integer [10 ** 4300], which has
    4301 digits, is not written at all: [lispify] raises the
    [ValueError] of [str].  And NaN is written as [nan], but whatever
    a reader makes of that text is not equal to NaN. *)
Lemma primitives_that_do_not_round_trip :
  (~ exists decode : pystr -> PyVal,
       forall v, primitive v ->
         forall text st', lispify v (initial_state ∅ []) = (Done text, st') ->
                          decode text = v) /\
  lispify (PInt (10 ^ 4300)) (initial_state ∅ [])
  = (Raised int_str_limit_error, initial_state ∅ []) /\
  lispify (PFloat (lit "nan")) (initial_state ∅ []) = (Done (lit "nan"), initial_state ∅ []) /\
  (forall decode : pystr -> PyVal,
     py_eq_same_type (decode (lit "nan")) (PFloat (lit "nan")) = false).
Proof.
  split; [|split; [|split]].
  - intros [decode H].
    pose proof (H PNone I _ _ eq_refl) as H1.
    pose proof (H (PStr (lit "None")) I _ _ eq_refl) as H2.
    vm_compute in H1, H2. congruence.
  - cbn [lispify]. change (0 <? return_values (initial_state ∅ [])) with false. cbv iota.
    unfold try_except_KeyError.
    rewrite py_str_int_limit by (vm_compute; reflexivity). reflexivity.
  - reflexivity.
  - intros decode. apply py_eq_same_type_nan. reflexivity.
Qed.

(** C4, amended: while the counter is not positive, the text written
    for a boolean, an integer of at most 4300 digits, a float, a
    complex number or a string reads back as that value, which is
    equal to it unless it is or holds a NaN.  NaN is equal to no value
    at all.  The null value is written as the string literal of
    [None], the text of the string [None], and reads back as that
    string.  An integer of more than 4300 digits is not written:
    [lispify] raises the [ValueError] of [str]. *)
Theorem readable_values_round_trip :
  forall st,
    return_values st <= 0 ->
    (forall v, readable v ->
       exists text w,
         lispify v st = (Done text, st) /\ wire_read text = Some w /\ w = v /\
         (nan_free v = true -> py_eq_same_type w v = true)) /\
    (forall v w, nan_free v = false -> py_eq_same_type w v = false) /\
    (exists text, lispify PNone st = (Done text, st) /\
                  lispify (PStr (lit "None")) st = (Done text, st) /\
                  wire_read text = Some (PStr (lit "None"))) /\
    (forall z, int_fits z = false ->
       lispify (PInt z) st = (Raised int_str_limit_error, st)).
Proof.
  intros st Hrv. assert ((0 <? return_values st) = false) as Hf by (apply Z.ltb_ge; lia).
  split; [|split; [|split]].
  - intros v Hv.
    assert (exists text, lispify v st = (Done text, st) /\ wire_read text = Some v)
      as (text & E & R).
    { destruct v; try contradiction; cbn [lispify readable] in *; rewrite Hf;
        unfold try_except_KeyError.
      + eexists. split; [reflexivity|]. destruct b; reflexivity.
      + rewrite (py_str_int_fits z st Hv). eexists. split; [reflexivity|].
        apply wire_read_str_int.
      + eexists. split; [reflexivity|]. apply wire_read_float. exact Hv.
      + destruct Hv as [Hre Him]. unfold bind, lispify_float, try_except_KeyError, ret.
        rewrite Hf. cbv beta iota. rewrite Hf. eexists. split; [reflexivity|].
        apply wire_read_complex; assumption.
      + eexists. split; [reflexivity|]. unfold lispify_str, wire_read. simpl.
        rewrite read_string_body_escaped. reflexivity. }
    exists text, v. repeat (split; [assumption || reflexivity|]).
    apply py_eq_same_type_refl. destruct v; try contradiction; exact I.
  - intros v w. apply py_eq_same_type_nan.
  - eexists. cbn [lispify]. rewrite Hf. unfold try_except_KeyError, ret.
    split; [reflexivity|]. split; reflexivity.
  - intros z Hz. cbn [lispify]. rewrite Hf. unfold try_except_KeyError.
    rewrite (py_str_int_limit z st Hz). reflexivity.
Qed.

Lemma readable_values_round_trip_witness :
  wire_read ([dquote] ++ lit "a" ++ [backslash; backslash; backslash; dquote] ++ [dquote])
  = Some (PStr (lit "a" ++ [backslash; dquote])) /\
  wire_read (lit "#C(1.5 -2e-05)") = Some (PComplex (lit "1.5") (lit "-2e-05")).
Proof.
  destruct (readable_values_round_trip (initial_state ∅ [])) as [H _];
    [vm_compute; discriminate|].
  split.
  - destruct (H (PStr (lit "a" ++ [backslash; dquote])) I) as (text & w & E & R & -> & _).
    vm_compute in E. injection E as <-. exact R.
  - destruct (H (PComplex (lit "1.5") (lit "-2e-05")) (conj eq_refl eq_refl))
      as (text & w & E & R & -> & _).
    vm_compute in E. injection E as <-. exact R.
Defined.

(** ** The handle table *)

Lemma takes_handle_path_lispify st obj :
  takes_handle_path st obj = true -> lispify obj st = lispify_handle obj st.
Proof.
  unfold takes_handle_path. destruct (0 <? return_values st) eqn:Hrv.
  - destruct obj; cbn [lispify isinstance_Exception negb]; rewrite Hrv;
      try reflexivity; discriminate.
  - destruct obj; try discriminate; cbn [lispify]; rewrite Hrv.
    + destruct t; try discriminate; reflexivity.
    + destruct numeric; [discriminate|]. reflexivity.
Qed.

Lemma handles_from_lower c n : Forall (fun h => (c <= h)%N) (handles_from c n).
Proof.
  revert c. induction n as [|n IH]; intros c; simpl; constructor; [lia|].
  eapply Forall_impl; [apply IH|]. simpl. intros; lia.
Qed.

Lemma handles_from_sorted c n : StronglySorted N.lt (handles_from c n).
Proof.
  revert c. induction n as [|n IH]; intros c; simpl; constructor; [apply IH|].
  eapply Forall_impl; [apply handles_from_lower|]. simpl. intros; lia.
Qed.

Lemma handles_from_NoDup c n : NoDup (handles_from c n).
Proof.
  revert c. induction n as [|n IH]; intros c; simpl; constructor; [|apply IH].
  intros Hin. pose proof (handles_from_lower (c + 1) n) as H.
  rewrite Forall_forall in H. apply H in Hin. lia.
Qed.

Lemma handles_from_lookup c n i h :
  handles_from c n !! i = Some h -> h = (c + N.of_nat i)%N.
Proof.
  revert c i. induction n as [|n IH]; intros c i; simpl; [discriminate|].
  destruct i as [|i]; simpl.
  - intros [= <-]. lia.
  - intros H. apply IH in H. lia.
Qed.

(** A run of calls that all take the handle path. *)
Lemma lispify_each_handle_path objs st :
  Forall (fun obj => takes_handle_path st obj = true) objs ->
  exists st',
    lispify_each lispify objs st
    = (Done (zip_with handle_text objs (handles_from (python_handle st) (length objs))), st')
    /\ marshal_step st st'
    /\ python_handle st' = (python_handle st + N.of_nat (length objs))%N
    /\ forall i obj, objs !! i = Some obj ->
         python_objects st' !! (python_handle st + N.of_nat i)%N = Some obj.
Proof.
  intros H. revert st H. induction objs as [|obj objs IH]; intros st H.
  - exists st. simpl. split; [reflexivity|]. split; [apply marshal_step_refl|].
    split; [lia|]. intros i obj Hi. discriminate Hi.
  - inversion H as [|? ? Hobj Hrest]; subst.
    cbn [lispify_each]. unfold bind at 1.
    rewrite (takes_handle_path_lispify _ _ Hobj).
    pose proof (lispify_handle_step obj st) as S1.
    unfold lispify_handle in *. cbn [snd] in S1.
    set (st1 := set_python_objects _ _) in *.
    destruct (IH st1) as (st' & E & S2 & Hc & Htab).
    { eapply Forall_impl; [exact Hrest|]. intros o Ho.
      unfold takes_handle_path in *. exact Ho. }
    exists st'. unfold bind at 1. rewrite E. unfold ret. cbn [length zip_with handles_from].
    assert (python_handle st1 = (python_handle st + 1)%N) as Hst1 by reflexivity.
    rewrite Hst1 in *.
    split; [reflexivity|]. split; [|split].
    + eauto using marshal_step_trans.
    + lia.
    + intros i o Hi. destruct i as [|i]; simpl in Hi.
      * injection Hi as <-.
        rewrite (ms_old _ _ S2) by (rewrite Hst1; lia).
        replace (python_handle st + N.of_nat 0)%N with (python_handle st) by lia.
        subst st1. simpl. apply lookup_insert_eq.
      * apply Htab in Hi. rewrite <- Hi. f_equal. lia.
Qed.

Lemma marshal_step_below_counter st st' :
  marshal_step st st' -> handles_below_counter st -> handles_below_counter st'.
Proof.
  intros S Hinv h Hh. destruct (decide (h < python_handle st')%N) as [|Hge]; [assumption|].
  rewrite (ms_old _ _ S) in Hh by lia. apply Hinv in Hh.
  pose proof (ms_handle _ _ S). lia.
Qed.

Lemma retired_lispify h obj st : retired h st -> retired h (snd (lispify obj st)).
Proof.
  intros [Hnone Hlt]. destruct (lispify_outcome obj st) as [S _]. split.
  - rewrite (ms_old _ _ S) by lia. exact Hnone.
  - pose proof (ms_handle _ _ S). lia.
Qed.

Lemma retired_release h h' st : retired h st -> retired h (snd (release h' st)).
Proof.
  intros [Hnone Hlt]. unfold release.
  destruct (python_objects st !! h') eqn:E; (split; state_proj; [|exact Hlt]).
  - destruct (decide (h' = h)) as [->|Hne].
    + apply lookup_delete_eq.
    + rewrite lookup_delete_ne by exact Hne. exact Hnone.
  - exact Hnone.
Qed.

Lemma retired_run_handle_ops h ops st :
  retired h st -> retired h (run_handle_ops ops st).
Proof.
  revert st. induction ops as [|[obj|h'|v] ops IH]; intros st H; simpl; auto.
  - apply IH, retired_lispify, H.
  - apply IH, retired_release, H.
Qed.

Lemma release_retires h st :
  handles_below_counter st -> is_Some (python_objects st !! h) ->
  fst (release h st) = Done tt /\ retired h (snd (release h st)).
Proof.
  intros Hinv Hsome. pose proof (Hinv h Hsome) as Hlt.
  unfold release. destruct Hsome as [v ->]. cbn [fst snd]. split; [reflexivity|].
  split; state_proj; [apply lookup_delete_eq|exact Hlt].
Qed.

(** C5: calls of [lispify] that take the handle path, forced by the
    counter or as the fallback, get the successive numbers of the
    counter: the handles are strictly increasing and pairwise distinct,
    each was free before and holds its object afterwards.  Once a
    handle of the table is released, no later history of calls and
    releases brings it back: its entry stays absent and the counter
    stays above it. *)
Theorem handles_increasing_never_reused :
  forall objs st,
    handles_below_counter st ->
    Forall (fun obj => takes_handle_path st obj = true) objs ->
    let handles := handles_from (python_handle st) (length objs) in
    exists st',
      lispify_each lispify objs st = (Done (zip_with handle_text objs handles), st') /\
      StronglySorted N.lt handles /\
      NoDup handles /\
      (forall i h obj, handles !! i = Some h -> objs !! i = Some obj ->
         python_objects st !! h = None /\ python_objects st' !! h = Some obj) /\
      (forall h ops, is_Some (python_objects st' !! h) ->
         fst (release h st') = Done tt /\
         let st'' := run_handle_ops (OpRelease h :: ops) st' in
         python_objects st'' !! h = None /\ (h < python_handle st'')%N).
Proof.
  intros objs st Hinv Hpath handles.
  destruct (lispify_each_handle_path objs st Hpath) as (st' & E & S & Hc & Htab).
  exists st'. split; [exact E|]. split; [apply handles_from_sorted|].
  split; [apply handles_from_NoDup|]. split.
  - intros i h obj Hh Hobj. apply handles_from_lookup in Hh. subst h. split.
    + destruct (python_objects st !! (python_handle st + N.of_nat i)%N) eqn:Hl; [|reflexivity].
      assert (python_handle st + N.of_nat i < python_handle st)%N by (apply Hinv; eauto).
      lia.
    + apply Htab. exact Hobj.
  - intros h ops Hsome.
    pose proof (marshal_step_below_counter _ _ S Hinv) as Hinv'.
    destruct (release_retires h st' Hinv' Hsome) as [Hdone Hret].
    split; [exact Hdone|]. simpl. apply retired_run_handle_ops. exact Hret.
Qed.

Lemma handles_increasing_never_reused_witness :
  exists st',
    lispify_each lispify [PInt 5; PStr (lit "a")]
      (set_return_values 1 (initial_state ∅ []))
    = (Done [handle_text (PInt 5) 0; handle_text (PStr (lit "a")) 1], st').
Proof.
  destruct (handles_increasing_never_reused [PInt 5; PStr (lit "a")]
              (set_return_values 1 (initial_state ∅ []))) as (st' & E & _).
  - intros h [v Hv]. simpl in Hv. rewrite lookup_empty in Hv. discriminate Hv.
  - repeat constructor.
  - exists st'. exact E.
Defined.


(** ** Responses *)

Lemma wire_text_exception e st : wire_text (PException e) st = exc_text e.
Proof.
  unfold wire_text. simpl. destruct (0 <? return_values st); reflexivity.
Qed.

Lemma lispify_exception_state e st : snd (lispify (PException e) st) = st.
Proof. simpl. destruct (0 <? return_values st); reflexivity. Qed.

Lemma lispify_errors value st :
  return_stream_errors (snd (lispify value st)) = return_stream_errors st.
Proof. destruct (lispify_outcome value st) as [S _]. apply (ms_errors _ _ S). Qed.

Lemma lispify_closed value st :
  return_stream_closed (snd (lispify value st)) = return_stream_closed st.
Proof. destruct (lispify_outcome value st) as [S _]. apply (ms_closed _ _ S). Qed.

Lemma return_error_open error st :
  return_stream_closed st = false ->
  encodable (return_stream_errors st) (wire_text error st) = true ->
  return_error error st
  = (Done tt, set_return_stream (return_stream st ++ error_frame (wire_text error st))
                (snd (lispify error st))).
Proof.
  intros Hopen Henc. unfold return_error, bind.
  rewrite stream_write_open by stream_side.
  rewrite send_value_open
    by (state_proj; rewrite ?wire_text_set_return_stream; assumption).
  rewrite wire_text_set_return_stream, lispify_set_return_stream.
  state_proj. unfold error_frame. rewrite <- app_assoc. reflexivity.
Qed.

Lemma return_error_refused error e st :
  return_stream_closed st = false ->
  encode_error (return_stream_errors st) (wire_text error st) = Some e ->
  return_error error st
  = (Raised e,
     set_return_stream
       (return_stream st ++ [Write (lit "e")] ++ length_line (wire_text error st))
       (snd (lispify error st))).
Proof.
  intros Hopen Henc. unfold return_error, bind.
  rewrite stream_write_open by stream_side.
  rewrite (send_value_refused _ e)
    by (state_proj; rewrite ?wire_text_set_return_stream; assumption).
  rewrite wire_text_set_return_stream, lispify_set_return_stream.
  state_proj. rewrite <- app_assoc. reflexivity.
Qed.

Lemma return_value_open value st :
  return_stream_closed st = false ->
  isinstance_Exception value = false ->
  encodable (return_stream_errors st) (wire_text value st) = true ->
  return_value value st
  = (Done tt, set_return_stream (return_stream st ++ return_frame (wire_text value st))
                (snd (lispify value st))).
Proof.
  intros Hopen Hv Henc. unfold return_value. rewrite Hv. unfold bind.
  rewrite stream_write_open by stream_side.
  rewrite stream_flush_open by stream_side.
  rewrite send_value_open
    by (state_proj; rewrite ?wire_text_set_return_stream; assumption).
  rewrite !wire_text_set_return_stream, !lispify_set_return_stream.
  state_proj. unfold return_frame. repeat rewrite <- app_assoc. reflexivity.
Qed.

Lemma return_value_refused value e st :
  return_stream_closed st = false ->
  isinstance_Exception value = false ->
  encode_error (return_stream_errors st) (wire_text value st) = Some e ->
  return_value value st
  = (Raised e,
     set_return_stream
       (return_stream st ++ [Write (lit "r"); Flush] ++ length_line (wire_text value st))
       (snd (lispify value st))).
Proof.
  intros Hopen Hv Henc. unfold return_value. rewrite Hv. unfold bind.
  rewrite stream_write_open by stream_side.
  rewrite stream_flush_open by stream_side.
  rewrite (send_value_refused _ e)
    by (state_proj; rewrite ?wire_text_set_return_stream; assumption).
  rewrite !wire_text_set_return_stream, !lispify_set_return_stream.
  state_proj. repeat rewrite <- app_assoc. reflexivity.
Qed.

Lemma return_exception_open e st :
  return_stream_closed st = false ->
  encodable (return_stream_errors st) (exc_text e) = true ->
  return_value (PException e) st
  = (Done tt, set_return_stream (return_stream st ++ error_frame (exc_text e)) st).
Proof.
  intros Hopen Henc. change (return_value (PException e)) with (return_error (PException e)).
  rewrite return_error_open by (rewrite ?wire_text_exception; assumption).
  rewrite wire_text_exception, lispify_exception_state. reflexivity.
Qed.

Lemma return_exception_refused e err st :
  return_stream_closed st = false ->
  encode_error (return_stream_errors st) (exc_text e) = Some err ->
  return_value (PException e) st
  = (Raised err,
     set_return_stream (return_stream st ++ [Write (lit "e")] ++ length_line (exc_text e)) st).
Proof.
  intros Hopen Henc. change (return_value (PException e)) with (return_error (PException e)).
  rewrite (return_error_refused _ err) by (rewrite ?wire_text_exception; assumption).
  rewrite wire_text_exception, lispify_exception_state. reflexivity.
Qed.

Lemma return_error_closed error st :
  return_stream_closed st = true -> return_error error st = (Raised closed_file_error, st).
Proof.
  intros H. unfold return_error, bind. rewrite stream_write_closed by exact H. reflexivity.
Qed.

Lemma return_value_closed value st :
  return_stream_closed st = true -> return_value value st = (Raised closed_file_error, st).
Proof.
  intros H. unfold return_value. destruct (isinstance_Exception value).
  - apply return_error_closed. exact H.
  - unfold bind. rewrite stream_write_closed by exact H. reflexivity.
Qed.

(** Texts that every stream can encode. *)
Lemma encodable_handle_text h obj n :
  encodable h (type_qualname obj) = true -> encodable h (handle_text obj n) = true.
Proof.
  intros H. unfold handle_text, str_type.
  rewrite !encodable_app, !encodable_lit, encodable_str_int, H. reflexivity.
Qed.

Lemma encodable_wire_text_None h st : encodable h (wire_text PNone st) = true.
Proof.
  unfold wire_text. cbn [lispify]. destruct (0 <? return_values st).
  - apply encodable_handle_text. reflexivity.
  - reflexivity.
Qed.

Lemma encodable_replace_char h old new s :
  encodable h new = true -> encodable h s = true ->
  encodable h (replace_char old new s) = true.
Proof.
  intros Hnew. unfold replace_char. induction s as [|c s IH]; [reflexivity|].
  intros Hs. change (encodable h (c :: s)) with (negb (unencodable h c) && encodable h s) in Hs.
  apply andb_true_iff in Hs as [Hc Hs].
  cbn [flat_map]. rewrite encodable_app, (IH Hs), andb_true_r.
  destruct (c =? old)%N; [exact Hnew|].
  change (encodable h [c]) with (negb (unencodable h c) && true). rewrite Hc. reflexivity.
Qed.

Lemma encodable_lispify_str h s : encodable h s = true -> encodable h (lispify_str s) = true.
Proof.
  intros Hs. unfold lispify_str. rewrite !encodable_app.
  rewrite encodable_replace_char;
    [reflexivity|reflexivity|apply encodable_replace_char; [reflexivity|exact Hs]].
Qed.

Lemma encodable_wire_text_str h s st :
  encodable h s = true -> encodable h (wire_text (PStr s) st) = true.
Proof.
  intros Hs. unfold wire_text. cbn [lispify]. destruct (0 <? return_values st).
  - apply encodable_handle_text. reflexivity.
  - apply encodable_lispify_str. exact Hs.
Qed.


(** What [return_value] and [return_error] can end with: they return or
    raise an [Exception]. *)
Lemma return_error_outcome error st :
  match fst (return_error error st) with Done _ | Raised _ => True | _ => False end.
Proof.
  destruct (return_stream_closed st) eqn:Hc.
  - rewrite return_error_closed by exact Hc. exact I.
  - destruct (encodable (return_stream_errors st) (wire_text error st)) eqn:He.
    + rewrite return_error_open by assumption. exact I.
    + destruct (encode_error_refused _ _ He) as [e Hee].
      rewrite (return_error_refused _ e) by assumption. exact I.
Qed.

Lemma return_value_outcome value st :
  match fst (return_value value st) with Done _ | Raised _ => True | _ => False end.
Proof.
  destruct (isinstance_Exception value) eqn:Hv.
  - unfold return_value. rewrite Hv. apply return_error_outcome.
  - destruct (return_stream_closed st) eqn:Hc.
    + rewrite return_value_closed by exact Hc. exact I.
    + destruct (encodable (return_stream_errors st) (wire_text value st)) eqn:He.
      * rewrite return_value_open by assumption. exact I.
      * destruct (encode_error_refused _ _ He) as [e Hee].
        rewrite (return_value_refused _ e) by assumption. exact I.
Qed.

Lemma bind_assoc {A B C : Type} (m : M A) (f : A -> M B) (g : B -> M C) st :
  bind (bind m f) g st = bind m (fun a => bind (f a) g) st.
Proof. unfold bind. destruct (m st) as [[] ?]; reflexivity. Qed.

(** ** The end of a pass *)

Lemma answer_value v st :
  isinstance_Exception v = false ->
  return_stream_closed st = false ->
  encodable (return_stream_errors st) (wire_text v st) = true ->
  answer (Done v) st
  = (Done Continue,
     set_return_stream (return_stream st ++ return_frame (wire_text v st))
       (snd (lispify v st))).
Proof.
  intros Hv Hopen Henc. unfold answer, bind.
  rewrite return_value_open by assumption. reflexivity.
Qed.

Lemma answer_exception_value e st :
  return_stream_closed st = false ->
  encodable (return_stream_errors st) (exc_text e) = true ->
  answer (Done (PException e)) st
  = (Done Continue, set_return_stream (return_stream st ++ error_frame (exc_text e)) st).
Proof.
  intros Hopen Henc. unfold answer, bind.
  rewrite return_exception_open by assumption. reflexivity.
Qed.

Lemma answer_raised e st :
  return_stream_closed st = false ->
  encodable (return_stream_errors st) (exc_text e) = true ->
  answer (Raised e) st
  = (Done Continue, set_return_stream (return_stream st ++ error_frame (exc_text e)) st).
Proof.
  intros Hopen Henc. unfold answer, bind.
  rewrite return_error_open by (rewrite ?wire_text_exception; assumption).
  rewrite wire_text_exception, lispify_exception_state. reflexivity.
Qed.

Lemma answer_interrupt st :
  return_stream_closed st = false ->
  answer KeyboardInterrupt st
  = (Done Continue,
     set_return_stream (return_stream st ++ return_frame (wire_text PNone st))
       (snd (lispify PNone st))).
Proof.
  intros Hopen. unfold answer, bind.
  rewrite return_value_open
    by (first [exact Hopen | reflexivity | apply encodable_wire_text_None]).
  reflexivity.
Qed.

(** A value whose text the stream cannot encode: the tag [r] and the
    length line are out when the write raises inside the [try]; the
    handler then sends an error frame for the [UnicodeEncodeError]. *)
Lemma answer_value_refused v err st :
  isinstance_Exception v = false ->
  return_stream_closed st = false ->
  encode_error (return_stream_errors st) (wire_text v st) = Some err ->
  answer (Done v) st
  = (Done Continue,
     set_return_stream
       (return_stream st ++ [Write (lit "r"); Flush] ++ length_line (wire_text v st)
        ++ error_frame (exc_text err))
       (snd (lispify v st))).
Proof.
  intros Hv Hopen Henc. unfold answer, bind.
  rewrite (return_value_refused _ err) by assumption.
  rewrite return_error_open.
  - rewrite wire_text_exception, lispify_exception_state. state_proj.
    repeat rewrite <- app_assoc. reflexivity.
  - state_proj. rewrite lispify_closed. exact Hopen.
  - rewrite wire_text_exception. exact (encode_error_text _ _ _ _ Henc).
Qed.

Lemma answer_exception_value_refused e err st :
  return_stream_closed st = false ->
  encode_error (return_stream_errors st) (exc_text e) = Some err ->
  answer (Done (PException e)) st
  = (Done Continue,
     set_return_stream
       (return_stream st ++ [Write (lit "e")] ++ length_line (exc_text e)
        ++ error_frame (exc_text err)) st).
Proof.
  intros Hopen Henc. unfold answer, bind.
  rewrite (return_exception_refused _ err) by assumption.
  rewrite return_error_open.
  - rewrite wire_text_exception, lispify_exception_state. state_proj.
    repeat rewrite <- app_assoc. reflexivity.
  - exact Hopen.
  - rewrite wire_text_exception. exact (encode_error_text _ _ _ _ Henc).
Qed.

(** A raised exception whose text the stream cannot encode: the write
    raises inside the handler, and nothing catches that. *)
Lemma answer_raised_refused e err st :
  return_stream_closed st = false ->
  encode_error (return_stream_errors st) (exc_text e) = Some err ->
  answer (Raised e) st
  = (Raised err,
     set_return_stream (return_stream st ++ [Write (lit "e")] ++ length_line (exc_text e)) st).
Proof.
  intros Hopen Henc. unfold answer, bind.
  rewrite (return_error_refused _ err) by (rewrite ?wire_text_exception; assumption).
  rewrite wire_text_exception, lispify_exception_state. reflexivity.
Qed.

Lemma answer_closed o st :
  settled o -> return_stream_closed st = true ->
  answer o st = (Raised closed_file_error, st).
Proof.
  intros Ho Hc. unfold answer.
  destruct o as [v|e| |code|]; try contradiction; unfold bind;
    rewrite ?return_value_closed by exact Hc;
    rewrite ?return_error_closed by exact Hc; reflexivity.
Qed.

(** A pass never ends with the interrupt. *)
Lemma answer_no_interrupt o st : fst (answer o st) <> KeyboardInterrupt.
Proof.
  unfold answer.
  assert (Hv : forall v s, fst ((return_value v ;;; ret Continue) s) <> KeyboardInterrupt).
  { intros v s. unfold bind. pose proof (return_value_outcome v s) as H.
    destruct (return_value v s) as [[] ?]; try contradiction; discriminate. }
  assert (He : forall v s, fst ((return_error v ;;; ret Continue) s) <> KeyboardInterrupt).
  { intros v s. unfold bind. pose proof (return_error_outcome v s) as H.
    destruct (return_error v s) as [[] ?]; try contradiction; discriminate. }
  destruct o as [v|e| |code|]; try apply Hv; try apply He; try discriminate.
  pose proof (return_value_outcome v st) as H. unfold bind.
  destruct (return_value v st) as [[] s]; try contradiction; cbn [ret].
  - discriminate.
  - apply He.
Qed.

(** ** The dispatch loop *)

Lemma set_stdin_same st : stdin st = [] -> set_stdin [] st = st.
Proof. destruct st. simpl. intros ->. reflexivity. Qed.

Lemma stdin_read_state n st r st1 :
  stdin_read n st = (r, st1) ->
  return_stream st1 = return_stream st /\
  return_stream_closed st1 = return_stream_closed st /\
  return_values st1 = return_values st /\
  return_stream_errors st1 = return_stream_errors st.
Proof.
  unfold stdin_read. destruct (n <? 0); intros [= <- <-]; auto.
Qed.

Lemma stdin_read_one c rest st :
  stdin st = c :: rest -> stdin_read 1 st = (Done [c], set_stdin rest st).
Proof. intros H. unfold stdin_read. simpl. rewrite H. reflexivity. Qed.

Section Dispatch_loop.

Variable py_eval : pystr -> State -> Guest.
Variable py_exec : pystr -> State -> Guest.

Local Abbreviation loop_at fuel := (message_dispatch_loop py_eval py_exec fuel).
Local Abbreviation iteration fuel := (dispatch_iteration py_eval py_exec (loop_at fuel)).
Local Abbreviation work fuel := (command_work py_eval py_exec (loop_at fuel)).

(** The loop runs a pass and does with its result what [after_pass]
    says. *)
Lemma loop_pass fuel st :
  loop_at (S fuel) st = after_pass (loop_at fuel) (iteration fuel st).
Proof. reflexivity. Qed.

(** A pass that ends with [Continue] is followed by the rest of the
    loop. *)
Lemma loop_continue fuel st st' :
  iteration fuel st = (Done Continue, st') ->
  loop_at (S fuel) st = loop_at fuel st'.
Proof. intros H. simpl. rewrite H. reflexivity. Qed.

(** After a pass that ends with [Continue] the loop runs the next pass. *)
Lemma loop_next_pass fuel st st' :
  iteration (S fuel) st = (Done Continue, st') ->
  loop_at (S (S fuel)) st = after_pass (loop_at fuel) (iteration fuel st').
Proof. intros H. rewrite (loop_continue _ _ _ H). apply loop_pass. Qed.

(** The command [q]. *)
Lemma loop_quit fuel st rest :
  stdin st = lit "q" ++ rest -> loop_at (S fuel) st = (SystemExit 0, set_stdin rest st).
Proof.
  intros Hin. cbn [message_dispatch_loop].
  unfold dispatch_iteration, dispatch_body, bind at 1.
  rewrite (stdin_read_one 113%N rest st Hin). reflexivity.
Qed.

Lemma loop_next_quit fuel st st' rest :
  iteration (S fuel) st = (Done Continue, st') ->
  stdin st' = lit "q" ++ rest ->
  loop_at (S (S fuel)) st = (SystemExit 0, set_stdin rest st').
Proof. intros H Hin. rewrite (loop_continue _ _ _ H). apply loop_quit. exact Hin. Qed.

(** The branches for [e] and [x]: the work, then [return_value]. *)
Lemma dispatch_body_e_x fuel cmd st st1 :
  stdin_read 1 st = (Done cmd, st1) ->
  cmd = lit "e" \/ cmd = lit "x" ->
  dispatch_body py_eval py_exec (loop_at fuel) st
  = (v <- work fuel cmd ;; return_value v ;;; ret Continue) st1.
Proof.
  intros Hread Hcmd. unfold dispatch_body, command_work, bind at 1.
  rewrite Hread. destruct Hcmd as [-> | ->].
  - change (bool_decide (lit "e" = lit "e")) with true. cbv iota.
    rewrite !bind_assoc. reflexivity.
  - change (bool_decide (lit "x" = lit "e")) with false.
    change (bool_decide (lit "x" = lit "x")) with true. cbv iota.
    rewrite !bind_assoc. unfold bind. destruct (recv_string st1) as [[] ?]; try reflexivity.
    destruct (exec _ _ _ _) as [[] ?]; reflexivity.
Qed.

(** A pass for [e] or [x]: once the work has ended in [o], the rest is
    [answer o]. *)
Lemma dispatch_iteration_e_x fuel cmd st st1 o st2 :
  stdin_read 1 st = (Done cmd, st1) ->
  cmd = lit "e" \/ cmd = lit "x" ->
  work fuel cmd st1 = (o, st2) ->
  iteration fuel st = answer o st2.
Proof.
  intros Hread Hcmd Hwork. unfold dispatch_iteration.
  rewrite (dispatch_body_e_x fuel cmd st st1 Hread Hcmd).
  unfold bind at 1. rewrite Hwork. unfold answer. destruct o; reflexivity.
Qed.

(** A pass for [r]: the value makes the loop return; an exception or an
    interrupt in the evaluation is answered as in any other pass. *)
Lemma dispatch_iteration_r fuel st st1 o st2 :
  stdin_read 1 st = (Done (lit "r"), st1) ->
  recv_value py_eval (loop_at fuel) st1 = (o, st2) ->
  iteration fuel st
  = match o with
    | Done v => (Done (Return v), st2)
    | _ => answer o st2
    end.
Proof.
  intros Hread Hval. unfold dispatch_iteration, dispatch_body, bind at 1. rewrite Hread.
  change (bool_decide (lit "r" = lit "e")) with false.
  change (bool_decide (lit "r" = lit "x")) with false.
  change (bool_decide (lit "r" = lit "q")) with false.
  change (bool_decide (lit "r" = lit "r")) with true. cbv iota.
  unfold bind at 1. rewrite Hval. destruct o; reflexivity.
Qed.

(** The branch for a command byte that is none of the six. *)
Lemma dispatch_body_unknown fuel cmd st st1 :
  stdin_read 1 st = (Done cmd, st1) ->
  cmd ∉ [lit "e"; lit "x"; lit "q"; lit "r"; lit "O"; lit "o"] ->
  dispatch_body py_eval py_exec (loop_at fuel) st
  = (return_error (PStr (lit "Unknown message type " ++ [dquote] ++ cmd ++ [dquote])) ;;;
     ret Continue) st1.
Proof.
  intros Hread Hcmd. unfold dispatch_body, bind at 1. rewrite Hread.
  rewrite !bool_decide_eq_false_2 by (intros ->; apply Hcmd; set_solver).
  reflexivity.
Qed.

Lemma dispatch_iteration_unknown fuel cmd st st1 :
  stdin_read 1 st = (Done cmd, st1) ->
  cmd ∉ [lit "e"; lit "x"; lit "q"; lit "r"; lit "O"; lit "o"] ->
  return_stream_closed st1 = false ->
  let message := PStr (lit "Unknown message type " ++ [dquote] ++ cmd ++ [dquote]) in
  encodable (return_stream_errors st1) (wire_text message st1) = true ->
  iteration fuel st
  = (Done Continue,
     set_return_stream (return_stream st1 ++ error_frame (wire_text message st1))
       (snd (lispify message st1))).
Proof.
  intros Hread Hcmd Hopen message Henc.
  unfold dispatch_iteration. rewrite (dispatch_body_unknown fuel cmd st st1 Hread Hcmd).
  unfold bind. rewrite return_error_open by assumption. reflexivity.
Qed.

(** The branches for [O] and [o]. *)
Lemma dispatch_iteration_counter fuel cmd st st1 :
  stdin_read 1 st = (Done cmd, st1) ->
  cmd = lit "O" \/ cmd = lit "o" ->
  iteration fuel st
  = (Done Continue,
     set_return_values
       (if bool_decide (cmd = lit "O") then return_values st1 + 1
        else return_values st1 - 1) st1).
Proof.
  intros Hread Hcmd. unfold dispatch_iteration, dispatch_body, bind at 1.
  rewrite Hread. destruct Hcmd as [-> | ->]; reflexivity.
Qed.

(** No pass ends with the interrupt, whatever command it reads. *)
Lemma dispatch_iteration_no_interrupt (loop : M PyVal) st :
  fst (dispatch_iteration py_eval py_exec loop st) <> KeyboardInterrupt.
Proof.
  unfold dispatch_iteration.
  destruct (dispatch_body py_eval py_exec loop st) as [[ctl|e| |code|] st'];
    try discriminate.
  - exact (answer_no_interrupt (Raised e) st').
  - exact (answer_no_interrupt KeyboardInterrupt st').
Qed.

Lemma loop_no_interrupt fuel st : fst (loop_at fuel st) <> KeyboardInterrupt.
Proof.
  revert st. induction fuel as [|fuel IH]; intros st; [discriminate|].
  rewrite loop_pass. pose proof (dispatch_iteration_no_interrupt (loop_at fuel) st) as H.
  destruct (iteration fuel st) as [[[|v]|e| |code|] st']; cbn [after_pass];
    try discriminate; [apply IH|contradiction].
Qed.

(** C8, amended: when evaluating an [e] command or executing an [x]
    command raises an instance of [Exception] whose text [str(err)]
    the return stream can encode, the pass through the loop sends one
    error frame, the tag [e] and the framed text, and changes nothing
    else; the loop then runs the next pass, so that a [q] that
    follows ends it.  A [SystemExit] that comes out of the evaluation
    is not caught: it ends the loop.  An exception whose text the
    stream cannot encode ends the loop too, with the
    [UnicodeEncodeError] of the handler's own write, after the tag and
    the length line. *)
Theorem raised_exception_one_error_frame :
  forall fuel cmd st st1,
    stdin_read 1 st = (Done cmd, st1) ->
    cmd = lit "e" \/ cmd = lit "x" ->
    (forall err st2,
       work (S fuel) cmd st1 = (Raised err, st2) ->
       return_stream_closed st2 = false ->
       encodable (return_stream_errors st2) (exc_text err) = true ->
       let st3 :=
         set_return_stream
           (return_stream st2 ++ [Write (lit "e")] ++ frame (exc_text err)) st2 in
       iteration (S fuel) st = (Done Continue, st3) /\
       loop_at (S (S fuel)) st = after_pass (loop_at fuel) (iteration fuel st3) /\
       (forall rest, stdin st2 = lit "q" ++ rest ->
          loop_at (S (S fuel)) st = (SystemExit 0, set_stdin rest st3))) /\
    (forall code st2,
       work (S fuel) cmd st1 = (SystemExit code, st2) ->
       loop_at (S (S fuel)) st = (SystemExit code, st2)) /\
    (forall err st2 refusal,
       work (S fuel) cmd st1 = (Raised err, st2) ->
       return_stream_closed st2 = false ->
       encode_error (return_stream_errors st2) (exc_text err) = Some refusal ->
       loop_at (S (S fuel)) st
       = (Raised refusal,
          set_return_stream
            (return_stream st2 ++ [Write (lit "e")] ++ length_line (exc_text err)) st2)).
Proof.
  intros fuel cmd st st1 Hread Hcmd. split; [|split].
  - intros err st2 Hwork Hopen Henc st3.
    pose proof (dispatch_iteration_e_x (S fuel) cmd st st1 _ st2 Hread Hcmd Hwork) as H.
    rewrite answer_raised in H by assumption. fold st3 in H.
    split; [exact H|]. split; [apply loop_next_pass; exact H|].
    intros rest Hin. apply (loop_next_quit fuel st st3 rest H). exact Hin.
  - intros code st2 Hwork. rewrite loop_pass.
    rewrite (dispatch_iteration_e_x (S fuel) cmd st st1 _ st2 Hread Hcmd Hwork). reflexivity.
  - intros err st2 refusal Hwork Hopen Henc. rewrite loop_pass.
    rewrite (dispatch_iteration_e_x (S fuel) cmd st st1 _ st2 Hread Hcmd Hwork).
    rewrite (answer_raised_refused _ refusal) by assumption. reflexivity.
Qed.

(** C7: the loop never ends with a [KeyboardInterrupt].  When one is
    raised while an [e] or [x] command is evaluated or executed, or
    while the expression of an [r] command is evaluated, the pass
    through the loop answers as [return_value(None)] does: the tag [r],
    a flush and the framed encoding of [None] (the text of the string
    literal for [None] while the counter is not positive), and reads
    nothing; the loop then runs the next pass, so that a [q] that
    follows ends it. *)
Theorem interrupt_returns_none :
  forall fuel st,
    fst (loop_at fuel st) <> KeyboardInterrupt /\
    forall cmd st1 st2,
      stdin_read 1 st = (Done cmd, st1) ->
      ((cmd = lit "e" \/ cmd = lit "x") /\
       work (S fuel) cmd st1 = (KeyboardInterrupt, st2)) \/
      (cmd = lit "r" /\
       recv_value py_eval (loop_at (S fuel)) st1 = (KeyboardInterrupt, st2)) ->
      return_stream_closed st2 = false ->
      exists text st3,
        fst (lispify PNone st2) = Done text /\
        (return_values st2 <= 0 -> text = [dquote] ++ lit "None" ++ [dquote]) /\
        iteration (S fuel) st = (Done Continue, st3) /\
        return_stream st3 = return_stream st2 ++ [Write (lit "r"); Flush] ++ frame text /\
        stdin st3 = stdin st2 /\
        loop_at (S (S fuel)) st = after_pass (loop_at fuel) (iteration fuel st3) /\
        (forall rest, stdin st2 = lit "q" ++ rest ->
           loop_at (S (S fuel)) st = (SystemExit 0, set_stdin rest st3)).
Proof.
  intros fuel st. split; [apply loop_no_interrupt|].
  intros cmd st1 st2 Hread Hwork Hopen.
  assert (iteration (S fuel) st = answer KeyboardInterrupt st2) as H.
  { destruct Hwork as [[Hcmd Hwork]|[-> Hval]].
    - exact (dispatch_iteration_e_x (S fuel) cmd st st1 _ st2 Hread Hcmd Hwork).
    - exact (dispatch_iteration_r (S fuel) st st1 _ st2 Hread Hval). }
  rewrite answer_interrupt in H by exact Hopen.
  destruct (lispify_outcome PNone st2) as [S _].
  exists (wire_text PNone st2). eexists.
  split; [|split; [|split; [exact H|split; [reflexivity|split; [|split]]]]].
  - unfold wire_text. simpl. destruct (0 <? return_values st2); reflexivity.
  - intros Hrv. unfold wire_text. simpl.
    assert ((0 <? return_values st2) = false) as -> by (apply Z.ltb_ge; lia).
    reflexivity.
  - state_proj. apply (ms_stdin _ _ S).
  - apply loop_next_pass. exact H.
  - intros rest Hin. apply (loop_next_quit fuel st _ rest H).
    state_proj. rewrite (ms_stdin _ _ S). exact Hin.
Qed.

(** C9, amended: when the expression of an [e] command evaluates to an
    exception object [err] whose text [str(err)] the return stream can
    encode, the pass through the loop sends the tag [e] and the framed
    text and no return frame: the same as the handler
    [return_error(err)] does when the evaluation raises [err].  When
    the stream cannot encode the text, the two differ: for the value,
    the write raises inside the [try] and the pass goes on to send a
    second tag [e] with the frame of the [UnicodeEncodeError]; in the
    handler, the write raises out of the loop. *)
Theorem exception_value_sent_as_error :
  forall fuel st st1 err st2,
    stdin_read 1 st = (Done (lit "e"), st1) ->
    work fuel (lit "e") st1 = (Done (PException err), st2) ->
    return_stream_closed st2 = false ->
    (encodable (return_stream_errors st2) (exc_text err) = true ->
     let st3 :=
       set_return_stream
         (return_stream st2 ++ [Write (lit "e")] ++ frame (exc_text err)) st2 in
     iteration fuel st = (Done Continue, st3) /\
     (return_error (PException err) ;;; ret Continue) st2 = (Done Continue, st3)) /\
    (forall refusal,
       encode_error (return_stream_errors st2) (exc_text err) = Some refusal ->
       let st3 :=
         set_return_stream
           (return_stream st2 ++ [Write (lit "e")] ++ length_line (exc_text err)) st2 in
       iteration fuel st
       = (Done Continue,
          set_return_stream
            (return_stream st3 ++ [Write (lit "e")] ++ frame (exc_text refusal)) st3) /\
       (return_error (PException err) ;;; ret Continue) st2 = (Raised refusal, st3)).
Proof.
  intros fuel st st1 err st2 Hread Hwork Hopen.
  pose proof (dispatch_iteration_e_x fuel (lit "e") st st1 _ st2 Hread
                (or_introl eq_refl) Hwork) as H.
  split.
  - intros Henc st3. rewrite answer_exception_value in H by assumption.
    split; [exact H|].
    exact (answer_raised err st2 Hopen Henc).
  - intros refusal Henc st3.
    rewrite (answer_exception_value_refused _ refusal) in H by assumption.
    split.
    + rewrite H. subst st3. state_proj. unfold error_frame.
      repeat rewrite <- app_assoc. reflexivity.
    + exact (answer_raised_refused err refusal st2 Hopen Henc).
Qed.


(** C10: at the end of the input the read of the command byte gives
    the empty string, the pass takes the branch for unknown commands
    and sends an error frame, and the loop goes on: whatever the
    fuel, the loop has not ended and has sent one error frame per
    pass.  While the counter is not positive every frame holds the
    string literal of the message. *)
Theorem end_of_input_never_exits :
  forall fuel st,
    stdin st = [] ->
    return_stream_closed st = false ->
    let message := lit "Unknown message type " ++ [dquote] ++ [] ++ [dquote] in
    iteration fuel st = (return_error (PStr message) ;;; ret Continue) st /\
    exists texts st',
      loop_at fuel st = (OutOfFuel, st') /\
      length texts = fuel /\
      return_stream st' = return_stream st ++ concat (map error_frame texts) /\
      (return_values st <= 0 -> texts = replicate fuel (lispify_str message)).
Proof.
  intros fuel st Hin Hopen message.
  assert (Hread : forall s, stdin s = [] -> stdin_read 1 s = (Done [], s)).
  { intros s Hs. unfold stdin_read. simpl. rewrite Hs. simpl.
    rewrite set_stdin_same by exact Hs. reflexivity. }
  assert (Hunknown : ([] : pystr) ∉ [lit "e"; lit "x"; lit "q"; lit "r"; lit "O"; lit "o"]).
  { intros H. repeat (apply elem_of_cons in H as [H|H]; [discriminate H|]).
    inversion H. }
  assert (Henc : forall s, encodable (return_stream_errors s) (wire_text (PStr message) s) = true).
  { intros s. apply encodable_wire_text_str. reflexivity. }
  split.
  { rewrite (dispatch_iteration_unknown fuel [] st st (Hread st Hin) Hunknown Hopen (Henc st)).
    unfold bind. rewrite return_error_open by (exact Hopen || apply Henc). reflexivity. }
  revert st Hin Hopen. induction fuel as [|fuel IH]; intros st Hin Hopen.
  - exists [], st. simpl. rewrite app_nil_r. auto.
  - pose proof (dispatch_iteration_unknown fuel [] st st (Hread st Hin) Hunknown Hopen (Henc st))
      as Hit.
    cbv zeta in Hit. fold message in Hit.
    destruct (lispify_outcome (PStr message) st) as [S _].
    set (st1 := set_return_stream _ _) in Hit.
    destruct (IH st1) as (texts & st' & Hloop & Hlen & Hout & Htexts).
    { subst st1. state_proj. rewrite (ms_stdin _ _ S). exact Hin. }
    { subst st1. state_proj. rewrite (ms_closed _ _ S). exact Hopen. }
    exists (wire_text (PStr message) st :: texts), st'.
    split; [rewrite (loop_continue fuel st st1 Hit); exact Hloop|].
    split; [simpl; congruence|]. split.
    + rewrite Hout. subst st1. state_proj. simpl map. simpl concat.
      rewrite <- app_assoc. reflexivity.
    + intros Hrv. rewrite Htexts.
      * simpl. f_equal. unfold wire_text. simpl.
        assert ((0 <? return_values st) = false) as -> by (apply Z.ltb_ge; lia).
        reflexivity.
      * subst st1. state_proj. rewrite (ms_return_values _ _ S). exact Hrv.
Qed.

(** ** The callback proxy *)

Lemma callback_request_open handle allargs st :
  return_stream_closed st = false ->
  encodable (return_stream_errors st)
    (wire_text (PTuple [handle; PTuple allargs]) (set_return_values 0 st)) = true ->
  callback_request handle allargs st
  = (Done tt,
     set_return_values (return_values st)
       (set_return_stream
          (return_stream st ++ [Write (lit "c")]
           ++ frame (wire_text (PTuple [handle; PTuple allargs])
                       (set_return_values 0 st)))
          (snd (lispify (PTuple [handle; PTuple allargs]) (set_return_values 0 st))))).
Proof.
  intros Hopen Henc. unfold callback_request, try_finally, assign_return_values, bind.
  cbv beta iota.
  rewrite stream_write_open by stream_side.
  rewrite send_value_open
    by (state_proj; rewrite ?wire_text_set_return_stream; assumption).
  rewrite wire_text_set_return_stream, lispify_set_return_stream.
  state_proj. rewrite <- app_assoc. reflexivity.
Qed.

Lemma callback_request_refused handle allargs e st :
  return_stream_closed st = false ->
  encode_error (return_stream_errors st)
    (wire_text (PTuple [handle; PTuple allargs]) (set_return_values 0 st)) = Some e ->
  callback_request handle allargs st
  = (Raised e,
     set_return_values (return_values st)
       (set_return_stream
          (return_stream st ++ [Write (lit "c")]
           ++ length_line (wire_text (PTuple [handle; PTuple allargs])
                             (set_return_values 0 st)))
          (snd (lispify (PTuple [handle; PTuple allargs]) (set_return_values 0 st))))).
Proof.
  intros Hopen Henc. unfold callback_request, try_finally, assign_return_values, bind.
  cbv beta iota.
  rewrite stream_write_open by stream_side.
  rewrite (send_value_refused _ e)
    by (state_proj; rewrite ?wire_text_set_return_stream; assumption).
  rewrite wire_text_set_return_stream, lispify_set_return_stream.
  state_proj. rewrite <- app_assoc. reflexivity.
Qed.

Lemma callback_request_closed handle allargs st :
  return_stream_closed st = true ->
  callback_request handle allargs st
  = (Raised closed_file_error,
     set_return_values (return_values st) (set_return_values 0 st)).
Proof.
  intros Hclosed. unfold callback_request, try_finally, assign_return_values, bind.
  cbv beta iota.
  rewrite stream_write_closed by exact Hclosed. reflexivity.
Qed.

(** C1, amended: a call of a callback proxy saves the counter, sets it
    to 0 while the call frame (the tag [c] and the encoded pair of
    handle and arguments) is sent, and puts the saved value back as
    soon as the frame is sent, also when sending raises (on a closed
    stream, or for a text the stream cannot encode).  The nested
    dispatch loop that waits for the result starts after that, with
    the saved value of the counter, not with 0. *)
Theorem callback_counter_scope :
  forall (loop : M PyVal) handle args kwargs st,
    let request := PTuple [handle; PTuple (callback_allargs args kwargs)] in
    let text := wire_text request (set_return_values 0 st) in
    exists r st1,
      callback_request handle (callback_allargs args kwargs) st = (r, st1) /\
      return_values st1 = return_values st /\
      (return_stream_closed st = false ->
       encodable (return_stream_errors st) text = true ->
       r = Done tt /\
       return_stream st1 = return_stream st ++ [Write (lit "c")] ++ frame text /\
       LispCallbackObject_call loop handle args kwargs st = loop st1) /\
      (return_stream_closed st = false ->
       forall refusal, encode_error (return_stream_errors st) text = Some refusal ->
       r = Raised refusal /\
       return_stream st1 = return_stream st ++ [Write (lit "c")] ++ length_line text /\
       LispCallbackObject_call loop handle args kwargs st = (Raised refusal, st1)) /\
      (return_stream_closed st = true ->
       r = Raised closed_file_error /\
       LispCallbackObject_call loop handle args kwargs st
       = (Raised closed_file_error, st1)).
Proof.
  intros loop handle args kwargs st request text.
  destruct (return_stream_closed st) eqn:Hclosed.
  - pose proof (callback_request_closed handle (callback_allargs args kwargs) st Hclosed) as E.
    eexists _, _. split; [exact E|]. split; [reflexivity|].
    split; [discriminate|]. split; [discriminate|]. intros _. split; [reflexivity|].
    unfold LispCallbackObject_call, bind. rewrite E. reflexivity.
  - destruct (encodable (return_stream_errors st) text) eqn:Henc.
    + pose proof (callback_request_open handle (callback_allargs args kwargs) st Hclosed Henc)
        as E.
      eexists _, _. split; [exact E|]. split; [reflexivity|].
      split; [|split; [|discriminate]].
      * intros _ _. split; [reflexivity|]. split; [reflexivity|].
        unfold LispCallbackObject_call, bind. rewrite E. reflexivity.
      * intros _ refusal Hr. apply encode_error_unencodable in Hr.
        fold request text in Henc. congruence.
    + destruct (encode_error_refused _ _ Henc) as [e He].
      pose proof (callback_request_refused handle (callback_allargs args kwargs) e st
                    Hclosed He) as E.
      eexists _, _. split; [exact E|]. split; [reflexivity|].
      split; [discriminate|]. split; [|discriminate].
      intros _ refusal Hr. fold request text in He. rewrite He in Hr. injection Hr as <-.
      split; [reflexivity|]. split; [reflexivity|].
      unfold LispCallbackObject_call, bind. rewrite E. reflexivity.
Qed.

End Dispatch_loop.

(** ** Runs on concrete inputs *)

(** C1, as stated, fails.  With the counter at 1, the proxy with
    handle 7 is called and the host sends an unknown byte, the command
    [O] and the result 5.  The nested loop starts with the counter at 1,
    not 0: its answer to the unknown byte is a handle reference, which
    is the forced encoding.  When the call ends the counter is 2, not
    the saved 1. *)
Lemma callback_nested_loop_runs_with_saved_counter :
  let st := set_return_values 1
              (initial_state ∅ (lit "zOr1" ++ [newline] ++ lit "5")) in
  let loop := message_dispatch_loop example_eval example_exec 5 in
  let message := PStr (lit "Unknown message type " ++ [dquote] ++ lit "z" ++ [dquote]) in
  let st_mid := snd (callback_request (PInt 7) (callback_allargs [] []) st) in
  let st_end := snd (loop st_mid) in
  fst (callback_request (PInt 7) (callback_allargs [] []) st) = Done tt /\
  LispCallbackObject_call loop (PInt 7) [] [] st = loop st_mid /\
  return_values st_mid <> 0 /\
  fst (loop st_mid) = Done (PInt 5) /\
  return_stream st_end = return_stream st_mid ++ error_frame (handle_text message 0) /\
  return_values st_end <> return_values st.
Proof.
  intros st loop message st_mid st_end.
  split; [vm_compute; reflexivity|].
  split; [vm_compute; reflexivity|].
  split; [vm_compute; discriminate|].
  split; [vm_compute; reflexivity|].
  split; [vm_compute; reflexivity|].
  vm_compute; discriminate.
Qed.

Lemma callback_counter_scope_witness :
  let st := set_return_values 1 (initial_state ∅ []) in
  let loop : M PyVal := fun s => (Done (PInt (return_values s)), s) in
  exists st', LispCallbackObject_call loop (PInt 7) [PInt 3] [] st = (Done (PInt 1), st') /\
    return_stream st'
    = [Write (lit "c")] ++ frame (lit "(7 (3))").
Proof.
  intros st loop.
  destruct (callback_counter_scope loop (PInt 7) [PInt 3] [] st)
    as (r & st1 & E & Hrv & Hopen & _).
  destruct (Hopen eq_refl eq_refl) as (-> & Hout & Hcall).
  exists st1. rewrite Hcall. unfold loop. rewrite Hrv. split; [reflexivity|].
  rewrite Hout. reflexivity.
Defined.



(** C8, as stated, fails in two ways.  A [SystemExit] raised by the
    statement of an [x] command is an exception of guest code that the
    loop does not catch: no error frame is sent, the loop ends with
    that [SystemExit], and the command that follows is never read.
    And a [ValueError] whose text is the lone surrogate U+D800 is
    caught, but the write of its text raises inside the handler: the
    loop ends with the [UnicodeEncodeError], after the tag [e] and the
    length line. *)
Lemma guest_exceptions_that_leave_the_loop :
  (let st := initial_state ∅ (lit "x" ++ written (frame (lit "raise SystemExit(3)"))
                              ++ lit "x4" ++ [newline] ++ lit "pass") in
   message_dispatch_loop example_eval leaving_exec 5 st
   = (SystemExit 3, set_stdin (lit "x4" ++ [newline] ++ lit "pass") st)) /\
  (let st := initial_state ∅ (lit "x" ++ written (frame (lit "raise ValueError(chr(0xd800))"))
                              ++ lit "x4" ++ [newline] ++ lit "pass") in
   message_dispatch_loop example_eval leaving_exec 5 st
   = (Raised (unicode_encode_error 55296 0 0),
      set_return_stream ([Write (lit "e")] ++ length_line lone_surrogate)
        (set_stdin (lit "x4" ++ [newline] ++ lit "pass") st))).
Proof. split; intros st; vm_compute; reflexivity. Qed.

Lemma raised_exception_one_error_frame_witness :
  let st := initial_state ∅ (lit "e3" ++ [newline] ++ lit "1/0q") in
  message_dispatch_loop example_eval example_exec 2 st
  = (SystemExit 0,
     set_return_stream ([Write (lit "e")] ++ frame (lit "division by zero"))
       (initial_state ∅ [])).
Proof.
  intros st.
  destruct (raised_exception_one_error_frame example_eval example_exec 0 (lit "e") st
              (snd (stdin_read 1 st)) eq_refl (or_introl eq_refl)) as [Hraised _].
  destruct (Hraised
              (mkExc (OtherException (lit "ZeroDivisionError")) (lit "division by zero"))
              (set_stdin (lit "q") st) eq_refl eq_refl eq_refl) as (_ & _ & Hquit).
  rewrite (Hquit [] eq_refl). reflexivity.
Defined.

Lemma interrupt_returns_none_witness :
  let st := initial_state ∅ (lit "x23" ++ [newline] ++ lit "raise KeyboardInterruptq") in
  message_dispatch_loop example_eval example_exec 2 st
  = (SystemExit 0,
     set_return_stream ([Write (lit "r"); Flush] ++ frame ([dquote] ++ lit "None" ++ [dquote]))
       (initial_state ∅ [])).
Proof.
  intros st.
  destruct (interrupt_returns_none example_eval example_exec 0 st) as [_ H].
  destruct (H (lit "x") (snd (stdin_read 1 st)) (set_stdin (lit "q") st) eq_refl
              (or_introl (conj (or_intror eq_refl) eq_refl)) eq_refl)
    as (text & st3 & Ht & Htext & Hit & Hout & Hin & _ & Hquit).
  rewrite (Hquit [] eq_refl).
  assert (st3 = set_return_stream
                  ([Write (lit "r"); Flush] ++ frame ([dquote] ++ lit "None" ++ [dquote]))
                  (set_stdin (lit "q") st)) as ->.
  { vm_compute in Hit. injection Hit as <-. reflexivity. }
  reflexivity.
Defined.

(** C9, as stated, fails: for an exception object whose text is the
    lone surrogate U+D800, the pass sends the tag [e] and the length
    line, the write of the text raises, and the handler sends a second
    tag [e] with the frame of the [UnicodeEncodeError]; this is no
    error frame with the text of the exception.  When the same
    exception is raised instead, the handler's write raises out of the
    loop, so the two cases differ. *)
Lemma exception_value_with_surrogate_is_not_as_raised :
  let st := initial_state ∅ (lit "e" ++ written (frame (lit "ValueError(chr(0xd800))"))) in
  let loop := message_dispatch_loop surrogate_eval leaving_exec 1 in
  let err := mkExc ValueError lone_surrogate in
  let refusal := unicode_encode_error 55296 0 0 in
  let st2 := set_stdin [] st in
  dispatch_iteration surrogate_eval leaving_exec loop st
  = (Done Continue,
     set_return_stream
       ([Write (lit "e")] ++ length_line lone_surrogate
        ++ [Write (lit "e")] ++ frame (exc_text refusal)) st2) /\
  (return_error (PException err) ;;; ret Continue) st2
  = (Raised refusal,
     set_return_stream ([Write (lit "e")] ++ length_line lone_surrogate) st2) /\
  ~ (exists text st3,
       dispatch_iteration surrogate_eval leaving_exec loop st = (Done Continue, st3) /\
       return_stream st3 = [Write (lit "e")] ++ frame text).
Proof.
  intros st loop err refusal st2.
  assert (dispatch_iteration surrogate_eval leaving_exec loop st
          = (Done Continue,
             set_return_stream
               ([Write (lit "e")] ++ length_line lone_surrogate
                ++ [Write (lit "e")] ++ frame (exc_text refusal)) st2)) as E
    by (vm_compute; reflexivity).
  split; [exact E|]. split; [vm_compute; reflexivity|].
  intros (text & st3 & H & Hout). rewrite E in H. injection H as <-.
  vm_compute in Hout. discriminate Hout.
Qed.

Lemma exception_value_sent_as_error_witness :
  let st := initial_state ∅ (lit "e17" ++ [newline] ++ lit "ValueError('bad')") in
  let loop := message_dispatch_loop example_eval example_exec 1 in
  exists st3,
    dispatch_iteration example_eval example_exec loop st = (Done Continue, st3) /\
    return_stream st3 = [Write (lit "e")] ++ frame (lit "bad").
Proof.
  intros st loop.
  destruct (exception_value_sent_as_error example_eval example_exec 1 st
              (snd (stdin_read 1 st)) (mkExc ValueError (lit "bad"))
              (snd (command_work example_eval example_exec loop (lit "e")
                      (snd (stdin_read 1 st))))
              eq_refl eq_refl eq_refl) as [Hsame _].
  destruct (Hsame eq_refl) as [Hit _].
  eexists. split; [exact Hit|]. reflexivity.
Defined.

Lemma end_of_input_never_exits_witness :
  exists st',
    message_dispatch_loop example_eval example_exec 3 (initial_state ∅ [])
    = (OutOfFuel, st') /\
    return_stream st'
    = concat (replicate 3 (error_frame
                (lispify_str (lit "Unknown message type " ++ [dquote; dquote])))).
Proof.
  destruct (end_of_input_never_exits example_eval example_exec 3 (initial_state ∅ [])
              eq_refl eq_refl) as (_ & texts & st' & Hloop & _ & Hout & Htexts).
  exists st'. split; [exact Hloop|]. rewrite Hout, Htexts; [reflexivity|].
  vm_compute. discriminate.
Defined.

(** * More of the module *)

(** ** What the marshaller does to the state *)

(** X1: [lispify] never reads input, never writes to the return stream
    and never changes the counter [return_values]; it ends with a text
    or an exception.  All it does to the state is take numbers from the
    handle counter, which never goes down, and when every handle of the
    table is below the counter, it keeps every entry of the table. *)
Theorem lispify_only_allocates_handles :
  forall obj st,
    let st' := snd (lispify obj st) in
    ((exists text, fst (lispify obj st) = Done text) \/
     (exists e, fst (lispify obj st) = Raised e)) /\
    return_values st' = return_values st /\
    stdin st' = stdin st /\
    return_stream st' = return_stream st /\
    return_stream_closed st' = return_stream_closed st /\
    (python_handle st <= python_handle st')%N /\
    (handles_below_counter st ->
     handles_below_counter st' /\
     forall h v, python_objects st !! h = Some v -> python_objects st' !! h = Some v).
Proof.
  intros obj st st'. destruct (lispify_outcome obj st) as [S Hr]. fold st' in S.
  split; [exact Hr|]. destruct S. repeat (split; [assumption|]).
  intros Hinv. split.
  - eapply marshal_step_below_counter; [|exact Hinv]. split; assumption.
  - intros h v Hh. rewrite ms_old0; [exact Hh|]. left. apply Hinv. eauto.
Qed.

Lemma lispify_only_allocates_handles_witness :
  let st := initial_state ∅ [] in
  let obj := PList [PObject (lit "pkg.Thing") false (lit "thing"); PInt 1] in
  return_stream (snd (lispify obj st)) = [] /\
  handles_below_counter (snd (lispify obj st)).
Proof.
  intros st obj.
  destruct (lispify_only_allocates_handles obj st) as (_ & _ & _ & Hout & _ & _ & Hinv).
  split; [rewrite Hout; reflexivity|].
  apply Hinv. intros h [v Hv]. simpl in Hv. rewrite lookup_empty in Hv. discriminate Hv.
Defined.

(** ** Which exceptions the marshaller lets out *)


















(** ** Data that is sent by value *)







(** ** A counter below zero *)

Lemma counter_blind_ret {A : Type} (a : A) : counter_blind (ret a).
Proof. intros st v _ _. reflexivity. Qed.

Lemma counter_blind_raise {A : Type} (e : PyExc) : counter_blind (@raise A e).
Proof. intros st v _ _. reflexivity. Qed.

Lemma counter_blind_lispify_handle obj : counter_blind (lispify_handle obj).
Proof. intros st v _ _. reflexivity. Qed.

Lemma counter_blind_bind {A B : Type} (m : M A) (f : A -> M B) :
  marshals m -> counter_blind m -> (forall a, counter_blind (f a)) ->
  counter_blind (bind m f).
Proof.
  intros Hm Hb Hf st v Hrv Hv. unfold bind. rewrite (Hb st v Hrv Hv).
  destruct (Hm st) as (r & st1 & E & S & _ & _). rewrite E. cbn [fst snd].
  destruct r; try reflexivity.
  apply Hf; [|exact Hv]. rewrite (ms_return_values _ _ S). exact Hrv.
Qed.

Lemma counter_blind_try_except_KeyError {A : Type} (body handler : M A) :
  marshals body -> counter_blind body -> counter_blind handler ->
  counter_blind (try_except_KeyError body handler).
Proof.
  intros Hm Hb Hh st v Hrv Hv. unfold try_except_KeyError. rewrite (Hb st v Hrv Hv).
  destruct (Hm st) as (r & st1 & E & S & _ & _). rewrite E. cbn [fst snd].
  destruct r; try reflexivity. destruct (is_KeyError e); [|reflexivity].
  apply Hh; [|exact Hv]. rewrite (ms_return_values _ _ S). exact Hrv.
Qed.

Lemma counter_blind_if_forced {A : Type} (forced normal : M A) :
  counter_blind normal ->
  counter_blind (fun st => if 0 <? return_values st then forced st else normal st).
Proof.
  intros Hn st v Hrv Hv. state_proj.
  assert ((0 <? v) = false) as -> by (apply Z.ltb_ge; exact Hv).
  assert ((0 <? return_values st) = false) as -> by (apply Z.ltb_ge; exact Hrv).
  apply Hn; assumption.
Qed.

Lemma counter_blind_lispify_float r : counter_blind (lispify_float r).
Proof.
  apply (counter_blind_if_forced (lispify_handle (PFloat r))
           (try_except_KeyError (ret r) (ret r))).
  apply counter_blind_try_except_KeyError;
    auto using marshals_ret, counter_blind_ret.
Qed.

Lemma counter_blind_py_str_int z : counter_blind (py_str_int z).
Proof.
  unfold py_str_int. destruct (int_fits z);
    [apply counter_blind_ret|apply counter_blind_raise].
Qed.

Lemma counter_blind_str_Fraction n d : counter_blind (str_Fraction n d).
Proof.
  unfold str_Fraction. destruct (d =? 1); [apply counter_blind_py_str_int|].
  apply counter_blind_bind;
    [apply marshals_py_str_int|apply counter_blind_py_str_int|intros ?].
  apply counter_blind_bind;
    [apply marshals_py_str_int|apply counter_blind_py_str_int|intros ?].
  apply counter_blind_ret.
Qed.

Lemma counter_blind_str_Number obj : counter_blind (str_Number obj).
Proof.
  destruct obj; simpl;
    auto using counter_blind_ret, counter_blind_py_str_int, counter_blind_str_Fraction.
Qed.

Lemma counter_blind_lispify_fallback obj : counter_blind (lispify_fallback obj).
Proof.
  unfold lispify_fallback. destruct (isinstance_Number obj).
  - apply counter_blind_str_Number.
  - apply counter_blind_lispify_handle.
Qed.

Lemma counter_blind_lispify_each (f : PyVal -> M pystr) elts :
  Forall (fun v => marshals (f v) /\ counter_blind (f v)) elts ->
  marshals (lispify_each f elts) /\ counter_blind (lispify_each f elts).
Proof.
  intros H. split.
  - apply marshals_lispify_each. eapply Forall_impl; [exact H|]. intros v [Hm _]. exact Hm.
  - induction H as [|x l [Hm Hb] Hl IH]; simpl.
    + apply counter_blind_ret.
    + apply counter_blind_bind; [exact Hm|exact Hb|]. intros p.
      apply counter_blind_bind; [|exact IH|intros ps; apply counter_blind_ret].
      apply marshals_lispify_each. eapply Forall_impl; [exact Hl|]. intros v [Hv _]. exact Hv.
Qed.

Lemma counter_blind_lispify_items (f : PyVal -> M pystr) items :
  Forall (fun kv => (marshals (f (fst kv)) /\ counter_blind (f (fst kv))) /\
                    (marshals (f (snd kv)) /\ counter_blind (f (snd kv)))) items ->
  marshals (lispify_items f items) /\ counter_blind (lispify_items f items).
Proof.
  intros H.
  assert (Hms : forall l,
             Forall (fun kv => (marshals (f (fst kv)) /\ counter_blind (f (fst kv))) /\
                               (marshals (f (snd kv)) /\ counter_blind (f (snd kv)))) l ->
             marshals (lispify_items f l)).
  { intros l Hl. apply marshals_lispify_items. eapply Forall_impl; [exact Hl|].
    intros kv [[? _] [? _]]. split; assumption. }
  split; [apply Hms; exact H|].
  induction H as [|[k v] l [[Hmk Hbk] [Hmv Hbv]] Hl IH]; simpl in *.
  - apply counter_blind_ret.
  - apply counter_blind_bind; [exact Hmk|exact Hbk|]. intros a.
    apply counter_blind_bind; [exact Hmv|exact Hbv|]. intros b.
    apply counter_blind_bind; [apply Hms; exact Hl|exact IH|].
    intros ps. apply counter_blind_ret.
Qed.

Lemma counter_blind_lispify obj : counter_blind (lispify obj).
Proof.
  induction obj as [v Hv|elts IH|elts IH|items IH] using PyVal_nested_ind.
  - destruct v; try discriminate Hv; cbn [lispify];
      apply counter_blind_if_forced;
      (apply counter_blind_try_except_KeyError;
       [ | | apply counter_blind_lispify_fallback ]);
      auto using marshals_ret, marshals_raise, counter_blind_ret, counter_blind_raise,
        marshals_str_Symbol, marshals_py_str_int, counter_blind_py_str_int,
        marshals_str_Fraction, counter_blind_str_Fraction.
    + repeat (apply marshals_bind; [apply marshals_lispify_float|intros ?]).
      apply marshals_ret.
    + apply counter_blind_bind;
        [apply marshals_lispify_float|apply counter_blind_lispify_float|intros ?].
      apply counter_blind_bind;
        [apply marshals_lispify_float|apply counter_blind_lispify_float|intros ?].
      apply counter_blind_ret.
    + destruct t; cbn [python_to_lisp_type]; auto using marshals_ret, marshals_raise.
    + destruct t; cbn [python_to_lisp_type];
        auto using counter_blind_ret, counter_blind_raise.
    + destruct v; simpl; auto using counter_blind_ret, counter_blind_raise.
    + apply marshals_bind; [apply marshals_py_str_int|intros ?]. apply marshals_ret.
    + apply counter_blind_bind;
        [apply marshals_py_str_int|apply counter_blind_py_str_int|intros ?].
      apply counter_blind_ret.
  - destruct (counter_blind_lispify_each lispify elts) as [Hm Hb].
    { eapply Forall_impl; [exact IH|]. intros v Hv. split; [apply marshals_lispify|exact Hv]. }
    cbn [lispify]. apply counter_blind_if_forced.
    apply counter_blind_try_except_KeyError; [| |apply counter_blind_lispify_fallback].
    + apply marshals_bind; [exact Hm|intros ?; apply marshals_ret].
    + apply counter_blind_bind; [exact Hm|exact Hb|intros ?; apply counter_blind_ret].
  - destruct (counter_blind_lispify_each lispify elts) as [Hm Hb].
    { eapply Forall_impl; [exact IH|]. intros v Hv. split; [apply marshals_lispify|exact Hv]. }
    cbn [lispify]. apply counter_blind_if_forced.
    apply counter_blind_try_except_KeyError; [| |apply counter_blind_lispify_fallback];
      destruct elts as [|x l]; auto using marshals_ret, counter_blind_ret.
    + apply marshals_bind; [exact Hm|intros ?; apply marshals_ret].
    + apply counter_blind_bind; [exact Hm|exact Hb|intros ?; apply counter_blind_ret].
  - destruct (counter_blind_lispify_items lispify items) as [Hm Hb].
    { eapply Forall_impl; [exact IH|]. intros kv [H1 H2].
      split; (split; [apply marshals_lispify|assumption]). }
    cbn [lispify]. apply counter_blind_if_forced.
    apply counter_blind_try_except_KeyError; [| |apply counter_blind_lispify_fallback].
    + apply marshals_bind; [exact Hm|intros ?; apply marshals_ret].
    + apply counter_blind_bind; [exact Hm|exact Hb|intros ?; apply counter_blind_ret].
Qed.

(** X4: [lispify] looks at the counter only to tell whether it is
    positive.  Under any two counters that are not positive (0, or
    below 0 after more [o] than [O] commands) it returns the same
    outcome and makes the same changes to the state. *)
Theorem lispify_same_below_zero :
  forall obj st v,
    return_values st <= 0 -> v <= 0 ->
    lispify obj (set_return_values v st)
    = (fst (lispify obj st), set_return_values v (snd (lispify obj st))).
Proof. intros obj st v. apply counter_blind_lispify. Qed.

Lemma lispify_same_below_zero_witness :
  fst (lispify (PList [PInt 1; PObject (lit "T") false []])
         (set_return_values (-3) (initial_state ∅ [])))
  = fst (lispify (PList [PInt 1; PObject (lit "T") false []]) (initial_state ∅ [])).
Proof.
  rewrite (lispify_same_below_zero (PList [PInt 1; PObject (lit "T") false []])
             (initial_state ∅ []) (-3)); [reflexivity| |]; vm_compute; discriminate.
Defined.

(** ** Handle references *)

Lemma str_int_inj a b : str_int a = str_int b -> a = b.
Proof.
  intros H. pose proof (read_integer_str_int a) as Ha.
  rewrite H, read_integer_str_int in Ha. congruence.
Qed.

(** X5: the text of a handle reference determines the handle: two
    references to objects of the same class with the same text carry
    the same number. *)
Theorem handle_text_determines_handle :
  forall obj1 obj2 h1 h2,
    str_type obj1 = str_type obj2 ->
    handle_text obj1 h1 = handle_text obj2 h2 ->
    h1 = h2.
Proof.
  intros obj1 obj2 h1 h2 Ht H. unfold handle_text in H. rewrite Ht in H.
  repeat apply app_inv_head in H. apply app_inv_tail in H.
  apply str_int_inj in H. lia.
Qed.

Lemma handle_text_determines_handle_witness :
  handle_text (PInt 1) 3 <> handle_text (PInt 2) 4.
Proof.
  intros H. apply (handle_text_determines_handle (PInt 1) (PInt 2) 3 4 eq_refl) in H.
  discriminate H.
Defined.

(** X6: in a list that is encoded while the counter is not positive,
    the elements without lispifier get handles in element order: the
    text is the vector of their references with the successive numbers
    of the counter, and each object is stored under its number. *)
Theorem list_elements_get_successive_handles :
  forall objs st,
    return_values st <= 0 ->
    Forall (fun obj => takes_handle_path st obj = true) objs ->
    exists st',
      lispify (PList objs) st
      = (Done (lit "#("
               ++ join (lit " ")
                    (zip_with handle_text objs
                       (handles_from (python_handle st) (length objs)))
               ++ lit ")"), st') /\
      python_handle st' = (python_handle st + N.of_nat (length objs))%N /\
      forall i obj, objs !! i = Some obj ->
        python_objects st' !! (python_handle st + N.of_nat i)%N = Some obj.
Proof.
  intros objs st Hrv Hpath.
  destruct (lispify_each_handle_path objs st Hpath) as (st' & E & _ & Hc & Htab).
  exists st'. split; [|split; assumption].
  cbn [lispify].
  assert ((0 <? return_values st) = false) as -> by (apply Z.ltb_ge; exact Hrv).
  unfold try_except_KeyError, bind. rewrite E. reflexivity.
Qed.

Lemma list_elements_get_successive_handles_witness :
  let a := PObject (lit "pkg.A") false [] in
  let b := PTypeObj (T_class (lit "tuple")) in
  exists st',
    lispify (PList [a; b]) (initial_state ∅ [])
    = (Done (lit "#(" ++ handle_text a 0 ++ lit " " ++ handle_text b 1 ++ lit ")"), st').
Proof.
  intros a b.
  destruct (list_elements_get_successive_handles [a; b] (initial_state ∅ []))
    as (st' & E & _).
  - vm_compute. discriminate.
  - repeat constructor.
  - exists st'. rewrite E. reflexivity.
Defined.


(** ** Reading frames *)

Lemma split_line_app line rest :
  newline ∉ line -> split_line (line ++ newline :: rest) = (line ++ [newline], rest).
Proof.
  induction line as [|c line IH]; intros Hn; simpl.
  - reflexivity.
  - assert ((c =? newline)%N = false) as ->
      by (apply N.eqb_neq; intros ->; apply Hn; left).
    rewrite IH; [reflexivity|]. intros H. apply Hn. right. exact H.
Qed.

Lemma split_line_concat s :
  fst (split_line s) ++ snd (split_line s) = s.
Proof.
  induction s as [|c s IH]; simpl; [reflexivity|].
  destruct (c =? newline)%N; [reflexivity|].
  destruct (split_line s) as [line tail]. simpl in *. rewrite IH. reflexivity.
Qed.

Lemma lstrip_id s :
  match s with [] => True | c :: _ => is_space c = false end -> lstrip s = s.
Proof. destruct s as [|c s]; simpl; [reflexivity|]. intros ->. reflexivity. Qed.

Lemma strip_line s :
  s <> [] -> Forall (fun c => is_space c = false) s -> strip (s ++ [newline]) = s.
Proof.
  intros Hne Hall. unfold strip.
  destruct s as [|c s]; [contradiction|].
  inversion Hall as [|? ? Hc Hs]; subst.
  change ((c :: s) ++ [newline]) with (c :: (s ++ [newline])).
  cbn [lstrip]. rewrite Hc.
  change (c :: (s ++ [newline])) with ((c :: s) ++ [newline]).
  rewrite rev_app_distr.
  change (rev [newline] ++ rev (c :: s)) with (newline :: rev (c :: s)).
  cbn [lstrip]. change (is_space newline) with true. cbv iota.
  rewrite lstrip_id, rev_involutive; [reflexivity|].
  assert (Forall (fun c => is_space c = false) (rev (c :: s))) as Hrev
    by (apply Forall_rev; exact Hall).
  destruct (rev (c :: s)) as [|d r] eqn:Er; [exact I|].
  inversion Hrev; assumption.
Qed.

Lemma digits_value_uint_acc d acc :
  digits_value (Z.pos acc) (lit (NilEmpty.string_of_uint d))
  = Some (Z.pos (Pos.of_uint_acc d acc)).
Proof.
  revert acc. induction d; intros acc; cbn [NilEmpty.string_of_uint Pos.of_uint_acc];
    try reflexivity;
    change (lit (String ?a ?s)) with (N_of_ascii a :: lit s);
    cbn [digits_value N_of_ascii];
    match goal with
    | |- context [digits_value ?z _] =>
        match goal with
        | |- _ = Some (Z.pos (Pos.of_uint_acc _ ?p)) =>
            replace z with (Z.pos p) by (vm_compute N.sub; lia)
        end
    end; apply IHd.
Qed.

Lemma digits_value_uint d :
  digits_value 0 (lit (NilEmpty.string_of_uint d)) = Some (Z.of_N (Pos.of_uint d)).
Proof.
  induction d; cbn [NilEmpty.string_of_uint Pos.of_uint];
    try reflexivity;
    change (lit (String ?a ?s)) with (N_of_ascii a :: lit s);
    cbn [digits_value N_of_ascii];
    first [ exact IHd | apply (digits_value_uint_acc d) ].
Qed.

Lemma str_int_no_space z : Forall (fun c => is_space c = false) (str_int z).
Proof.
  destruct (str_int_chars z) as (c & rest & -> & Hc & Hr).
  assert (forall x, (x = 45 \/ 48 <= x <= 57)%N -> is_space x = false) as Hs.
  { intros x Hx. unfold is_space.
    apply orb_false_iff. split; [apply N.eqb_neq; lia|].
    apply andb_false_iff. right. apply N.leb_gt. lia. }
  constructor; [apply Hs; exact Hc|].
  eapply Forall_impl; [exact Hr|]. intros x Hx. apply Hs. right. exact Hx.
Qed.

Lemma str_int_no_newline z : newline ∉ str_int z.
Proof.
  intros Hin. pose proof (str_int_no_space z) as H.
  rewrite Forall_forall in H. apply H in Hin. discriminate Hin.
Qed.

Lemma int_transform_below s :
  Forall (fun c => (c < 127)%N) s -> map int_transform_char s = s.
Proof.
  induction 1 as [|c s Hc Hs IH]; [reflexivity|]. cbn [map]. rewrite IH.
  unfold int_transform_char. apply N.ltb_lt in Hc. rewrite Hc. reflexivity.
Qed.

Lemma str_int_line_below z : Forall (fun c => (c < 127)%N) (str_int z ++ [newline]).
Proof.
  destruct (str_int_chars z) as (c & rest & -> & Hc & Hr).
  apply Forall_app. split.
  - constructor; [lia|]. eapply Forall_impl; [exact Hr|]. simpl. intros; lia.
  - repeat constructor.
Qed.

Lemma parse_int_str_int z : parse_int (str_int z ++ [newline]) = Some z.
Proof.
  unfold parse_int. rewrite int_transform_below by apply str_int_line_below.
  rewrite strip_line.
  2:{ destruct (str_int_chars z) as (c & rest & -> & _). discriminate. }
  2:{ apply str_int_no_space. }
  destruct z as [|p|p].
  - reflexivity.
  - unfold str_int. cbn [Z.to_int NilZero.string_of_int NilZero.string_of_uint].
    pose proof (DecimalPos.Unsigned.to_uint_nonnil p) as Hn.
    pose proof (digits_value_uint (Pos.to_uint p)) as Hd.
    rewrite DecimalPos.Unsigned.of_to in Hd.
    destruct (Pos.to_uint p) as [|d|d|d|d|d|d|d|d|d|d]; try congruence;
      cbn [NilEmpty.string_of_uint] in *;
      change (lit (String ?a ?s)) with (N_of_ascii a :: lit s) in *;
      cbn [N_of_ascii] in *; exact Hd.
  - unfold str_int. cbn [Z.to_int NilZero.string_of_int NilZero.string_of_uint].
    pose proof (DecimalPos.Unsigned.to_uint_nonnil p) as Hn.
    pose proof (digits_value_uint (Pos.to_uint p)) as Hd.
    rewrite DecimalPos.Unsigned.of_to in Hd.
    change (Z.of_N (N.pos p)) with (Z.pos p) in Hd.
    change (Some (Z.neg p)) with (Z.opp <$> Some (Z.pos p)). rewrite <- Hd.
    destruct (Pos.to_uint p) as [|d|d|d|d|d|d|d|d|d|d]; try congruence; reflexivity.
Qed.

Lemma written_frame text : written (frame text) = str_int (len text) ++ newline :: text.
Proof. unfold frame, frame_declaring. simpl. rewrite app_nil_r. reflexivity. Qed.

Lemma recv_string_frame :
  forall text rest st,
    stdin st = written (frame text) ++ rest ->
    recv_string st = (Done text, set_stdin rest st).
Proof.
  intros text rest st Hin. rewrite written_frame in Hin.
  rewrite <- app_assoc in Hin. cbn [app] in Hin.
  unfold recv_string, bind, stdin_readline. rewrite Hin.
  rewrite split_line_app by apply str_int_no_newline.
  unfold py_int. rewrite parse_int_str_int. unfold ret, stdin_read. state_proj.
  assert ((len text <? 0) = false) as -> by (apply Z.ltb_ge; unfold len; lia).
  unfold len. rewrite Nat2Z.id, take_app_length, drop_app_length. reflexivity.
Qed.

(** X7: [recv_string] reads back a frame in the format [send_value]
    writes: when the input starts with the characters of the frame of
    [text], it returns [text] and leaves exactly what follows the
    frame. *)
Theorem recv_string_reads_frame :
  forall text rest st,
    stdin st = written (frame text) ++ rest ->
    recv_string st = (Done text, set_stdin rest st).
Proof. exact recv_string_frame. Qed.

Lemma recv_string_reads_frame_witness :
  recv_string (initial_state ∅ (lit "5" ++ [newline] ++ lit "helloe3"))
  = (Done (lit "hello"), initial_state ∅ (lit "e3")).
Proof.
  apply (recv_string_reads_frame (lit "hello") (lit "e3")
           (initial_state ∅ (lit "5" ++ [newline] ++ lit "helloe3"))).
  reflexivity.
Defined.

Lemma recv_string_cases st :
  let line := fst (split_line (stdin st)) in
  let tail := snd (split_line (stdin st)) in
  match parse_int line with
  | Some n =>
      recv_string st
      = if n <? 0 then (Done tail, set_stdin [] st)
        else (Done (take (Z.to_nat n) tail), set_stdin (drop (Z.to_nat n) tail) st)
  | None =>
      exists e, exc_class e = ValueError /\ recv_string st = (Raised e, set_stdin tail st)
  end.
Proof.
  intros line tail. unfold recv_string, bind, stdin_readline, py_int.
  subst line tail. destruct (split_line (stdin st)) as [line tail]. cbn [fst snd].
  destruct (parse_int line) as [n|].
  - unfold ret, stdin_read. state_proj. destruct (n <? 0); reflexivity.
  - eexists. split; [|reflexivity]. reflexivity.
Qed.

(** X8: what [recv_string] takes from the input when it returns: the
    length line and the returned text, in this order and nothing else.
    The text has at most the declared number of characters; it is
    shorter only when the input ended, and for a negative declared
    length it is all the input that was left. *)
Theorem recv_string_consumes_line_and_text :
  forall st s st',
    recv_string st = (Done s, st') ->
    exists line n,
      parse_int line = Some n /\
      stdin st = line ++ s ++ stdin st' /\
      st' = set_stdin (stdin st') st /\
      (0 <= n -> len s <= n /\ (len s < n -> stdin st' = [])) /\
      (n < 0 -> stdin st' = []).
Proof.
  intros st s st' E. pose proof (recv_string_cases st) as H. cbv zeta in H.
  pose proof (split_line_concat (stdin st)) as Hcat.
  destruct (split_line (stdin st)) as [line tail]. cbn [fst snd] in *.
  destruct (parse_int line) as [n|] eqn:Hn.
  - exists line, n. split; [exact Hn|]. rewrite E in H.
    destruct (n <? 0) eqn:Hneg; injection H as -> ->; state_proj.
    + apply Z.ltb_lt in Hneg. rewrite app_nil_r.
      split; [auto|]. split; [reflexivity|]. split; [lia|]. reflexivity.
    + apply Z.ltb_ge in Hneg. rewrite take_drop.
      split; [auto|]. split; [reflexivity|]. split; [|lia]. intros _.
      unfold len. rewrite length_take. split; [lia|].
      intros Hshort. apply drop_ge. lia.
  - destruct H as (e & _ & H). rewrite E in H. discriminate H.
Qed.

Lemma recv_string_consumes_line_and_text_witness :
  let st := initial_state ∅ (lit "9" ++ [newline] ++ lit "abc") in
  exists line n,
    parse_int line = Some n /\
    stdin st = line ++ lit "abc" ++ stdin (snd (recv_string st)) /\
    (0 <= n -> len (lit "abc") <= n).
Proof.
  intros st.
  destruct (recv_string_consumes_line_and_text st (lit "abc") (snd (recv_string st)) eq_refl)
    as (line & n & Hn & Hin & _ & Hlen & _).
  exists line, n. split; [exact Hn|]. split; [exact Hin|].
  intros H. apply Hlen. exact H.
Defined.




(** ** More about the dispatch loop *)

Section Dispatch_loop_commands.

Variable py_eval : pystr -> State -> Guest.
Variable py_exec : pystr -> State -> Guest.

Local Abbreviation loop_at fuel := (message_dispatch_loop py_eval py_exec fuel).
Local Abbreviation iteration fuel := (dispatch_iteration py_eval py_exec (loop_at fuel)).
Local Abbreviation work fuel := (command_work py_eval py_exec (loop_at fuel)).


Lemma loop_return fuel st st1 v st2 :
  stdin_read 1 st = (Done (lit "r"), st1) ->
  recv_value py_eval (loop_at fuel) st1 = (Done v, st2) ->
  loop_at (S fuel) st = (Done v, st2).
Proof.
  intros Hread Hval. rewrite loop_pass.
  rewrite (dispatch_iteration_r py_eval py_exec fuel st st1 _ st2 Hread Hval). reflexivity.
Qed.

(** An [r] command with the frame of an expression that evaluates to
    [v] makes the loop return [v]. *)
Lemma loop_return_frame fuel source v rest st :
  stdin st = lit "r" ++ written (frame source) ++ rest ->
  (forall s, py_eval source s = GReturn v) ->
  loop_at (S fuel) st = (Done v, set_stdin rest st).
Proof.
  intros Hin Heval.
  apply (loop_return fuel st _ v _ (stdin_read_one 114%N _ st Hin)).
  unfold recv_value, bind.
  rewrite (recv_string_frame source rest) by reflexivity.
  unfold eval. rewrite Heval. reflexivity.
Qed.

(** X11: when the expression sent with an [r] command raises an
    exception whose text the return stream can encode, the loop does
    not return to its caller: it sends one error frame with the text
    of the exception and runs the next pass.  It is still waiting for
    the result: an [r] command that follows, with an expression that
    evaluates to [v], makes it return [v]. *)
Theorem failed_return_keeps_waiting :
  forall fuel st st1 err st2,
    stdin_read 1 st = (Done (lit "r"), st1) ->
    recv_value py_eval (loop_at (S fuel)) st1 = (Raised err, st2) ->
    return_stream_closed st2 = false ->
    encodable (return_stream_errors st2) (exc_text err) = true ->
    let st3 := set_return_stream (return_stream st2 ++ error_frame (exc_text err)) st2 in
    iteration (S fuel) st = (Done Continue, st3) /\
    loop_at (S (S fuel)) st = after_pass (loop_at fuel) (iteration fuel st3) /\
    (forall source v rest,
       stdin st2 = lit "r" ++ written (frame source) ++ rest ->
       (forall s, py_eval source s = GReturn v) ->
       loop_at (S (S fuel)) st = (Done v, set_stdin rest st3)).
Proof.
  intros fuel st st1 err st2 Hread Hval Hopen Henc st3.
  pose proof (dispatch_iteration_r py_eval py_exec (S fuel) st st1 _ st2 Hread Hval) as H.
  cbv iota in H. rewrite answer_raised in H by assumption. fold st3 in H.
  split; [exact H|]. split; [apply loop_next_pass; exact H|].
  intros source v rest Hin Heval.
  rewrite (loop_continue py_eval py_exec _ _ _ H).
  apply (loop_return_frame fuel source v rest st3); [exact Hin|exact Heval].
Qed.

(** X12: a call of a callback proxy returns what the host sends back.
    With an open return stream that can encode the call frame, when
    the host answers the call frame with the command [r] and a frame
    whose text evaluates to [v], the call returns [v]; it has written
    the call frame and nothing else, consumed the answer and nothing
    else, and left the counter as it was.  When the stream cannot
    encode the text of the call frame, the call raises the
    [UnicodeEncodeError] of the write and reads nothing. *)
Theorem callback_returns_host_value :
  forall fuel handle args kwargs source v rest st,
    return_stream_closed st = false ->
    stdin st = lit "r" ++ written (frame source) ++ rest ->
    (forall s, py_eval source s = GReturn v) ->
    let text := wire_text (PTuple [handle; PTuple (callback_allargs args kwargs)])
                  (set_return_values 0 st) in
    (encodable (return_stream_errors st) text = true ->
     exists st',
       LispCallbackObject_call (loop_at (S fuel)) handle args kwargs st = (Done v, st') /\
       stdin st' = rest /\
       return_values st' = return_values st /\
       return_stream st' = return_stream st ++ [Write (lit "c")] ++ frame text) /\
    (forall refusal,
       encode_error (return_stream_errors st) text = Some refusal ->
       exists st',
         LispCallbackObject_call (loop_at (S fuel)) handle args kwargs st
         = (Raised refusal, st') /\
         stdin st' = stdin st /\
         return_values st' = return_values st /\
         return_stream st' = return_stream st ++ [Write (lit "c")] ++ length_line text).
Proof.
  intros fuel handle args kwargs source v rest st Hopen Hin Heval text.
  set (request := PTuple [handle; PTuple (callback_allargs args kwargs)]) in *.
  destruct (lispify_outcome request (set_return_values 0 st)) as [S _].
  split.
  - intros Henc. unfold LispCallbackObject_call, bind.
    rewrite callback_request_open by assumption. fold request.
    set (st_mid := set_return_values _ _).
    assert (stdin st_mid = lit "r" ++ written (frame source) ++ rest) as Hmid.
    { subst st_mid. state_proj. rewrite (ms_stdin _ _ S). exact Hin. }
    eexists. split; [apply (loop_return_frame fuel source v rest st_mid Hmid Heval)|].
    subst st_mid. state_proj. auto.
  - intros refusal Henc. unfold LispCallbackObject_call, bind.
    rewrite (callback_request_refused _ _ refusal) by assumption. fold request.
    eexists. split; [reflexivity|]. state_proj.
    rewrite (ms_stdin _ _ S). auto.
Qed.

(** X13: the commands [O] and [o] cancel each other, in either order:
    after the two the loop is where it would be without them, with the
    same counter, and nothing has been written. *)
Theorem counter_commands_cancel :
  forall fuel st rest,
    stdin st = lit "Oo" ++ rest \/ stdin st = lit "oO" ++ rest ->
    loop_at (S (S fuel)) st = loop_at fuel (set_stdin rest st).
Proof.
  intros fuel st rest Hin.
  assert (Hstep : forall n c (delta : Z) tail s,
             (c = 79%N /\ delta = 1 \/ c = 111%N /\ delta = -1) ->
             stdin s = c :: tail ->
             loop_at (S n) s
             = loop_at n (set_return_values (return_values s + delta) (set_stdin tail s))).
  { intros n c delta tail s Hc Hs. apply loop_continue.
    rewrite (dispatch_iteration_counter py_eval py_exec n [c] s _
               (stdin_read_one c tail s Hs)).
    - destruct Hc as [[-> ->]|[-> ->]]; reflexivity.
    - destruct Hc as [[-> _]|[-> _]]; [left|right]; reflexivity. }
  destruct Hin as [Hin|Hin].
  - rewrite (Hstep (S fuel) 79%N 1 (111%N :: rest) st) by (auto || exact Hin).
    rewrite (Hstep fuel 111%N (-1) rest) by (auto || reflexivity).
    f_equal. destruct st. unfold set_return_values, set_stdin. simpl.
    f_equal. lia.
  - rewrite (Hstep (S fuel) 111%N (-1) (79%N :: rest) st) by (auto || exact Hin).
    rewrite (Hstep fuel 79%N 1 rest) by (auto || reflexivity).
    f_equal. destruct st. unfold set_return_values, set_stdin. simpl.
    f_equal. lia.
Qed.

(** X14: a closed return stream ends the loop.  When a response is
    due (after an [e] or [x] command, or for an unknown command byte)
    and the stream is closed, the write raises [ValueError], the
    handler's own [return_error] raises it again, and the loop ends
    with that exception instead of going on. *)
Theorem closed_return_stream_ends_loop :
  forall fuel cmd st st1,
    stdin_read 1 st = (Done cmd, st1) ->
    (cmd = lit "e" \/ cmd = lit "x" ->
     forall o st2,
       work fuel cmd st1 = (o, st2) -> settled o -> return_stream_closed st2 = true ->
       loop_at (S fuel) st = (Raised closed_file_error, st2)) /\
    (cmd ∉ [lit "e"; lit "x"; lit "q"; lit "r"; lit "O"; lit "o"] ->
     return_stream_closed st = true ->
     loop_at (S fuel) st = (Raised closed_file_error, st1)).
Proof.
  intros fuel cmd st st1 Hread.
  destruct (stdin_read_state _ _ _ _ Hread) as (_ & Hclosed & _). split.
  - intros Hcmd o st2 Hwork Hsettled Hc. rewrite loop_pass.
    rewrite (dispatch_iteration_e_x py_eval py_exec fuel cmd st st1 o st2 Hread Hcmd Hwork).
    rewrite answer_closed by assumption. reflexivity.
  - intros Hcmd Hc. rewrite <- Hclosed in Hc. rewrite loop_pass.
    unfold dispatch_iteration.
    rewrite (dispatch_body_unknown py_eval py_exec fuel cmd st st1 Hread Hcmd).
    unfold bind. rewrite !return_error_closed by exact Hc. reflexivity.
Qed.

(** X15: an [x] command that runs to its end is always answered with
    the return frame of [None], whatever the statement computed. *)
Theorem statement_answers_None :
  forall fuel st st1 source sta v st2,
    stdin_read 1 st = (Done (lit "x"), st1) ->
    recv_string st1 = (Done source, sta) ->
    exec py_exec (loop_at fuel) source sta = (Done v, st2) ->
    return_stream_closed st2 = false ->
    iteration fuel st
    = (Done Continue,
       set_return_stream (return_stream st2 ++ return_frame (wire_text PNone st2))
         (snd (lispify PNone st2))).
Proof.
  intros fuel st st1 source sta v st2 Hread Hrecv Hexec Hopen.
  assert (work fuel (lit "x") st1 = (Done PNone, st2)) as Hwork.
  { unfold command_work.
    change (bool_decide (lit "x" = lit "e")) with false. cbv iota.
    unfold bind. rewrite Hrecv, Hexec. reflexivity. }
  rewrite (dispatch_iteration_e_x py_eval py_exec fuel (lit "x") st st1 _ st2 Hread
             (or_intror eq_refl) Hwork).
  apply answer_value; [reflexivity|exact Hopen|apply encodable_wire_text_None].
Qed.


End Dispatch_loop_commands.


Lemma failed_return_keeps_waiting_witness :
  let st := initial_state ∅ (lit "r3" ++ [newline] ++ lit "1/0r1" ++ [newline] ++ lit "5e") in
  message_dispatch_loop example_eval example_exec 2 st
  = (Done (PInt 5),
     set_return_stream (error_frame (lit "division by zero")) (initial_state ∅ (lit "e"))).
Proof.
  intros st.
  destruct (failed_return_keeps_waiting example_eval example_exec 0 st
              (snd (stdin_read 1 st))
              (mkExc (OtherException (lit "ZeroDivisionError")) (lit "division by zero"))
              (set_stdin (lit "r1" ++ [newline] ++ lit "5e") st)
              eq_refl eq_refl eq_refl eq_refl) as (_ & _ & Hnext).
  rewrite (Hnext (lit "5") (PInt 5) (lit "e") eq_refl (fun _ => eq_refl)). reflexivity.
Defined.

Lemma callback_returns_host_value_witness :
  let st := set_return_values 2
              (initial_state ∅ (lit "r" ++ written (frame (lit "5")) ++ lit "q")) in
  exists st',
    LispCallbackObject_call (message_dispatch_loop example_eval example_exec 1)
      (PInt 7) [PInt 3] [] st = (Done (PInt 5), st') /\
    stdin st' = lit "q" /\ return_values st' = 2.
Proof.
  intros st.
  destruct (callback_returns_host_value example_eval example_exec 0 (PInt 7) [PInt 3] []
              (lit "5") (PInt 5) (lit "q") st eq_refl eq_refl (fun _ => eq_refl))
    as [H _].
  destruct (H eq_refl) as (st' & E & Hin & Hrv & _).
  exists st'. split; [exact E|]. split; [exact Hin|exact Hrv].
Defined.

Lemma counter_commands_cancel_witness :
  message_dispatch_loop example_eval example_exec 3 (initial_state ∅ (lit "Ooq"))
  = (SystemExit 0, initial_state ∅ []).
Proof.
  rewrite (counter_commands_cancel example_eval example_exec 1
             (initial_state ∅ (lit "Ooq")) (lit "q") (or_introl eq_refl)).
  reflexivity.
Defined.

Lemma closed_return_stream_ends_loop_witness :
  let st := mkState 0 0 ∅ (lit "z") [] true ∅ ∅ strict in
  message_dispatch_loop example_eval example_exec 1 st
  = (Raised closed_file_error, set_stdin [] st).
Proof.
  intros st.
  destruct (closed_return_stream_ends_loop example_eval example_exec 0 (lit "z") st
              (set_stdin [] st) eq_refl) as [_ H].
  apply H; [|reflexivity].
  intros Hin. repeat (apply elem_of_cons in Hin as [Hin|Hin]; [discriminate Hin|]).
  inversion Hin.
Defined.

Lemma statement_answers_None_witness :
  let st := initial_state ∅ (lit "x4" ++ [newline] ++ lit "pass") in
  let loop := message_dispatch_loop example_eval example_exec 1 in
  exists st3,
    dispatch_iteration example_eval example_exec loop st = (Done Continue, st3) /\
    return_stream st3 = return_frame ([dquote] ++ lit "None" ++ [dquote]).
Proof.
  intros st loop. eexists. split.
  - apply (statement_answers_None example_eval example_exec 1 st
             (snd (stdin_read 1 st)) (lit "pass")
             (snd (recv_string (snd (stdin_read 1 st)))) PNone
             (snd (recv_string (snd (stdin_read 1 st))))); reflexivity.
  - reflexivity.
Defined.


(** ** The proxies *)

Lemma lispify_pair_default a b ta tb st :
  return_values st <= 0 ->
  lispify a st = (Done ta, st) -> lispify b st = (Done tb, st) ->
  lispify (PTuple [a; b]) st
  = (Done (lit "(" ++ join (lit " ") [ta; tb] ++ lit ")"), st).
Proof.
  intros Hrv Ha Hb. cbn [lispify lispify_each].
  assert ((0 <? return_values st) = false) as -> by (apply Z.ltb_ge; exact Hrv).
  unfold try_except_KeyError, bind. rewrite Ha, Hb. reflexivity.
Qed.

Lemma lispify_forced obj st :
  0 < return_values st -> isinstance_Exception obj = false ->
  lispify obj st = lispify_handle obj st.
Proof.
  intros Hrv Hobj. apply takes_handle_path_lispify. unfold takes_handle_path.
  apply Z.ltb_lt in Hrv. rewrite Hrv, Hobj. reflexivity.
Qed.

Lemma lispify_int_default z st :
  return_values st <= 0 ->
  lispify (PInt z) st
  = if int_fits z then (Done (str_int z), st) else (Raised int_str_limit_error, st).
Proof.
  intros Hrv. cbn [lispify].
  assert ((0 <? return_values st) = false) as -> by (apply Z.ltb_ge; exact Hrv).
  unfold try_except_KeyError, py_str_int. destruct (int_fits z); reflexivity.
Qed.

(** The pair of a handle number and an attribute name, while the
    counter is not positive. *)
Lemma lispify_getattr_request handle attr st :
  return_values st <= 0 ->
  lispify (PTuple [PInt handle; PStr attr]) st
  = if int_fits handle
    then (Done (lit "(" ++ join (lit " ") [str_int handle; lispify_str attr] ++ lit ")"), st)
    else (Raised int_str_limit_error, st).
Proof.
  intros Hrv. destruct (int_fits handle) eqn:Hfit.
  - apply lispify_pair_default; [exact Hrv| |].
    + rewrite lispify_int_default, Hfit by exact Hrv. reflexivity.
    + cbn [lispify].
      assert ((0 <? return_values st) = false) as -> by (apply Z.ltb_ge; exact Hrv).
      reflexivity.
  - cbn [lispify].
    assert ((0 <? return_values st) = false) as -> by (apply Z.ltb_ge; exact Hrv).
    unfold try_except_KeyError at 1. cbn [lispify_each]. unfold bind at 1 2.
    rewrite (lispify_int_default handle st Hrv), Hfit. reflexivity.
Qed.

(** X17: reading an attribute of an [UnknownLispObject] sends the tag
    [s] and the frame of one text for the pair of handle and attribute
    name, then waits in the loop.  Unlike the callback proxy it does
    not set the counter to 0 first: while the counter is not positive
    the text is the pair itself (the literal error text when the handle
    has more than 4300 digits) and no handle is taken; with a positive
    counter the text is a handle reference and the pair is stored in
    the handle table.  When the return stream cannot encode the text,
    which then holds the attribute name, the tag and the length line
    are written and the write of the text raises: the loop is not
    entered. *)
Theorem getattr_request_follows_counter :
  forall (loop : M PyVal) handle attr st,
    return_stream_closed st = false ->
    let request := PTuple [PInt handle; PStr attr] in
    exists text,
      (return_values st <= 0 ->
       text = if int_fits handle
              then lit "(" ++ join (lit " ") [str_int handle; lispify_str attr] ++ lit ")"
              else int_limit_text) /\
      (0 < return_values st ->
       text = handle_text request (python_handle st) /\
       encodable (return_stream_errors st) text = true) /\
      (encodable (return_stream_errors st) text = true ->
       exists st1,
         UnknownLispObject_getattr loop (PInt handle) attr st = loop st1 /\
         return_stream st1 = return_stream st ++ [Write (lit "s")] ++ frame text /\
         return_values st1 = return_values st /\
         stdin st1 = stdin st /\
         (return_values st <= 0 -> python_handle st1 = python_handle st) /\
         (0 < return_values st -> python_objects st1 !! python_handle st = Some request)) /\
      (forall refusal,
         encode_error (return_stream_errors st) text = Some refusal ->
         exists st1,
           UnknownLispObject_getattr loop (PInt handle) attr st = (Raised refusal, st1) /\
           return_stream st1 = return_stream st ++ [Write (lit "s")] ++ length_line text).
Proof.
  intros loop handle attr st Hopen request.
  exists (wire_text request st).
  destruct (lispify_outcome request st) as [S _].
  split; [|split; [|split]].
  - intros Hrv. unfold wire_text, request.
    rewrite (lispify_getattr_request handle attr st Hrv).
    destruct (int_fits handle); reflexivity.
  - intros Hrv. unfold wire_text. rewrite (lispify_forced request st Hrv eq_refl).
    split; [reflexivity|]. apply encodable_handle_text. reflexivity.
  - intros Henc.
    exists (set_return_stream
              (return_stream st ++ [Write (lit "s")] ++ frame (wire_text request st))
              (snd (lispify request st))).
    split; [|split; [reflexivity|split; [apply (ms_return_values _ _ S)|
             split; [apply (ms_stdin _ _ S)|split]]]].
    + unfold UnknownLispObject_getattr, bind. fold request.
      rewrite stream_write_open by stream_side.
      rewrite send_value_open
        by (state_proj; rewrite ?wire_text_set_return_stream; assumption).
      rewrite wire_text_set_return_stream, lispify_set_return_stream.
      state_proj. rewrite <- app_assoc. reflexivity.
    + intros Hrv. state_proj. unfold request.
      rewrite (lispify_getattr_request handle attr st Hrv).
      destruct (int_fits handle); reflexivity.
    + intros Hrv. rewrite (lispify_forced request st Hrv eq_refl). state_proj.
      apply lookup_insert_eq.
  - intros refusal Henc. eexists. split.
    + unfold UnknownLispObject_getattr, bind. fold request.
      rewrite stream_write_open by stream_side.
      rewrite (send_value_refused _ refusal)
        by (state_proj; rewrite ?wire_text_set_return_stream; assumption).
      reflexivity.
    + rewrite wire_text_set_return_stream, lispify_set_return_stream.
      state_proj. rewrite <- app_assoc. reflexivity.
Qed.

Lemma getattr_request_follows_counter_witness :
  let loop : M PyVal := fun s => (Done PNone, s) in
  exists st1,
    UnknownLispObject_getattr loop (PInt 4) (lit "x") (initial_state ∅ []) = (Done PNone, st1) /\
    return_stream st1
    = [Write (lit "s")] ++ frame (lit "(4 " ++ [dquote] ++ lit "x" ++ [dquote] ++ lit ")").
Proof.
  intros loop.
  destruct (getattr_request_follows_counter loop 4 (lit "x") (initial_state ∅ []) eq_refl)
    as (text & Hdefault & _ & Hsend & _).
  rewrite Hdefault in Hsend by (vm_compute; discriminate).
  destruct (Hsend eq_refl) as (st1 & E & Hout & _).
  exists st1. split; [exact E|]. rewrite Hout. reflexivity.
Defined.

(** X18: the finalizer of a proxy writes the tag [d] and one frame for
    the handle number, and reads nothing.  While the counter is not
    positive the frame holds the number (the literal error text when
    the number has more than 4300 digits) and the handle table is left
    alone; with a positive counter the frame holds a handle reference,
    and the number itself is stored in the handle table under a new
    handle. *)
Theorem proxy_del_notifies :
  forall handle st,
    return_stream_closed st = false ->
    exists text st1,
      proxy_del (PInt handle) st = (Done tt, st1) /\
      return_stream st1 = return_stream st ++ [Write (lit "d")] ++ frame text /\
      stdin st1 = stdin st /\
      (return_values st <= 0 ->
       text = (if int_fits handle then str_int handle else int_limit_text) /\
       python_objects st1 = python_objects st /\
       python_handle st1 = python_handle st) /\
      (0 < return_values st ->
       text = handle_text (PInt handle) (python_handle st) /\
       python_objects st1 !! python_handle st = Some (PInt handle) /\
       python_handle st1 = (python_handle st + 1)%N).
Proof.
  intros handle st Hopen.
  exists (wire_text (PInt handle) st).
  exists (set_return_stream
            (return_stream st ++ [Write (lit "d")] ++ frame (wire_text (PInt handle) st))
            (snd (lispify (PInt handle) st))).
  destruct (lispify_outcome (PInt handle) st) as [S _].
  assert (encodable (return_stream_errors st) (wire_text (PInt handle) st) = true) as Henc.
  { unfold wire_text. destruct (Z_lt_le_dec 0 (return_values st)) as [Hrv|Hrv].
    - rewrite (lispify_forced (PInt handle) st Hrv eq_refl).
      apply encodable_handle_text. reflexivity.
    - rewrite (lispify_int_default handle st Hrv).
      destruct (int_fits handle); cbn [fst]; [apply encodable_str_int|reflexivity]. }
  split; [|split; [reflexivity|split; [apply (ms_stdin _ _ S)|split]]].
  - unfold proxy_del, bind.
    rewrite stream_write_open by stream_side.
    rewrite send_value_open
      by (state_proj; rewrite ?wire_text_set_return_stream; assumption).
    rewrite wire_text_set_return_stream, lispify_set_return_stream.
    state_proj. rewrite <- app_assoc. reflexivity.
  - intros Hrv. unfold wire_text. rewrite (lispify_int_default handle st Hrv).
    destruct (int_fits handle); repeat split.
  - intros Hrv. unfold wire_text. rewrite (lispify_forced (PInt handle) st Hrv eq_refl).
    split; [reflexivity|]. state_proj. split; [apply lookup_insert_eq|reflexivity].
Qed.

Lemma proxy_del_notifies_witness :
  exists st1,
    proxy_del (PInt 4) (set_return_values 1 (initial_state ∅ [])) = (Done tt, st1) /\
    python_objects st1 !! 0%N = Some (PInt 4).
Proof.
  destruct (proxy_del_notifies 4 (set_return_values 1 (initial_state ∅ [])) eq_refl)
    as (text & st1 & E & _ & _ & _ & Hforced).
  exists st1. split; [exact E|]. apply Hforced. reflexivity.
Defined.

(** ** [pythonize] *)

Lemma replace_char_one old new s :
  replace_char old [new] s = (fun c => if (c =? old)%N then new else c) <$> s.
Proof.
  unfold replace_char. induction s as [|c s IH]; [reflexivity|].
  cbn [flat_map]. rewrite IH. rewrite fmap_cons. destruct (c =? old)%N; reflexivity.
Qed.

Lemma lookup_fmap_chars (f : N -> N) (l : list N) i c :
  l !! i = Some c -> (f <$> l) !! i = Some (f c).
Proof. intros H. rewrite list_lookup_fmap, H. reflexivity. Qed.

(** X19: [pythonize] of a [Symbol] whose name is a string drops the
    first character of the name and turns every hyphen of the rest into
    an underscore, other characters staying in place: the result has no
    hyphen and one character less than the name (none for the empty
    name, which is no error).  When the name is not a string it raises
    [TypeError]. *)
Theorem pythonize_result :
  forall name st,
    (forall s, name = PStr s ->
       exists out,
         pythonize name st = (Done out, st) /\
         length out = (length s - 1)%nat /\
         (45%N ∉ out) /\
         forall i c, drop 1 s !! i = Some c ->
                     out !! i = Some (if (c =? 45)%N then 95%N else c)) /\
    ((forall s, name <> PStr s) ->
     exists e, pythonize name st = (Raised e, st) /\ exc_class e = TypeError).
Proof.
  intros name st. split.
  - intros s ->. eexists. split; [reflexivity|]. rewrite replace_char_one.
    split; [rewrite length_fmap, length_drop; reflexivity|]. split.
    + intros Hin. apply list_elem_of_fmap in Hin as (c & Hc & _).
      destruct (c =? 45)%N eqn:E; [discriminate Hc|].
      apply N.eqb_neq in E. congruence.
    + intros i c Hi.
      exact (lookup_fmap_chars (fun c => if (c =? 45)%N then 95%N else c) _ _ _ Hi).
  - intros Hname. destruct name; try (eexists; split; reflexivity).
    exfalso. exact (Hname s eq_refl).
Qed.

Lemma pythonize_result_witness :
  exists out,
    pythonize (PStr (lit ":my-slot-name")) (initial_state ∅ [])
    = (Done out, initial_state ∅ []) /\
    length out = 12%nat /\ (45%N ∉ out).
Proof.
  destruct (pythonize_result (PStr (lit ":my-slot-name")) (initial_state ∅ [])) as [H _].
  destruct (H _ eq_refl) as (out & E & Hlen & Hno & _).
  exists out. split; [exact E|]. split; [exact Hlen|exact Hno].
Defined.


(** ** [generator] *)

Lemma generator_calls py_eq fuel function stop_value st yielded st' :
  generator py_eq fuel function stop_value st = (Done yielded, st') ->
  (length yielded < fuel)%nat /\
  Forall (fun y => py_eq y stop_value = false) yielded /\
  exists last,
    call_times (S (length yielded)) function st = (Done (yielded ++ [last]), st') /\
    py_eq last stop_value = true.
Proof.
  revert st yielded st'.
  induction fuel as [|fuel IH]; intros st yielded st' E; [discriminate E|].
  cbn [generator] in E. unfold bind at 1 in E. cbn [call_times]. unfold bind at 1.
  destruct (function st) as [[temp|e| |code|] st1]; try discriminate E.
  destruct (py_eq temp stop_value) eqn:Heq.
  - injection E as <- <-. split; [simpl; lia|]. split; [constructor|].
    exists temp. split; [reflexivity|exact Heq].
  - unfold bind in E.
    destruct (generator py_eq fuel function stop_value st1) as [[rest|e| |code|] st2] eqn:E2;
      try discriminate E.
    injection E as <- <-. destruct (IH _ _ _ E2) as (Hlen & Hall & last & Hcalls & Hlast).
    split; [simpl; lia|]. split; [constructor; assumption|].
    exists last. split; [|exact Hlast].
    cbn [length]. unfold bind. rewrite Hcalls. reflexivity.
Qed.

Lemma call_times_S n function st :
  call_times (S n) function st
  = (v <- function ;; vs <- call_times n function ;; ret (v :: vs)) st.
Proof. reflexivity. Qed.

Lemma generator_from_calls py_eq function stop_value yielded :
  forall last st st' fuel,
    call_times (S (length yielded)) function st = (Done (yielded ++ [last]), st') ->
    Forall (fun y => py_eq y stop_value = false) yielded ->
    py_eq last stop_value = true ->
    (length yielded < fuel)%nat ->
    generator py_eq fuel function stop_value st = (Done yielded, st').
Proof.
  induction yielded as [|y ys IH]; intros last st st' fuel Hcalls Hall Hlast Hfuel;
    (destruct fuel as [|fuel]; [simpl in Hfuel; lia|]);
    rewrite call_times_S in Hcalls; unfold bind at 1 in Hcalls;
    cbn [generator]; unfold bind at 1;
    destruct (function st) as [[temp|e| |code|] st1]; try discriminate Hcalls.
  - cbn in Hcalls. inversion Hcalls; subst. rewrite Hlast. reflexivity.
  - unfold bind at 1 in Hcalls. cbn [length] in Hcalls.
    destruct (call_times (S (length ys)) function st1) as [[vs|e| |code|] st2] eqn:E2;
      try discriminate Hcalls.
    cbn in Hcalls.
    assert (temp = y /\ vs = ys ++ [last] /\ st2 = st') as (-> & -> & ->)
      by (inversion Hcalls; auto).
    inversion Hall as [|? ? Hy Hys]; subst. rewrite Hy.
    unfold bind. rewrite (IH last st1 st' fuel E2 Hys Hlast) by (simpl in Hfuel; lia).
    reflexivity.
Qed.

(** X20: a run of [generator] that comes to its end has called
    [function] exactly one time more than it has yielded values: the
    values it yields are the results of the calls but the last, in
    order, none of them equal to the stop value, and the last call
    returned a value equal to the stop value.  Conversely, when the
    calls return such results, the generator yields them and ends. *)
Theorem generator_yields_until_stop :
  forall py_eq function stop_value st yielded st',
    (forall fuel,
       generator py_eq fuel function stop_value st = (Done yielded, st') ->
       Forall (fun y => py_eq y stop_value = false) yielded /\
       exists last,
         call_times (S (length yielded)) function st = (Done (yielded ++ [last]), st') /\
         py_eq last stop_value = true) /\
    (forall last fuel,
       call_times (S (length yielded)) function st = (Done (yielded ++ [last]), st') ->
       Forall (fun y => py_eq y stop_value = false) yielded ->
       py_eq last stop_value = true ->
       (length yielded < fuel)%nat ->
       generator py_eq fuel function stop_value st = (Done yielded, st')).
Proof.
  intros py_eq function stop_value st yielded st'. split.
  - intros fuel E. destruct (generator_calls _ _ _ _ _ _ _ E) as (_ & Hall & Hlast).
    split; assumption.
  - intros last fuel. apply generator_from_calls.
Qed.

Lemma generator_yields_until_stop_witness :
  let st := initial_state ∅ (lit "ab") in
  generator example_eq 5 read_char (PStr []) st
  = (Done [PStr (lit "a"); PStr (lit "b")], set_stdin [] st) /\
  call_times 3 read_char st
  = (Done [PStr (lit "a"); PStr (lit "b"); PStr []], set_stdin [] st).
Proof.
  intros st.
  destruct (generator_yields_until_stop example_eq read_char (PStr []) st
              [PStr (lit "a"); PStr (lit "b")] (set_stdin [] st)) as [_ Hgen].
  assert (generator example_eq 5 read_char (PStr []) st
          = (Done [PStr (lit "a"); PStr (lit "b")], set_stdin [] st)) as E.
  { apply (Hgen (PStr [])); [reflexivity|repeat constructor|reflexivity|simpl; lia]. }
  split; [exact E|]. reflexivity.
Defined.

(** ** What reaches the host *)

Lemma written_app out1 out2 : written (out1 ++ out2) = written out1 ++ written out2.
Proof.
  induction out1 as [|[s|] out1 IH]; simpl; [reflexivity| |exact IH].
  rewrite IH, app_assoc. reflexivity.
Qed.

Lemma send_value_on_closed_stream value st :
  return_stream_closed st = true ->
  send_value value st = (Raised closed_file_error, snd (lispify value st)).
Proof.
  intros Hclosed. destruct (lispify_outcome value st) as [S Hr].
  unfold send_value, bind, try_except, print_flush, bind.
  destruct (lispify value st) as [r st1] eqn:E. simpl in S, Hr. cbn [snd].
  assert (return_stream_closed st1 = true) as Hc
    by (rewrite (ms_closed _ _ S); exact Hclosed).
  destruct Hr as [[text ->]|[e ->]]; unfold ret;
    rewrite stream_write_closed by exact Hc; reflexivity.
Qed.

(** X21: on a closed return stream [send_value] raises [ValueError] and
    writes nothing, but only after the marshaller has run: with a
    positive counter the value has already got a handle and is stored
    in the handle table although no frame was sent. *)
Theorem send_value_closed_stream_keeps_handle :
  forall value st,
    return_stream_closed st = true ->
    exists st',
      send_value value st = (Raised closed_file_error, st') /\
      return_stream st' = return_stream st /\
      (0 < return_values st -> isinstance_Exception value = false ->
       python_handle st' = (python_handle st + 1)%N /\
       python_objects st' !! python_handle st = Some value).
Proof.
  intros value st Hclosed. eexists. split; [apply send_value_on_closed_stream; exact Hclosed|].
  destruct (lispify_outcome value st) as [S _]. split; [apply (ms_return_stream _ _ S)|].
  intros Hrv Hv. rewrite (lispify_forced value st Hrv Hv). state_proj.
  split; [reflexivity|apply lookup_insert_eq].
Qed.

Lemma send_value_closed_stream_keeps_handle_witness :
  let st := mkState 1 0 ∅ [] [] true ∅ ∅ strict in
  exists st',
    send_value (PInt 5) st = (Raised closed_file_error, st') /\
    python_objects st' !! 0%N = Some (PInt 5).
Proof.
  intros st.
  destruct (send_value_closed_stream_keeps_handle (PInt 5) st eq_refl)
    as (st' & E & _ & H).
  exists st'. split; [exact E|]. apply H; reflexivity.
Defined.

Lemma written_length_line text :
  written (length_line text) = str_int (len text) ++ [newline].
Proof. unfold length_line. cbn [written]. rewrite app_nil_r. reflexivity. Qed.

Lemma written_write s : written [Write s] = s.
Proof. cbn [written]. apply app_nil_r. Qed.

Lemma written_write_flush s : written [Write s; Flush] = s.
Proof. cbn [written]. apply app_nil_r. Qed.

(** X22: the characters that reach the host for [return_value(value)]
    on an open stream that can encode the text: the tag ([e] for an
    exception object, [r] otherwise), the decimal number of characters
    of the text, a line end, and the text.  When the stream cannot
    encode the text, the tag, the number and the line end reach the
    host and [return_value] raises the [UnicodeEncodeError]. *)
Theorem return_value_characters :
  forall value st,
    return_stream_closed st = false ->
    let text := wire_text value st in
    let tag := if isinstance_Exception value then lit "e" else lit "r" in
    (encodable (return_stream_errors st) text = true ->
     exists st',
       return_value value st = (Done tt, st') /\
       written (return_stream st')
       = written (return_stream st)
         ++ tag ++ str_int (Z.of_nat (length text)) ++ [newline] ++ text) /\
    (forall refusal,
       encode_error (return_stream_errors st) text = Some refusal ->
       exists st',
         return_value value st = (Raised refusal, st') /\
         written (return_stream st')
         = written (return_stream st)
           ++ tag ++ str_int (Z.of_nat (length text)) ++ [newline]).
Proof.
  intros value st Hopen text tag. subst text tag.
  destruct (isinstance_Exception value) eqn:Hv.
  - destruct value; try discriminate Hv. rewrite wire_text_exception. split.
    + intros Henc. eexists. split; [apply return_exception_open; assumption|].
      state_proj. rewrite written_app.
      unfold error_frame. rewrite written_app, written_frame. reflexivity.
    + intros refusal Henc. eexists.
      split; [apply return_exception_refused; assumption|].
      state_proj. rewrite !written_app, written_length_line, written_write. reflexivity.
  - split.
    + intros Henc. eexists. split; [apply return_value_open; assumption|].
      state_proj. rewrite written_app.
      unfold return_frame. rewrite written_app, written_frame. reflexivity.
    + intros refusal Henc. eexists.
      split; [apply return_value_refused; assumption|].
      state_proj. rewrite !written_app, written_length_line, written_write_flush.
      reflexivity.
Qed.

Lemma return_value_characters_witness :
  exists st',
    return_value (PBool true) (initial_state ∅ []) = (Done tt, st') /\
    written (return_stream st') = lit "r1" ++ [newline] ++ lit "T".
Proof.
  destruct (return_value_characters (PBool true) (initial_state ∅ []) eq_refl)
    as [H _].
  destruct (H eq_refl) as (st' & E & Hw).
  exists st'. split; [exact E|]. rewrite Hw. reflexivity.
Defined.

Section Dispatch_loop_round.

Variable py_eval : pystr -> State -> Guest.
Variable py_exec : pystr -> State -> Guest.

Local Abbreviation loop_at fuel := (message_dispatch_loop py_eval py_exec fuel).
Local Abbreviation iteration fuel := (dispatch_iteration py_eval py_exec (loop_at fuel)).

(** X23: one whole pass for an [e] command.  With an open return
    stream, when the input starts with [e] and the frame of an
    expression that evaluates to a value [v] that is no exception
    object, the pass consumes the command byte and the frame and
    nothing else.  When the stream can encode the text of [v], the pass
    answers with the tag [r], a flush and the frame of the text, and
    the loop runs the next pass on the rest of the input, so that a
    [q] that follows ends it.  When the stream cannot encode the text,
    the pass writes the tag, the flush and the length line, and then
    an error frame for the [UnicodeEncodeError]. *)
Theorem evaluate_command_round :
  forall fuel source v rest st,
    return_stream_closed st = false ->
    stdin st = lit "e" ++ written (frame source) ++ rest ->
    (forall s, py_eval source s = GReturn v) ->
    isinstance_Exception v = false ->
    let st2 := set_stdin rest st in
    let text := wire_text v st2 in
    (encodable (return_stream_errors st) text = true ->
     let st3 :=
       set_return_stream (return_stream st ++ [Write (lit "r"); Flush] ++ frame text)
         (snd (lispify v st2)) in
     iteration (S fuel) st = (Done Continue, st3) /\
     stdin st3 = rest /\
     loop_at (S (S fuel)) st = after_pass (loop_at fuel) (iteration fuel st3) /\
     (forall rest', rest = lit "q" ++ rest' ->
        loop_at (S (S fuel)) st = (SystemExit 0, set_stdin rest' st3))) /\
    (forall refusal,
       encode_error (return_stream_errors st) text = Some refusal ->
       iteration (S fuel) st
       = (Done Continue,
          set_return_stream
            (return_stream st ++ [Write (lit "r"); Flush] ++ length_line text
             ++ error_frame (exc_text refusal))
            (snd (lispify v st2)))).
Proof.
  intros fuel source v rest st Hopen Hin Heval Hv st2 text.
  assert (stdin_read 1 st = (Done (lit "e"), set_stdin (written (frame source) ++ rest) st))
    as Hread by (apply (stdin_read_one 101%N); exact Hin).
  assert (command_work py_eval py_exec (loop_at (S fuel)) (lit "e")
            (set_stdin (written (frame source) ++ rest) st) = (Done v, st2)) as Hwork.
  { unfold command_work.
    change (bool_decide (lit "e" = lit "e")) with true. cbv iota. unfold bind.
    rewrite (recv_string_frame source rest) by reflexivity.
    unfold eval. rewrite Heval. reflexivity. }
  pose proof (dispatch_iteration_e_x py_eval py_exec (S fuel) (lit "e") st _ _ st2 Hread
                (or_introl eq_refl) Hwork) as H.
  destruct (lispify_outcome v st2) as [S _].
  split.
  - intros Henc st3.
    rewrite answer_value in H by assumption. fold text st3 in H.
    assert (stdin st3 = rest) as Hrest
      by (subst st3; state_proj; rewrite (ms_stdin _ _ S); reflexivity).
    split; [exact H|]. split; [exact Hrest|].
    split; [apply loop_next_pass; exact H|].
    intros rest' ->. apply (loop_next_quit py_eval py_exec fuel st st3 rest' H Hrest).
  - intros refusal Henc.
    rewrite (answer_value_refused _ refusal) in H by assumption. exact H.
Qed.

End Dispatch_loop_round.

Lemma evaluate_command_round_witness :
  let st := initial_state ∅ (lit "e" ++ written (frame (lit "1+1")) ++ lit "q") in
  message_dispatch_loop example_eval example_exec 2 st
  = (SystemExit 0, set_return_stream ([Write (lit "r"); Flush] ++ frame (lit "2"))
                     (initial_state ∅ [])).
Proof.
  intros st.
  destruct (evaluate_command_round example_eval example_exec 0 (lit "1+1") (PInt 2)
              (lit "q") st eq_refl eq_refl (fun _ => eq_refl) eq_refl) as [H _].
  destruct (H eq_refl) as (_ & _ & _ & Hquit).
  rewrite (Hquit [] eq_refl). reflexivity.
Defined.
